(** * Planning and orchestration core of the OSINT intel engine

    A shallow embedding of

    - [src/intel_engine/modules/research_ai_orchestrator.py]
      ([ResearchAICollectionOrchestrator]: [_extract_objectives],
      [_extract_targets], [_select_modules], [_order_modules],
      [_build_execution_order], [_load_module_class], [_run_module] with
      the preparation of the Recon-ng arguments, and [_execute_impl]),
    - [src/intel_engine/ai/planner.py] ([AIPlanner]: [analyze_gaps] and
      [suggest_modules]) and
    - [src/intel_engine/core/module_base.py] ([IntelModuleBase]: the schema
      validator and the [execute] pipeline),

    together with the properties stated about them.

    Python sets of module ids are [gset string]; Python dicts whose iteration
    order is irrelevant are [gmap]; dicts whose iteration order is observable
    (the requirement index, the gap summary, JSON objects of the profile) are
    association lists in insertion order.  Code that reads or writes the
    shared profile, logs, or may raise is written in the monad [Py]: a state
    transformer over the profile and the log with an exception result.
    Unbounded loops and recursion carry fuel, and the theorems show that the
    fuel handed to them suffices.  The floats of the planner are rationals
    where only their order, their bounds or the values 0 and 1 matter, and
    IEEE binary64 numbers ([Planner64], over the Standard Library's
    [SpecFloat]) where the value of a score matters.

    The file has three parts: the embedding of the source, the vocabulary in
    which the properties are stated together with the concrete inputs used
    as examples, and the lemmas and theorems. *)

From Stdlib Require Import String Ascii List ZArith QArith Qcanon Qround Lia Lqa.
From Stdlib Require SpecFloat.
From stdpp Require Import base numbers option gmap sets list strings sorting.

Set Warnings "-clear-no-such-hyp,-register-all".

Open Scope string_scope.
Open Scope list_scope.
Open Scope nat_scope.

(** ** Loops over Python iterables *)

(** [for x in l: body x] where the body threads a state and may fail to
    produce one (used for the fuel-indexed recursion below). *)
Definition for_each {A S : Type} (body : A → S → option S) (l : list A) (st : S)
  : option S :=
  foldl (λ acc x, acc ≫= body x) (Some st) l.

(** ** Python values, exceptions and the interpreter state *)

(** JSON-like values held by the profile.  [VFloat] carries the exact
    rational value of the float. *)
Inductive value : Type :=
| VNone
| VBool (b : bool)
| VInt (z : Z)
| VFloat (q : Q)
| VStr (s : string)
| VList (l : list value)
| VDict (d : list (string * value)).

(** A dict in insertion order: an association list whose keys are distinct. *)
Fixpoint assoc_get {V : Type} (k : string) (d : list (string * V)) : option V :=
  match d with
  | [] => None
  | (k', v) :: d' => if decide (k = k') then Some v else assoc_get k d'
  end.

(** [d[k] = v]: overwrite in place, or append a new key. *)
Fixpoint assoc_set {V : Type} (k : string) (v : V) (d : list (string * V))
  : list (string * V) :=
  match d with
  | [] => [(k, v)]
  | (k', v') :: d' =>
      if decide (k = k') then (k, v) :: d' else (k', v') :: assoc_set k v d'
  end.

(** [bool(v)]. *)
Definition truthy (v : value) : bool :=
  match v with
  | VNone => false
  | VBool b => b
  | VInt z => negb (z =? 0)%Z
  | VFloat q => negb (Qeq_bool q 0)
  | VStr s => negb (String.eqb s "")
  | VList l => match l with [] => false | _ => true end
  | VDict d => match d with [] => false | _ => true end
  end.

(** [a or b]. *)
Definition py_or (a b : value) : value := if truthy a then a else b.

(** An instance of Python's [Exception]: its class name and [str(exc)].
    Interpreter signals that derive from [BaseException] only
    ([KeyboardInterrupt], [SystemExit]) are not modelled. *)
Record Exn : Type := mkExn { exn_class : string; exn_message : string }.

Definition AttributeError (msg : string) : Exn := mkExn "AttributeError" msg.
Definition TypeError (msg : string) : Exn := mkExn "TypeError" msg.
Definition KeyError (msg : string) : Exn := mkExn "KeyError" msg.
Definition IndexError (msg : string) : Exn := mkExn "IndexError" msg.

(** The mutable state the code runs against: the shared profile dict and the
    records sent to [self.logger]. *)
Record World : Type := mkWorld {
  w_profile : list (string * value);
  w_log : list (string * string)
}.

(** Computations that read and write the state and either return or raise. *)
Definition Py (A : Type) : Type := World → World * (Exn + A).

#[global] Instance py_ret : MRet Py := λ A a w, (w, inr a).

#[global] Instance py_bind : MBind Py := λ A B k m w,
  match m w with
  | (w', inl e) => (w', inl e)
  | (w', inr a) => k a w'
  end.

Definition raise {A : Type} (e : Exn) : Py A := λ w, (w, inl e).

(** [try: body  except Exception as exc: handler exc].  State changes made
    by [body] before it raised are kept. *)
Definition try_except {A : Type} (body : Py A) (handler : Exn → Py A) : Py A :=
  λ w, match body w with
       | (w', inl e) => handler e w'
       | (w', inr a) => (w', inr a)
       end.

(** A pure step that may raise. *)
Definition lift {A : Type} (r : Exn + A) : Py A := λ w, (w, r).

(** [profile.get(key)] on the shared profile. *)
Definition profile_get (key : string) : Py (option value) :=
  λ w, (w, inr (assoc_get key (w_profile w))).

(** [self.logger.<level>(message)]. *)
Definition log (level message : string) : Py unit :=
  λ w, ({| w_profile := w_profile w; w_log := w_log w ++ [(level, message)] |},
        inr tt).

(** [obj.get(key)] on an arbitrary value: only dicts have the method. *)
Definition value_get (obj : value) (key : string) : Exn + option value :=
  match obj with
  | VDict d => inr (assoc_get key d)
  | VNone => inl (AttributeError "'NoneType' object has no attribute 'get'")
  | VBool _ => inl (AttributeError "'bool' object has no attribute 'get'")
  | VInt _ => inl (AttributeError "'int' object has no attribute 'get'")
  | VFloat _ => inl (AttributeError "'float' object has no attribute 'get'")
  | VStr _ => inl (AttributeError "'str' object has no attribute 'get'")
  | VList _ => inl (AttributeError "'list' object has no attribute 'get'")
  end.

(** [for x in l: acc = body acc x] in [Py]. *)
Fixpoint py_fold {A B : Type} (body : B → A → Py B) (l : list A) (acc : B)
  : Py B :=
  match l with
  | [] => mret acc
  | x :: l' => acc' ← body acc x; py_fold body l' acc'
  end.

(** ** The execution engine of the orchestrator *)

Module Engine.

(** An entry of [MODULE_REGISTRY]. *)
Record candidate : Type := mk_candidate {
  import_path : string;
  class_name : string;
  cand_profile_section : string
}.

(** [MODULE_REGISTRY], lines 98-172. *)
Definition MODULE_REGISTRY : gmap string (list candidate) :=
  list_to_map
    [ ("theHarvester",
       [ mk_candidate "intel_engine.modules.research_domain_email_enumeration"
                      "Research_Domain_Email_Enumeration" "digital" ]);
      ("SpiderFoot",
       [ mk_candidate "intel_engine.modules.research_automation_spiderfoot"
                      "Research_Automation_SpiderFoot" "digital" ]);
      ("Recon-ng",
       [ mk_candidate "intel_engine.modules.research_framework_reconng"
                      "Research_Framework_ReconNG" "intelligence" ]);
      ("Metagoofil",
       [ mk_candidate "intel_engine.modules.research_metadata_document"
                      "Research_Metadata_Document_Extraction" "digital" ]);
      ("Photon",
       [ mk_candidate "intel_engine.modules.research_web_crawling_photon"
                      "ResearchWebCrawlingPhoton" "digital";
         mk_candidate "intel_engine.modules.research_web_crawling_photon"
                      "Research_Web_Crawling_Photon" "digital" ]);
      ("Sherlock",
       [ mk_candidate "intel_engine.modules.research_identity_username_search"
                      "Research_Identity_Username_Search" "social" ]);
      ("GHunt",
       [ mk_candidate "intel_engine.modules.research_account_google_intel"
                      "ResearchAccountGoogleIntel" "digital" ]);
      ("Skiptracer",
       [ mk_candidate "intel_engine.modules.research_enrichment_skiptracer"
                      "Research_Enrichment_Skiptracer" "enrichment" ]);
      ("Twint",
       [ mk_candidate "intel_engine.modules.research_social_twitter_intelligence"
                      "ResearchSocialTwitterIntelligence" "social";
         mk_candidate "intel_engine.modules.research_twitter_activity"
                      "ResearchSocialTwitterActivity" "social" ]) ].

(** A keyword argument passed to a module constructor. *)
Inductive kwarg : Type :=
| KLogger
| KStr (s : string).

(** The [status] field of an execution record. *)
Inductive status : Type := completed | failed | skipped | unavailable.

(** The dict returned by [_run_module]. *)
Record record : Type := mk_record {
  rec_module : string;
  rec_status : status;
  rec_summary : string;
  rec_profile_section : string;
  rec_output_keys : list string
}.

(** *** [_build_workspace_name] *)

Definition is_alnum (c : ascii) : bool :=
  let n := nat_of_ascii c in
  (((48 <=? n) && (n <=? 57)) || ((65 <=? n) && (n <=? 90))
   || ((97 <=? n) && (n <=? 122)))%nat.

(** [re.sub(r"[^A-Za-z0-9]+", "_", s)]: every maximal run of characters
    outside [A-Za-z0-9] becomes one underscore.  [in_run] tells whether the
    previous character belonged to such a run. *)
Fixpoint sub_non_alnum (in_run : bool) (s : string) : string :=
  match s with
  | EmptyString => EmptyString
  | String c s' =>
      if is_alnum c then String c (sub_non_alnum false s')
      else if in_run then sub_non_alnum true s'
      else String "_"%char (sub_non_alnum true s')
  end.

Fixpoint lstrip_underscore (s : string) : string :=
  match s with
  | String "_"%char s' => lstrip_underscore s'
  | _ => s
  end.

Fixpoint string_rev_onto (s acc : string) : string :=
  match s with
  | EmptyString => acc
  | String c s' => string_rev_onto s' (String c acc)
  end.

(** [s.strip("_")]. *)
Definition strip_underscore (s : string) : string :=
  let l := lstrip_underscore s in
  string_rev_onto (lstrip_underscore (string_rev_onto l EmptyString)) EmptyString.

Section ExecutionEngine.
(** What lies outside the source: the import system, the classes it
    yields, their instances, the clock and [repr] of non-string values. *)
Variables PyModule ModuleClass ModuleInstance : Type.
(** [importlib.import_module(import_path)]. *)
Variable import_module : string → Py PyModule.
(** [getattr(module, class_name)]. *)
Variable getattr_class : PyModule → string → Py ModuleClass.
(** The constructor call of a module class with keyword arguments. *)
Variable construct : ModuleClass → list (string * kwarg) → Py ModuleInstance.
(** [instance.execute(profile)], acting on the shared profile. *)
Variable execute : ModuleInstance → Py value.
(** [datetime.utcnow().strftime("%Y%m%d%H%M%S")]. *)
Variable utcnow_stamp : Py string.
(** [str(v)] for a value that is not a string. *)
Variable py_repr : value → string.

Definition py_str (v : value) : string :=
  match v with VStr s => s | _ => py_repr v end.

(** [seq[0]] for a truthy value [seq]; on a string, its first character
    (its first byte here, the same for ASCII text). *)
Definition index0 (seq : value) : Exn + value :=
  match seq with
  | VList (x :: _) => inr x
  | VList [] => inl (IndexError "list index out of range")
  | VStr s => inr (VStr (String.substring 0 1 s))
  | VDict _ => inl (KeyError "0")
  | VNone => inl (TypeError "'NoneType' object is not subscriptable")
  | VBool _ => inl (TypeError "'bool' object is not subscriptable")
  | VInt _ => inl (TypeError "'int' object is not subscriptable")
  | VFloat _ => inl (TypeError "'float' object is not subscriptable")
  end.

(** [profile.get(section, {})]. *)
Definition profile_section (section : string) : Py value :=
  found ← profile_get section; mret (default (VDict []) found).

(** [container.get(key) or []]. *)
Definition get_or_empty (container : value) (key : string) : Py value :=
  v ← lift (value_get container key);
  mret (py_or (default VNone v) (VList [])).

(** [_derive_reconng_target], lines 419-445.  [None, None] is [None]. *)
Definition _derive_reconng_target : Py (option (string * string)) :=
  digital ← profile_section "digital";
  domains ← get_or_empty digital "domains";
  if truthy domains
  then x ← lift (index0 domains); mret (Some ("domain", py_str x))
  else
    business ← profile_section "business";
    company_names ← get_or_empty business "company_names";
    if truthy company_names
    then x ← lift (index0 company_names); mret (Some ("company", py_str x))
    else
      contact ← profile_section "contact";
      emails ← get_or_empty contact "emails";
      if truthy emails
      then x ← lift (index0 emails); mret (Some ("contact", py_str x))
      else
        phones ← get_or_empty contact "phones";
        if truthy phones
        then x ← lift (index0 phones); mret (Some ("contact", py_str x))
        else
          identity ← profile_section "identity";
          full_name ← lift (value_get identity "full_name");
          if truthy (default VNone full_name)
          then mret (Some ("contact", py_str (default VNone full_name)))
          else mret None.

(** [_build_workspace_name], lines 447-453. *)
Definition _build_workspace_name (target_value : string) : Py string :=
  let cleaned := strip_underscore (sub_non_alnum false target_value) in
  let cleaned := if String.eqb cleaned "" then "target" else cleaned in
  let cleaned := String.substring 0 32 cleaned in
  timestamp ← utcnow_stamp;
  mret (String.append "orchestrator_"
          (String.append cleaned (String.append "_" timestamp))).

(** [_prepare_module_kwargs], lines 398-417. *)
Definition _prepare_module_kwargs (module_id : string)
  : Py (list (string * kwarg) * option string) :=
  let kwargs := [("logger", KLogger)] in
  if decide (module_id ≠ "Recon-ng") then mret (kwargs, None)
  else
    target ← _derive_reconng_target;
    match target with
    | Some (target_type, target_value) =>
        if String.eqb target_value "" || String.eqb target_type ""
        then mret ([], Some "No suitable target found for Recon-ng execution.")
        else
          workspace_name ← _build_workspace_name target_value;
          mret (kwargs ++ [ ("workspace_name", KStr workspace_name);
                            ("target", KStr target_value);
                            ("target_type", KStr target_type) ], None)
    | None =>
        mret ([], Some "No suitable target found for Recon-ng execution.")
    end.

(** The [for candidate in candidates] loop of [_load_module_class]: the
    first candidate that imports and resolves is returned, a candidate
    that raises is passed over. *)
Fixpoint load_candidates (candidates : list candidate)
  : Py (option (ModuleClass * string)) :=
  match candidates with
  | [] => mret None
  | c :: rest =>
      try_except
        (module ← import_module (import_path c);
         module_class ← getattr_class module (class_name c);
         mret (Some (module_class, cand_profile_section c)))
        (λ _, load_candidates rest)
  end.

(** [_load_module_class], lines 455-468. *)
Definition _load_module_class (module_id : string)
  : Py (option ModuleClass * string) :=
  let candidates := default [] (MODULE_REGISTRY !! module_id) in
  match candidates with
  | [] => mret (None, "unknown")
  | first :: _ =>
      found ← load_candidates candidates;
      match found with
      | Some (module_class, section) => mret (Some module_class, section)
      | None => mret (None, cand_profile_section first)
      end
  end.

(** [list(output.keys()) if isinstance(output, dict) else []]. *)
Definition output_keys (output : value) : list string :=
  match output with VDict d => d.*1 | _ => [] end.

(** The body of the [try] block of [_run_module], lines 369-387. *)
Definition run_loaded (module_id : string) (module_class : ModuleClass)
    (section : string) : Py record :=
  prepared ← _prepare_module_kwargs module_id;
  match prepared.2 with
  | Some skip_reason =>
      if String.eqb skip_reason ""
      then
        instance ← construct module_class prepared.1;
        output ← execute instance;
        mret (mk_record module_id completed "Module executed successfully."
                        section (output_keys output))
      else mret (mk_record module_id skipped skip_reason section [])
  | None =>
      instance ← construct module_class prepared.1;
      output ← execute instance;
      mret (mk_record module_id completed "Module executed successfully."
                      section (output_keys output))
  end.

(** [_run_module], lines 357-396. *)
Definition _run_module (module_id : string) : Py record :=
  loaded ← _load_module_class module_id;
  match loaded.1 with
  | None =>
      mret (mk_record module_id unavailable "Module implementation not found."
                      loaded.2 [])
  | Some module_class =>
      try_except
        (run_loaded module_id module_class loaded.2)
        (λ exc,
           log "error"
             (String.append "Module '"
                (String.append module_id
                   (String.append "' failed: " (exn_message exc))));;
           mret (mk_record module_id failed (exn_message exc) loaded.2 []))
  end.

(** The execution loop of [_execute_impl], lines 190-193 (the extraction of
    objectives and targets and the assembly of the orchestration record
    around it are not embedded):
    [for module_id in execution_order:
       module_results.append(self._run_module(module_id, profile))]. *)
Definition run_modules (execution_order : list string) : Py (list record) :=
  py_fold (λ module_results module_id,
             result_entry ← _run_module module_id;
             mret (module_results ++ [result_entry]))
          execution_order [].

End ExecutionEngine.
End Engine.

(** ** The dependency resolver of the orchestrator *)

Module Orchestrator.

(** [MODULE_PRIORITY], lines 86-96. *)
Definition MODULE_PRIORITY : list string :=
  [ "theHarvester"; "Recon-ng"; "SpiderFoot"; "Photon"; "Metagoofil";
    "Sherlock"; "GHunt"; "Skiptracer"; "Twint" ].

(** The local table [dependencies] of [_build_execution_order],
    lines 310-320. *)
Definition dependencies : gmap string (list string) :=
  list_to_map
    [ ("Recon-ng", ["theHarvester"]);
      ("SpiderFoot", ["theHarvester"; "Recon-ng"]);
      ("Photon", ["theHarvester"]);
      ("Metagoofil", ["Photon"]);
      ("GHunt", []);
      ("Sherlock", []);
      ("Skiptracer", []);
      ("Twint", []);
      ("theHarvester", []) ].

(** [dependencies.get(module_id, [])]. *)
Definition deps_get (deps : gmap string (list string)) (module_id : string)
  : list string :=
  default [] (deps !! module_id).

(** Python compares [str] values by code point; on UTF-8 encoded strings this
    is the byte-wise lexicographic order of [String.leb]. *)
Definition str_le (a b : string) : Prop := String.leb a b = true.

#[global] Instance str_le_dec : RelDecision str_le.
Proof. intros a b. unfold str_le. apply _. Defined.

(** [sorted(remaining)] on a set of strings. *)
Definition sorted (remaining : gset string) : list string :=
  merge_sort str_le (elements remaining).

(** One iteration of the first loop of [_order_modules]:
    [if name in remaining: ordered.append(name); remaining.remove(name)]. *)
Definition order_step (acc : list string * gset string) (name : string)
  : list string * gset string :=
  if decide (name ∈ acc.2)
  then (acc.1 ++ [name], acc.2 ∖ {[name]})
  else acc.

(** [_order_modules], lines 298-307. *)
Definition _order_modules (modules : list string) : list string :=
  let remaining : gset string := list_to_set modules in
  let acc := foldl order_step ([], remaining) MODULE_PRIORITY in
  acc.1 ++ sorted acc.2.

(** *** Step 1: dependency closure (lines 322-330) *)

(** The innermost statement:
    [if dependency not in expanded: expanded.add(dependency); changed = True]. *)
Definition closure_add (acc : gset string * bool) (dependency : string)
  : gset string * bool :=
  if decide (dependency ∈ acc.1) then acc else ({[dependency]} ∪ acc.1, true).

(** One pass of [for module_id in list(expanded)]: the snapshot
    [list(expanded)] is taken before the pass, membership is tested against
    the set as it grows.  Python leaves the order of the snapshot open; the
    loop below takes [elements], and the set it ends with is the least
    closed set above the selection whatever the order. *)
Definition closure_pass (deps : gmap string (list string))
    (snapshot : list string) (acc : gset string * bool) : gset string * bool :=
  foldl (λ acc module_id, foldl closure_add acc (deps_get deps module_id))
        acc snapshot.

(** [while changed: ...].  The loop is unbounded in the source; here it is
    indexed by fuel and [None] means the fuel ran out. *)
Fixpoint closure_loop (deps : gmap string (list string)) (fuel : nat)
    (expanded : gset string) : option (gset string) :=
  match fuel with
  | O => None
  | S fuel' =>
      let acc := closure_pass deps (elements expanded) (expanded, false) in
      if acc.2 then closure_loop deps fuel' acc.1 else Some acc.1
  end.

(** Every id that occurs as a dependency in the table. *)
Definition dep_universe (deps : gmap string (list string)) : gset string :=
  ⋃ (list_to_set <$> (map_to_list deps).*2).

Definition dependency_closure (deps : gmap string (list string))
    (selected_modules : list string) : option (gset string) :=
  closure_loop deps (S (size (dep_universe deps))) (list_to_set selected_modules).

(** *** Step 2: depth-first ordering (lines 332-353) *)

(** The variables captured by the nested function [visit], plus the
    diagnostics sent to [self.logger.warning]. *)
Record dfs_state : Type := mk_dfs {
  ordered : list string;
  visiting : gset string;
  visited : gset string;
  warnings : list string
}.

Definition dfs_init : dfs_state :=
  {| ordered := []; visiting := ∅; visited := ∅; warnings := [] |}.

Definition log_cycle (module_id : string) (st : dfs_state) : dfs_state :=
  {| ordered := ordered st; visiting := visiting st; visited := visited st;
     warnings := warnings st ++ [module_id] |}.

Definition enter (module_id : string) (st : dfs_state) : dfs_state :=
  {| ordered := ordered st; visiting := {[module_id]} ∪ visiting st;
     visited := visited st; warnings := warnings st |}.

(** [visiting.remove(m); visited.add(m); ordered.append(m)]. *)
Definition finalize (module_id : string) (st : dfs_state) : dfs_state :=
  {| ordered := ordered st ++ [module_id];
     visiting := visiting st ∖ {[module_id]};
     visited := {[module_id]} ∪ visited st;
     warnings := warnings st |}.

(** The recursive closure [visit]; [fuel] bounds the recursion depth. *)
Fixpoint visit (deps : gmap string (list string)) (expanded : gset string)
    (fuel : nat) (module_id : string) (st : dfs_state) : option dfs_state :=
  match fuel with
  | O => None
  | S fuel' =>
      if decide (module_id ∈ visited st) then Some st
      else if decide (module_id ∈ visiting st) then Some (log_cycle module_id st)
      else
        finalize module_id <$>
          for_each
            (λ dependency st,
               if decide (dependency ∈ expanded)
               then visit deps expanded fuel' dependency st
               else Some st)
            (deps_get deps module_id) (enter module_id st)
  end.

(** The body of [_build_execution_order] for an arbitrary dependency table. *)
Definition build_execution_order_state (deps : gmap string (list string))
    (selected_modules : list string) : option dfs_state :=
  expanded ← dependency_closure deps selected_modules;
  for_each (visit deps expanded (S (size expanded)))
           (_order_modules (elements expanded)) dfs_init.

Definition build_execution_order_with (deps : gmap string (list string))
    (selected_modules : list string) : option (list string) :=
  ordered <$> build_execution_order_state deps selected_modules.

(** [_build_execution_order], lines 309-355. *)
Definition _build_execution_order (selected_modules : list string)
  : option (list string) :=
  build_execution_order_with dependencies selected_modules.

(** A table with a two-element cycle. *)
Definition cyclic_table : gmap string (list string) :=
  list_to_map [("A", ["B"]); ("B", ["A"])].

End Orchestrator.


(** ** The gap analyzer and the suggestion engine *)

Module Planner.

(** [_build_module_catalog], lines 52-64. *)
Definition section_modules : list (string * list string) :=
  [ ("identity", ["Identity_DeepDive"; "Alias_Expansion"]);
    ("contact", ["Contact_Network_Map"]);
    ("digital", ["Digital_Footprint_Audit"]);
    ("business", ["Research_ABN_Lookup"; "Director_Association_Scan"]);
    ("legal", ["Legal_Proceedings_Scan"]);
    ("metadata", ["Document_Metadata_Aggregator"]);
    ("social", ["Social_Temporal_Analysis"]);
    ("geo", ["Geo_History_Reconstruction"]);
    ("risk", ["Risk_Scorer"]) ].

(** A value of the gap summary.  Floats are modelled by exact rationals:
    the binary rounding of IEEE doubles is left out here, which does not
    bear on the order of two scores, on bounds, or on the values 0 and 1.
    [Planner64] below carries the same arithmetic out in binary64, for the
    properties that depend on the value of a score. *)
Record gap_entry : Type := mk_gap {
  missing_fields : list string;
  completeness : Qc
}.

(** A one-entry dict [{module_name: score}]. *)
Record suggestion : Type := mk_suggestion {
  module_name : string;
  score : Qc
}.

(** [value in (None, "", [], {})]. *)
Definition is_blank (v : value) : bool :=
  match v with
  | VNone => true
  | VStr s => String.eqb s ""
  | VList l => match l with [] => true | _ => false end
  | VDict d => match d with [] => true | _ => false end
  | VBool _ | VInt _ | VFloat _ => false
  end.

(** [max(a, b)]: the first argument unless the second is larger. *)
Definition py_max (a b : Qc) : Qc := if decide (a < b)%Qc then b else a.

(** Rounding to the nearest integer, ties to the even one. *)
Definition round_half_even (q : Q) : Z :=
  let n := Qfloor q in
  match (q - inject_Z n ?= 1 # 2)%Q with
  | Lt => n
  | Gt => (n + 1)%Z
  | Eq => if Z.even n then n else (n + 1)%Z
  end.

(** [round(x, 2)]. *)
Definition py_round2 (x : Qc) : Qc :=
  Q2Qc (inject_Z (round_half_even (x * 100)%Q) / 100).

(** [enumerate(l)]. *)
Definition enumerate {A : Type} (l : list A) : list (nat * A) :=
  imap (λ i x, (i, x)) l.

(** [priority_multiplier = max(0.5, 1.0 - (rank * 0.1))]. *)
Definition priority_multiplier (rank : nat) : Qc :=
  py_max (Q2Qc (1 # 2)) (1 - Q2Qc (inject_Z (Z.of_nat rank)) * Q2Qc (1 # 10))%Qc.

(** [field_pressure = 1 + len(details["missing_fields"]) * 0.05]. *)
Definition field_pressure (details : gap_entry) : Qc :=
  (1 + Q2Qc (inject_Z (Z.of_nat (length (missing_fields details))))
       * Q2Qc (1 # 20))%Qc.

(** [missing_ratio = 1.0 - details["completeness"]]. *)
Definition missing_ratio (details : gap_entry) : Qc :=
  (1 - completeness details)%Qc.

(** [base_score * priority_multiplier * field_pressure] before rounding. *)
Definition raw_score (details : gap_entry) (rank : nat) : Qc :=
  (missing_ratio details * Q2Qc 100 * priority_multiplier rank
   * field_pressure details)%Qc.

(** The insertion step of a stable sort by descending score: [x], which
    preceded every element of [l] in the input, goes before the first
    element whose score does not exceed its own. *)
Fixpoint insert_desc (x : suggestion) (l : list suggestion) : list suggestion :=
  match l with
  | [] => [x]
  | y :: l' =>
      if decide (score x < score y)%Qc then y :: insert_desc x l'
      else x :: y :: l'
  end.

(** [suggestions.sort(key=score, reverse=True)]: Python's sort is stable,
    also with [reverse=True]; any stable sort returns the same list. *)
Definition sort_desc (l : list suggestion) : list suggestion :=
  foldr insert_desc [] l.

Section Planner.
(** [self.section_requirements]: the requirement index that
    [_extract_section_requirements] derives from the schema handed to the
    constructor, in the iteration order of the dict. *)
Variable section_requirements : list (string * list string).
(** [str.lower]. *)
Variable str_lower : string → string.

(** Body of the loop over [required_fields], lines 82-84. *)
Definition check_field (section_payload : value)
    (missing_fields : list string) (field_name : string)
  : Py (list string) :=
  value ← lift (value_get section_payload field_name);
  mret (if is_blank (default VNone value)
        then missing_fields ++ [field_name] else missing_fields).

(** Lines 76-84: the missing fields of one section. *)
Definition section_missing (section_payload : option value)
    (required_fields : list string) : Py (list string) :=
  match section_payload with
  | None | Some VNone =>
      mret (match required_fields with
            | [] => ["__section_missing__"]
            | _ => required_fields
            end)
  | Some payload => py_fold (check_field payload) required_fields []
  end.

(** Lines 86-87. *)
Definition completeness_of (missing_fields required_fields : list string)
  : Qc :=
  let denominator := Nat.max 1 (length required_fields) in
  py_max 0 (1 - Q2Qc (Z.of_nat (length missing_fields)
                       # Pos.of_nat denominator))%Qc.

(** Body of the loop over [self.section_requirements.items()]. *)
Definition analyze_section (gaps : list (string * gap_entry))
    (item : string * list string) : Py (list (string * gap_entry)) :=
  section_payload ← profile_get item.1;
  missing ← section_missing section_payload item.2;
  mret (assoc_set item.1 (mk_gap missing (completeness_of missing item.2))
                  gaps).

(** [analyze_gaps], lines 66-93. *)
Definition analyze_gaps : Py (list (string * gap_entry)) :=
  py_fold analyze_section section_requirements [].

(** [score = round(base_score * priority_multiplier * field_pressure, 2)]. *)
Definition suggestion_score (details : gap_entry) (rank : nat) : Qc :=
  py_round2 (raw_score details rank).

(** Body of the loop over [enumerate(modules)], lines 123-135. *)
Definition suggest_candidate (executed : gset string) (details : gap_entry)
    (suggestions : list suggestion) (item : nat * string) : list suggestion :=
  if decide (str_lower item.2 ∈ executed) then suggestions
  else suggestions ++ [mk_suggestion item.2 (suggestion_score details item.1)].

(** Body of the loop over [gap_summary.items()], lines 114-135. *)
Definition suggest_section (executed : gset string)
    (suggestions : list suggestion) (item : string * gap_entry)
  : list suggestion :=
  let modules := default [] (assoc_get item.1 section_modules) in
  match modules with
  | [] => suggestions
  | _ =>
      if decide (missing_ratio item.2 ≤ 0)%Qc then suggestions
      else foldl (suggest_candidate executed item.2) suggestions
                 (enumerate modules)
  end.

(** [{name.lower() for name in (history or [])}]. *)
Definition executed_set (history : option (list string)) : gset string :=
  list_to_set (str_lower <$> default [] history).

(** The list [suggestions] as it stands before the final sort. *)
Definition candidate_suggestions (executed : gset string)
    (gap_summary : list (string * gap_entry)) : list suggestion :=
  foldl (suggest_section executed) [] gap_summary.

(** [suggest_modules], lines 95-141. *)
Definition suggest_modules (history : option (list string))
  : Py (list suggestion) :=
  let executed := executed_set history in
  gap_summary ← analyze_gaps;
  mret (sort_desc (candidate_suggestions executed gap_summary)).

End Planner.

(** ASCII lower-casing, the restriction of [str.lower] to ASCII text. *)
Definition ascii_lower (c : ascii) : ascii :=
  let n := nat_of_ascii c in
  if ((65 <=? n) && (n <=? 90))%nat then ascii_of_nat (n + 32) else c.

Fixpoint lower_ascii (s : string) : string :=
  match s with
  | EmptyString => EmptyString
  | String c s' => String (ascii_lower c) (lower_ascii s')
  end.

End Planner.

(** * Vocabulary of the properties *)

(** A computation from which no exception escapes. *)
Definition never_raises {A : Type} (m : Py A) : Prop :=
  ∀ w, ∃ w' a, m w = (w', inr a).

(** A computation that leaves the state as it found it, whether it returns
    or raises. *)
Definition read_only {A : Type} (m : Py A) : Prop := ∀ w, (m w).1 = w.

(** ** The dependency resolver *)

Module ResolverSpec.
Import Orchestrator.

(** What the first loop of [_order_modules] maintains: [ordered] has no
    duplicates, is disjoint from [remaining], and together they hold the
    ids the loop started with. *)
Definition order_inv (start acc : list string * gset string) : Prop :=
  NoDup acc.1 ∧ (∀ x, x ∈ acc.1 → x ∉ acc.2) ∧
  (∀ x, x ∈ acc.1 ∨ x ∈ acc.2 ↔ x ∈ start.1 ∨ x ∈ start.2).

(** [m] is at exactly one position of [l]. *)
Definition occurs_once (m : string) (l : list string) : Prop :=
  ∃ i, l !! i = Some m ∧ ∀ j, l !! j = Some m → j = i.

(** A height function for the static table. *)
Definition static_rank (m : string) : nat :=
  if decide (m = "SpiderFoot") then 2
  else if decide (m = "Metagoofil") then 2
  else if decide (m = "Recon-ng") then 1
  else if decide (m = "Photon") then 1
  else 0.

Section Tables.
Variable deps : gmap string (list string).
Variable expanded : gset string.
(** A height function on module ids, used only where the table is assumed
    acyclic: every dependency lies strictly below its dependent. *)
Variable rank : string → nat.

(** A set of module ids that contains the dependencies of its members. *)
Definition closed (E : gset string) : Prop :=
  ∀ m d, m ∈ E → d ∈ deps_get deps m → d ∈ E.

(** The table is acyclic, witnessed by [rank]. *)
Definition ranked : Prop := ∀ m d, d ∈ deps_get deps m → rank d < rank m.

(** Bookkeeping invariant of the traversal. *)
Definition wf (st : dfs_state) : Prop :=
  NoDup (ordered st) ∧ (∀ x, x ∈ ordered st ↔ x ∈ visited st) ∧
  (∀ x, x ∈ visiting st → x ∉ visited st) ∧ visited st ⊆ expanded.

(** Every finalized module has its selected dependencies finalized. *)
Definition deps_done (st : dfs_state) : Prop :=
  ∀ x d, x ∈ visited st → d ∈ deps_get deps x → d ∈ expanded → d ∈ visited st.

(** In a sequence, dependencies come before their dependents. *)
Definition deps_first (l : list string) : Prop :=
  ∀ i j x d, l !! j = Some x → d ∈ deps_get deps x → l !! i = Some d → i < j.

(** The schedule invariant of the traversal. *)
Definition sched (st : dfs_state) : Prop := deps_done st ∧ deps_first (ordered st).

(** Every module on the DFS stack lies strictly above [m]. *)
Definition above (m : string) (st : dfs_state) : Prop :=
  ∀ v, v ∈ visiting st → rank m < rank v.

(** [if dependency in expanded: visit(dependency)]. *)
Definition visit_dep (fuel : nat) (dependency : string) (st : dfs_state)
  : option dfs_state :=
  if decide (dependency ∈ expanded)
  then visit deps expanded fuel dependency st else Some st.

(** What a call [visit m] that started in [st] and ended in [st'] has
    achieved. *)
Definition visit_post (m : string) (st st' : dfs_state) : Prop :=
  wf st' ∧ visiting st' = visiting st ∧ visited st ⊆ visited st' ∧
  (m ∈ visiting st ∨ m ∈ visited st') ∧
  (ranked → above m st → sched st → sched st').

(** [visit] with [fuel] returns whenever fewer than [fuel] selected modules
    are off the stack. *)
Definition visit_spec (fuel : nat) : Prop :=
  ∀ m st, m ∈ expanded → wf st → size (expanded ∖ visiting st) < fuel →
          ∃ st', visit deps expanded fuel m st = Some st' ∧ visit_post m st st'.

End Tables.
End ResolverSpec.

(** ** The execution engine *)

Module EngineSpec.
Import Engine.

Section ExecutionEngine.
Variables PyModule ModuleClass ModuleInstance : Type.
Variable import_module : string → Py PyModule.
Variable getattr_class : PyModule → string → Py ModuleClass.
Variable construct : ModuleClass → list (string * kwarg) → Py ModuleInstance.
Variable execute : ModuleInstance → Py value.
Variable utcnow_stamp : Py string.
Variable py_repr : value → string.

(** The candidate [c] cannot be imported, or its class cannot be
    resolved, starting in state [w]; [w'] is the state left behind. *)
Definition candidate_fails (c : candidate) (w w' : World) : Prop :=
  (∃ e, import_module (import_path c) w = (w', inl e)) ∨
  (∃ w1 module e,
     import_module (import_path c) w = (w1, inr module) ∧
     getattr_class module (class_name c) w1 = (w', inl e)).

(** Every candidate of [cs] fails in turn, from [w] to [w']. *)
Fixpoint all_candidates_fail (cs : list candidate) (w w' : World) : Prop :=
  match cs with
  | [] => w' = w
  | c :: rest => ∃ w1, candidate_fails c w w1 ∧ all_candidates_fail rest w1 w'
  end.

(** The implementation of [module_id] cannot be located or loaded. *)
Definition cannot_be_loaded (module_id : string) (w w' : World) : Prop :=
  (MODULE_REGISTRY !! module_id = None ∧ w' = w) ∨
  (∃ cs, MODULE_REGISTRY !! module_id = Some cs ∧ all_candidates_fail cs w w').

(** The module loads, is not skipped, is instantiated, and its [execute]
    raises [exc], leaving the state [w']. *)
Definition raises_in_execute (module_id : string) (exc : Exn)
    (w w' : World) : Prop :=
  ∃ module_class section kwargs instance w1 w2 w3,
    _load_module_class PyModule ModuleClass import_module getattr_class
      module_id w = (w1, inr (Some module_class, section)) ∧
    _prepare_module_kwargs utcnow_stamp py_repr module_id w1
      = (w2, inr (kwargs, None)) ∧
    construct module_class kwargs w2 = (w3, inr instance) ∧
    execute instance w3 = (w', inl exc).

(** The loop body of [run_modules]. *)
Definition append_result (module_results : list record) (module_id : string)
  : Py (list record) :=
  result_entry ← _run_module PyModule ModuleClass ModuleInstance import_module
                   getattr_class construct execute utcnow_stamp py_repr
                   module_id;
  mret (module_results ++ [result_entry]).

End ExecutionEngine.
End EngineSpec.

(** ** The planner *)

Module PlannerSpec.
Import Planner.

(** The value kinds on which [.get] is never called or succeeds: a section
    that is absent or [None], or a mapping. *)
Definition mapping_or_absent (section_payload : option value) : bool :=
  match section_payload with
  | None | Some VNone | Some (VDict _) => true
  | Some _ => false
  end.

(** The four ways of holding no information, as the description lists them:
    absent (no key, or [None]), empty string, empty sequence, empty mapping. *)
Definition no_information (field : option value) : Prop :=
  field = None ∨ field = Some VNone ∨ field = Some (VStr "") ∨
  field = Some (VList []) ∨ field = Some (VDict []).

(** The missing fields of one section, when no [.get] call raises. *)
Definition missing_of (section_payload : option value)
    (required_fields : list string) : list string :=
  match section_payload with
  | None | Some VNone =>
      match required_fields with
      | [] => ["__section_missing__"]
      | _ => required_fields
      end
  | Some (VDict d) =>
      filter (λ f, is_blank (default VNone (assoc_get f d)) = true)
             required_fields
  | Some _ => []
  end.

(** The gap entry of one item of the requirement index. *)
Definition entry_of (profile : list (string * value))
    (item : string * list string) : gap_entry :=
  let missing := missing_of (assoc_get item.1 profile) item.2 in
  mk_gap missing (completeness_of missing item.2).

(** An item of the requirement index on which the analysis does not raise:
    it requires no field, or its section is absent, [None] or a mapping. *)
Definition section_ok (profile : list (string * value))
    (item : string * list string) : Prop :=
  item.2 = [] ∨ mapping_or_absent (assoc_get item.1 profile) = true.

#[global] Instance section_ok_dec profile item : Decision (section_ok profile item).
Proof. unfold section_ok. apply _. Defined.

(** The gap summary as a pure function of the profile. *)
Definition gaps_of (profile : list (string * value))
    (reqs : list (string * list string)) (gaps : list (string * gap_entry))
  : list (string * gap_entry) :=
  foldl (λ gaps item, assoc_set item.1 (entry_of profile item) gaps) gaps reqs.


(** The candidate modules of a section. *)
Definition candidates_of (section : string) : list string :=
  default [] (assoc_get section section_modules).

Section Suggest.
Variable str_lower : string → string.

(** Where a suggestion comes from: candidate number [rank] of [section],
    whose gap entry is [details], not executed before. *)
Definition emitted (executed : gset string) (gaps : list (string * gap_entry))
    (section : string) (details : gap_entry) (rank : nat) (s : suggestion)
  : Prop :=
  (section, details) ∈ gaps ∧
  (candidates_of section) !! rank = Some (module_name s) ∧
  (0 < missing_ratio details)%Qc ∧
  (str_lower (module_name s) ∉ executed) ∧
  score s = suggestion_score details rank.

End Suggest.
End PlannerSpec.

(** * Concrete inputs *)

(** A small concrete environment for the execution engine: the Google
    module cannot be imported, and the username search raises in
    [execute]; every other module writes the [digital] section. *)
Module EngineExample.
Import Engine.

Definition toy_import (path : string) : Py string :=
  if decide (path = "intel_engine.modules.research_account_google_intel")
  then raise (mkExn "ModuleNotFoundError" "No module named 'ghunt'")
  else mret path.

Definition toy_getattr (module class_name : string) : Py string :=
  mret class_name.

Definition toy_construct (module_class : string)
    (kwargs : list (string * kwarg)) : Py string :=
  mret module_class.

Definition toy_execute (instance : string) : Py value :=
  if decide (instance = "Research_Identity_Username_Search")
  then raise (mkExn "ValueError" "profile is missing required field 'identity'.")
  else λ w,
    ({| w_profile := assoc_set "digital" (VDict [("seen_by", VStr instance)])
                               (w_profile w);
        w_log := w_log w |},
     inr (VDict [("digital", VDict [("seen_by", VStr instance)])])).

(** A fixed clock. *)
Definition toy_utcnow : Py string := mret "20240101000000".

Definition toy_repr (v : value) : string := "".

Definition toy_run_module : string → Py record :=
  _run_module string string string toy_import toy_getattr toy_construct
              toy_execute toy_utcnow toy_repr.

Definition toy_run_modules : list string → Py (list record) :=
  run_modules string string string toy_import toy_getattr toy_construct
              toy_execute toy_utcnow toy_repr.

(** The empty profile, nothing logged. *)
Definition toy_world : World := {| w_profile := []; w_log := [] |}.

(** The state after [theHarvester] has run in [toy_world]. *)
Definition toy_world1 : World :=
  {| w_profile :=
       [("digital",
         VDict [("seen_by", VStr "Research_Domain_Email_Enumeration")])];
     w_log := [] |}.

Definition harvester_record : record :=
  mk_record "theHarvester" completed "Module executed successfully."
            "digital" ["digital"].

Definition sherlock_error : Exn :=
  mkExn "ValueError" "profile is missing required field 'identity'.".

End EngineExample.

(** Profiles and requirement indexes for the planner. *)
Module PlannerExample.
Import Planner.

(** A requirement index with one required field, and a profile whose
    [identity] section is a sequence. *)
Definition identity_requirements : list (string * list string) :=
  [("identity", ["full_name"])].

Definition sequence_world : World :=
  {| w_profile := [("identity", VList [VStr "Jane Doe"])]; w_log := [] |}.

Definition mapping_world : World :=
  {| w_profile := [("identity", VDict [("full_name", VStr "Jane Doe")])];
     w_log := [] |}.

Definition fields_requirements : list (string * list string) :=
  [("identity", ["full_name"; "dob"; "aliases"; "age"; "verified"; "links"])].

Definition fields_payload : list (string * value) :=
  [ ("full_name", VStr "Jane Doe"); ("dob", VStr ""); ("aliases", VList []);
    ("age", VInt 0); ("verified", VBool false) ].

Definition fields_world : World :=
  {| w_profile := [("identity", VDict fields_payload)]; w_log := [] |}.

Definition fields_gaps : list (string * gap_entry) :=
  [("identity", mk_gap ["dob"; "aliases"; "links"] (Q2Qc (1 # 2)))].

Definition third_requirements : list (string * list string) :=
  [("identity", ["full_name"; "dob"; "aliases"])].

Definition third_world : World :=
  {| w_profile := [("identity", VDict [("full_name", VStr "Jane Doe")])];
     w_log := [] |}.

Definition third_gaps : list (string * gap_entry) :=
  [("identity", mk_gap ["dob"; "aliases"] (Q2Qc (1 # 3)))].


Definition alias_expansion : suggestion :=
  mk_suggestion "Alias_Expansion" (Q2Qc 66).

End PlannerExample.

(** Further inputs for the planner. *)
Module PlannerMoreExample.
Import Planner.

(** A requirement index with a section that requires nothing, and a profile
    that holds neither section. *)
Definition absent_requirements : list (string * list string) :=
  [("identity", ["full_name"; "dob"]); ("geo", [])].

Definition absent_world : World :=
  {| w_profile := [("identity", VNone)]; w_log := [] |}.

Definition absent_gaps : list (string * gap_entry) :=
  [("identity", mk_gap ["full_name"; "dob"] 0%Qc);
   ("geo", mk_gap ["__section_missing__"] 0%Qc)].

(** The gap summary of a fully populated profile. *)
Definition full_gaps : list (string * gap_entry) :=
  [("identity", mk_gap [] 1%Qc)].

End PlannerMoreExample.

(** Reachability in a dependency table. *)
Module ResolverMoreSpec.
Import Orchestrator.

(** [d] is a declared dependency of [m]. *)
Definition depends_on (deps : gmap string (list string)) (m d : string) : Prop :=
  d ∈ deps_get deps m.

(** [m] is selected, or a dependency, direct or not, of a selected module. *)
Definition needed (deps : gmap string (list string))
    (selected_modules : list string) (m : string) : Prop :=
  ∃ s, s ∈ selected_modules ∧ rtc (depends_on deps) s m.

End ResolverMoreSpec.

(** Vocabulary for further properties of the execution engine. *)
Module EngineMoreSpec.
Import Engine.

(** The field [key] of [section] gives Recon-ng no target: the section is
    absent, or it is a mapping in which the field is absent or falsy. *)
Definition field_falsy (profile : list (string * value))
    (section key : string) : Prop :=
  match assoc_get section profile with
  | None => True
  | Some (VDict d) => truthy (default VNone (assoc_get key d)) = false
  | Some _ => False
  end.

(** None of the five places [_derive_reconng_target] looks at holds a
    target. *)
Definition no_reconng_target (profile : list (string * value)) : Prop :=
  field_falsy profile "digital" "domains" ∧
  field_falsy profile "business" "company_names" ∧
  field_falsy profile "contact" "emails" ∧
  field_falsy profile "contact" "phones" ∧
  field_falsy profile "identity" "full_name".

(** A character of [A-Za-z0-9_]. *)
Definition name_char (c : ascii) : Prop := is_alnum c = true ∨ c = "_"%char.

End EngineMoreSpec.

(** A second environment: the first class name registered for Photon does
    not exist in its module, and constructors fail for the username search. *)
Module EngineMoreExample.
Import Engine EngineExample.

Definition toy_getattr2 (module class_name : string) : Py string :=
  if decide (class_name = "ResearchWebCrawlingPhoton")
  then raise (mkExn "AttributeError"
                "module has no attribute 'ResearchWebCrawlingPhoton'")
  else mret class_name.

Definition toy_construct2 (module_class : string)
    (kwargs : list (string * kwarg)) : Py string :=
  if decide (module_class = "Research_Identity_Username_Search")
  then raise (mkExn "TypeError" "unexpected keyword argument 'logger'")
  else mret module_class.

(** A profile with sections but nothing Recon-ng can be pointed at. *)
Definition no_target_world : World :=
  {| w_profile :=
       [("digital", VDict [("domains", VList []); ("ips", VList [VStr "10.0.0.1"])]);
        ("contact", VDict [("emails", VNone)]);
        ("identity", VDict [("full_name", VStr "")])];
     w_log := [] |}.

End EngineMoreExample.

(** ** Module selection of the orchestrator *)

Module Selector.
Import Engine Orchestrator.

(** [keyword_map] of [_select_modules], lines 253-274, in insertion order. *)
Definition keyword_map : list (string * list string) :=
  [ ("email", ["theHarvester"; "GHunt"]);
    ("domain", ["theHarvester"; "Photon"; "Recon-ng"; "SpiderFoot"]);
    ("subdomain", ["theHarvester"; "Photon"]);
    ("social", ["Sherlock"; "Twint"]);
    ("username", ["Sherlock"; "Twint"]);
    ("twitter", ["Twint"]);
    ("google", ["GHunt"]);
    ("account", ["GHunt"; "Sherlock"]);
    ("recon", ["theHarvester"; "Recon-ng"]);
    ("crawl", ["Photon"]);
    ("web", ["Photon"; "Metagoofil"]);
    ("document", ["Metagoofil"]);
    ("file", ["Metagoofil"]);
    ("metadata", ["Metagoofil"]);
    ("infrastructure", ["SpiderFoot"]);
    ("ip", ["SpiderFoot"]);
    ("phone", ["Skiptracer"]);
    ("enrichment", ["Skiptracer"]);
    ("correlate", ["Recon-ng"; "SpiderFoot"]);
    ("map", ["SpiderFoot"]) ].

(** [needle in haystack] on two strings. *)
Fixpoint str_contains (needle haystack : string) : bool :=
  String.prefix needle haystack ||
  match haystack with
  | EmptyString => false
  | String _ rest => str_contains needle rest
  end.

(** [selected.update(modules)]. *)
Definition update (selected : gset string) (modules : list string)
  : gset string :=
  selected ∪ list_to_set modules.

(** [targets.get(key)] as a condition: the key is there with a non-empty
    list. *)
Definition target_given (targets : list (string * list value)) (key : string)
  : bool :=
  match assoc_get key targets with
  | Some (_ :: _) => true
  | _ => false
  end.

(** Lines 282-291. *)
Definition scan_targets (targets : list (string * list value))
    (selected : gset string) : gset string :=
  let selected :=
    if target_given targets "emails"
    then update selected ["theHarvester"; "GHunt"] else selected in
  let selected :=
    if target_given targets "domains"
    then update selected ["theHarvester"; "Photon"; "Recon-ng"; "SpiderFoot"]
    else selected in
  let selected :=
    if target_given targets "ips"
    then update selected ["SpiderFoot"] else selected in
  let selected :=
    if target_given targets "usernames"
    then update selected ["Sherlock"; "Twint"] else selected in
  if target_given targets "phones"
  then update selected ["Skiptracer"] else selected.

Section Selector.
(** [str.lower]. *)
Variable str_lower : string → string.

(** [for keyword, modules in keyword_map.items():
       if keyword in lowered: selected.update(modules)]. *)
Definition scan_keywords (lowered : string) (selected : gset string)
  : gset string :=
  foldl (λ selected entry,
           if str_contains entry.1 lowered then update selected entry.2
           else selected)
        selected keyword_map.

(** The loop over the objectives, lines 276-280. *)
Definition scan_objectives (objectives : list string) (selected : gset string)
  : gset string :=
  foldl (λ selected objective, scan_keywords (str_lower objective) selected)
        selected objectives.

(** [_select_modules], lines 249-296. *)
Definition _select_modules (objectives : list string)
    (targets : list (string * list value)) : list string :=
  let selected := scan_objectives objectives ∅ in
  let selected := scan_targets targets selected in
  let selected :=
    if decide (selected = ∅)
    then update selected ["theHarvester"; "Sherlock"; "Twint"]
    else selected in
  _order_modules (elements selected).

End Selector.

(** [list(v)]: the items of a list, the keys of a dict, the characters of
    a string (its bytes here, the same for ASCII text). *)
Definition py_list (v : value) : Exn + list value :=
  match v with
  | VList l => inr l
  | VDict d => inr (VStr <$> d.*1)
  | VStr s => inr ((λ c, VStr (String c EmptyString)) <$> list_ascii_of_string s)
  | VNone => inl (TypeError "'NoneType' object is not iterable")
  | VBool _ => inl (TypeError "'bool' object is not iterable")
  | VInt _ => inl (TypeError "'int' object is not iterable")
  | VFloat _ => inl (TypeError "'float' object is not iterable")
  end.

(** [list(container.get(key) or [])]. *)
Definition get_list (container : value) (key : string) : Py (list value) :=
  v ← get_or_empty container key; lift (py_list v).

(** [_extract_targets], lines 231-247.  The dict display evaluates its
    entries in the order written. *)
Definition _extract_targets : Py (list (string * list value)) :=
  identity ← profile_section "identity";
  contact ← profile_section "contact";
  digital ← profile_section "digital";
  business ← profile_section "business";
  condition ← lift (value_get identity "full_name");
  names ← (if truthy (default VNone condition)
           then full_name ← lift (value_get identity "full_name");
                mret [default VNone full_name]
           else mret []);
  aliases ← get_list identity "aliases";
  emails ← get_list contact "emails";
  phones ← get_list contact "phones";
  usernames ← get_list contact "usernames";
  domains ← get_list digital "domains";
  ips ← get_list digital "ips";
  company_names ← get_list business "company_names";
  mret [ ("names", names); ("aliases", aliases); ("emails", emails);
         ("phones", phones); ("usernames", usernames); ("domains", domains);
         ("ips", ips); ("company_names", company_names) ].

End Selector.

(** Vocabulary for the properties of the selection. *)
Module SelectorSpec.
Import Engine Orchestrator Selector.

(** The target rules of lines 282-291: the key tested and the modules
    added. *)
Definition target_rules : list (string * list string) :=
  [ ("emails", ["theHarvester"; "GHunt"]);
    ("domains", ["theHarvester"; "Photon"; "Recon-ng"; "SpiderFoot"]);
    ("ips", ["SpiderFoot"]);
    ("usernames", ["Sherlock"; "Twint"]);
    ("phones", ["Skiptracer"]) ].

(** The fallback of line 294. *)
Definition fallback_modules : list string := ["theHarvester"; "Sherlock"; "Twint"].

Section Selector.
Variable str_lower : string → string.

(** A keyword of [keyword_map] that lists [m] occurs in a lower-cased
    objective. *)
Definition keyword_fires (objectives : list string) (m : string) : Prop :=
  ∃ objective keyword modules,
    objective ∈ objectives ∧ (keyword, modules) ∈ keyword_map ∧
    str_contains keyword (str_lower objective) = true ∧ m ∈ modules.

(** A target rule that lists [m] finds its target list non-empty. *)
Definition target_fires (targets : list (string * list value)) (m : string)
  : Prop :=
  ∃ key modules,
    (key, modules) ∈ target_rules ∧ target_given targets key = true ∧
    m ∈ modules.

Definition rule_fires (objectives : list string)
    (targets : list (string * list value)) (m : string) : Prop :=
  keyword_fires objectives m ∨ target_fires targets m.

End Selector.

(** A section of the profile is absent or a mapping whose listed fields are
    absent, [None] or lists. *)
Definition list_fields (profile : list (string * value)) (section : string)
    (keys : list string) : Prop :=
  match assoc_get section profile with
  | None => True
  | Some (VDict d) =>
      ∀ key, key ∈ keys →
        match assoc_get key d with
        | None | Some VNone | Some (VList _) => True
        | Some _ => False
        end
  | Some _ => False
  end.

(** The shape of profile [_extract_targets] is written for. *)
Definition target_sections_well_formed (profile : list (string * value)) : Prop :=
  match assoc_get "identity" profile with
  | None | Some (VDict _) => True
  | Some _ => False
  end ∧
  list_fields profile "identity" ["aliases"] ∧
  list_fields profile "contact" ["emails"; "phones"; "usernames"] ∧
  list_fields profile "digital" ["domains"; "ips"] ∧
  list_fields profile "business" ["company_names"].

End SelectorSpec.

(** Inputs for the selection. *)
Module SelectorExample.
Import Engine Orchestrator Selector.

(** ASCII lower-casing. *)
Definition ascii_lower (c : ascii) : ascii :=
  let n := nat_of_ascii c in
  if ((65 <=? n) && (n <=? 90))%nat then ascii_of_nat (n + 32) else c.

Fixpoint toy_lower (s : string) : string :=
  match s with
  | EmptyString => EmptyString
  | String c rest => String (ascii_lower c) (toy_lower rest)
  end.

Definition phone_targets : list (string * list value) :=
  [ ("names", []); ("emails", []); ("phones", [VStr "+61 400 000 000"]) ].

Definition domain_world : World :=
  {| w_profile :=
       [("identity", VDict [("full_name", VStr "Jane Doe")]);
        ("digital", VDict [("domains", VList [VStr "example.com"])])];
     w_log := [] |}.

End SelectorExample.

(** What [_extract_targets] is to find in a well-formed profile. *)
Module TargetSpec.
Import Engine.

(** The list stored under [section.key], or [[]]. *)
Definition field_list (profile : list (string * value)) (section key : string)
  : list value :=
  match assoc_get section profile with
  | Some (VDict d) =>
      match assoc_get key d with
      | Some (VList l) => l
      | _ => []
      end
  | _ => []
  end.

(** [identity.full_name] as a one-element list when it is truthy. *)
Definition full_names (profile : list (string * value)) : list value :=
  match assoc_get "identity" profile with
  | Some (VDict d) =>
      match assoc_get "full_name" d with
      | Some v => if truthy v then [v] else []
      | None => []
      end
  | _ => []
  end.

Definition targets_of (profile : list (string * value))
  : list (string * list value) :=
  [ ("names", full_names profile);
    ("aliases", field_list profile "identity" "aliases");
    ("emails", field_list profile "contact" "emails");
    ("phones", field_list profile "contact" "phones");
    ("usernames", field_list profile "contact" "usernames");
    ("domains", field_list profile "digital" "domains");
    ("ips", field_list profile "digital" "ips");
    ("company_names", field_list profile "business" "company_names") ].

End TargetSpec.

(** ** Objective extraction of the orchestrator *)

Module Objectives.
Import Engine Selector.

(** [name.split(":", 1)[1]]: the text after the first colon; [None] when
    there is no colon and the index is out of range. *)
Fixpoint after_colon (s : string) : option string :=
  match s with
  | EmptyString => None
  | String c rest => if Ascii.eqb c ":" then Some rest else after_colon rest
  end.

Section Objectives.
(** [str.lower] and [str.strip]. *)
Variable str_lower : string → string.
Variable str_strip : string → string.

(** [(v or "").strip()] for the result [v] of a [.get]. *)
Definition or_empty_strip (v : option value) : Exn + string :=
  match py_or (default VNone v) (VStr "") with
  | VStr s => inr (str_strip s)
  | VNone => inl (AttributeError "'NoneType' object has no attribute 'strip'")
  | VBool _ => inl (AttributeError "'bool' object has no attribute 'strip'")
  | VInt _ => inl (AttributeError "'int' object has no attribute 'strip'")
  | VFloat _ => inl (AttributeError "'float' object has no attribute 'strip'")
  | VList _ => inl (AttributeError "'list' object has no attribute 'strip'")
  | VDict _ => inl (AttributeError "'dict' object has no attribute 'strip'")
  end.

(** The body of [for doc in documents], lines 218-226. *)
Definition objective_step (objectives : list string) (doc : value)
  : Py (list string) :=
  name_value ← lift (value_get doc "name");
  name ← lift (or_empty_strip name_value);
  type_value ← lift (value_get doc "type");
  stripped ← lift (or_empty_strip type_value);
  let doc_type := str_lower stripped in
  if String.prefix "objective" doc_type || String.eqb doc_type "goal"
  then
    if String.eqb name "" then mret objectives else mret (objectives ++ [name])
  else
    let lowered := str_lower name in
    if String.prefix "objective:" lowered || String.prefix "goal:" lowered
    then
      match after_colon name with
      | None => raise (IndexError "list index out of range")
      | Some rest =>
          let tail := str_strip rest in
          mret (objectives ++ [if String.eqb tail "" then name else tail])
      end
    else mret objectives.

(** [_extract_objectives], lines 213-229. *)
Definition _extract_objectives : Py (list string) :=
  metadata ← profile_section "metadata";
  found ← get_or_empty metadata "documents";
  documents ← lift (py_list found);
  objectives ← py_fold objective_step documents [];
  match objectives with
  | [] => mret ["general_osint_collection"]
  | _ => mret objectives
  end.

End Objectives.
End Objectives.

(** Documents for the objective extraction. *)
Module ObjectivesExample.
Import Engine Selector SelectorExample.

(** No stripping: the names below carry no outer white space. *)
Definition toy_strip (s : string) : string := s.

Definition documents_world : World :=
  {| w_profile :=
       [("metadata",
         VDict [("documents",
                 VList [ VDict [("name", VStr "Map the domain footprint");
                                ("type", VStr "Objective")];
                         VDict [("name", VStr "Goal:find usernames")];
                         VDict [("name", VStr "passport.pdf");
                                ("type", VStr "scan")] ])])];
     w_log := [] |}.

End ObjectivesExample.

(** ** The module base class *)

Module ModuleBase.

Definition ValueError (msg : string) : Exn := mkExn "ValueError" msg.

(** A JSON-style schema, by the entries the validator reads: [required]
    (default [[]]) and, for each entry of [properties] (default [{}]), the
    result of [definition.get("type")], [VNone] when the definition has no
    type.  For the empty schema both are empty and the two loops do nothing,
    which is what the early [return] of line 137 does. *)
Record schema : Type := mk_schema {
  required : list string;
  properties : list (string * value)
}.

(** [_TYPE_MAPPING], lines 14-21, each class as its [isinstance] test on
    JSON-like values ([bool] is a subclass of [int]; there is no tuple). *)
Definition _TYPE_MAPPING : list (string * (value → bool)) :=
  [ ("string", λ v, match v with VStr _ => true | _ => false end);
    ("integer", λ v, match v with VInt _ | VBool _ => true | _ => false end);
    ("number",
     λ v, match v with VInt _ | VBool _ | VFloat _ => true | _ => false end);
    ("boolean", λ v, match v with VBool _ => true | _ => false end);
    ("object", λ v, match v with VDict _ => true | _ => false end);
    ("array", λ v, match v with VList _ => true | _ => false end) ].

(** The first loop of [_validate_against_schema], lines 139-144. *)
Fixpoint check_required (payload : list (string * value))
    (payload_name : string) (required_fields : list string) : Exn + unit :=
  match required_fields with
  | [] => inr tt
  | field :: rest =>
      match assoc_get field payload with
      | None =>
          inl (ValueError
                 (String.append payload_name
                    (String.append " is missing required field '"
                       (String.append field "'."))))
      | Some _ => check_required payload payload_name rest
      end
  end.

(** Lines 151-158 for one property found in the payload.  A truthy type
    that is a list or a dict cannot be looked up in [_TYPE_MAPPING]. *)
Definition check_type (payload_name field_name : string) (v : value)
    (expected_type : value) : Exn + unit :=
  if truthy expected_type
  then
    match expected_type with
    | VStr name =>
        match assoc_get name _TYPE_MAPPING with
        | Some expected_python_type =>
            if expected_python_type v then inr tt
            else
              inl (TypeError
                     (String.append payload_name
                        (String.append "."
                           (String.append field_name
                              (String.append " should be of type '"
                                 (String.append name "'."))))))
        | None => inr tt
        end
    | VList _ => inl (TypeError "unhashable type: 'list'")
    | VDict _ => inl (TypeError "unhashable type: 'dict'")
    | _ => inr tt
    end
  else inr tt.

(** The second loop, lines 146-158. *)
Fixpoint check_properties (payload : list (string * value))
    (payload_name : string) (props : list (string * value)) : Exn + unit :=
  match props with
  | [] => inr tt
  | (field_name, expected_type) :: rest =>
      match assoc_get field_name payload with
      | None => check_properties payload payload_name rest
      | Some v =>
          match check_type payload_name field_name v expected_type with
          | inl exc => inl exc
          | inr _ => check_properties payload payload_name rest
          end
      end
  end.

(** [_validate_against_schema], lines 132-158. *)
Definition _validate_against_schema (payload : list (string * value))
    (sch : schema) (payload_name : string) : Exn + unit :=
  match check_required payload payload_name (required sch) with
  | inl exc => inl exc
  | inr _ => check_properties payload payload_name (properties sch)
  end.

Section Module.
(** The attributes set by [__init__] and the two things a subclass and the
    library supply: [_execute_impl] and [json.dumps(..., default=str)]. *)
Variable module_name : string.
Variables profile_schema output_schema : schema.
Variable _execute_impl : Py value.
Variable json_dumps : value → Py string.

(** [validate_input], lines 75-90; the profile passed to [execute] is the
    shared profile dict, never [None]. *)
Definition validate_input : Py unit :=
  λ w, (w, _validate_against_schema (w_profile w) profile_schema "profile").

(** [validate_output], lines 92-114. *)
Definition validate_output (_last_result : value) : Py unit :=
  match _last_result with
  | VNone =>
      raise (ValueError "The module has not produced a result to validate yet.")
  | VDict d => lift (_validate_against_schema d output_schema "output")
  | _ =>
      raise (TypeError
               "Module results must be a dictionary to support schema validation.")
  end.

(** [log_result], lines 116-130. *)
Definition log_result (_last_result : value) : Py unit :=
  serialized ← json_dumps (VDict [("module", VStr module_name);
                                  ("result", _last_result)]);
  log "info"
      (String.append "[intel-module:"
         (String.append module_name (String.append "] " serialized))).

(** [execute], lines 46-64. *)
Definition execute : Py value :=
  validate_input;;
  _last_result ← _execute_impl;
  validate_output _last_result;;
  log_result _last_result;;
  mret _last_result.

End Module.
End ModuleBase.

(** Vocabulary for the properties of the validator. *)
Module ModuleBaseSpec.
Import ModuleBase.

(** What a value must be to pass under a given [type] entry of a schema. *)
Definition conforms (expected_type v : value) : Prop :=
  match expected_type with
  | VStr name =>
      if decide (name = "string") then ∃ s, v = VStr s
      else if decide (name = "integer")
      then (∃ z, v = VInt z) ∨ (∃ b, v = VBool b)
      else if decide (name = "number")
      then (∃ z, v = VInt z) ∨ (∃ b, v = VBool b) ∨ (∃ q, v = VFloat q)
      else if decide (name = "boolean") then ∃ b, v = VBool b
      else if decide (name = "object") then ∃ d, v = VDict d
      else if decide (name = "array") then ∃ l, v = VList l
      else True
  | VList (_ :: _) | VDict (_ :: _) => False
  | _ => True
  end.

(** The payload has every required field and every property it carries
    conforms to the type of its definition. *)
Definition valid (payload : list (string * value)) (sch : schema) : Prop :=
  (∀ field, field ∈ required sch → is_Some (assoc_get field payload)) ∧
  (∀ field_name expected_type v,
     (field_name, expected_type) ∈ properties sch →
     assoc_get field_name payload = Some v → conforms expected_type v).

End ModuleBaseSpec.

(** A schema and an implementation for the base class. *)
Module ModuleBaseExample.
Import ModuleBase.

Definition toy_profile_schema : schema :=
  mk_schema [] [("identity", VStr "object"); ("digital", VStr "object")].

Definition toy_output_schema : schema :=
  mk_schema ["digital"] [("digital", VStr "object"); ("hits", VStr "integer")].

(** An implementation that records one domain in the profile. *)
Definition toy_impl : Py value :=
  λ w, ({| w_profile := assoc_set "digital"
                          (VDict [("domains", VList [VStr "example.com"])])
                          (w_profile w);
           w_log := w_log w |},
        inr (VDict [("digital", VDict [("domains", VList [VStr "example.com"])]);
                    ("hits", VBool true)])).

Definition toy_dumps (v : value) : Py string := mret "{}".

Definition typed_world : World :=
  {| w_profile := [("identity", VDict [("full_name", VStr "Jane Doe")])];
     w_log := [] |}.

(** A profile whose identity section is a list. *)
Definition ill_typed_world : World :=
  {| w_profile := [("identity", VList [VStr "Jane Doe"])]; w_log := [] |}.

End ModuleBaseExample.

(** ** The orchestration run *)

Module Pipeline.
Import Engine Orchestrator Selector Objectives.

Definition status_name (s : status) : string :=
  match s with
  | completed => "completed"
  | failed => "failed"
  | skipped => "skipped"
  | unavailable => "unavailable"
  end.

(** The dict returned by [_run_module] as a value. *)
Definition record_value (r : record) : value :=
  VDict [ ("module", VStr (rec_module r));
          ("status", VStr (status_name (rec_status r)));
          ("summary", VStr (rec_summary r));
          ("profile_section", VStr (rec_profile_section r));
          ("output_keys", VList (VStr <$> rec_output_keys r)) ].

(** [profile[key] = v] on the shared profile. *)
Definition profile_set (key : string) (v : value) : Py unit :=
  λ w, ({| w_profile := assoc_set key v (w_profile w); w_log := w_log w |},
        inr tt).

(** The warnings [visit] sends to the logger while the order is built. *)
Definition log_cycles (cycles : list string) : Py unit :=
  py_fold (λ _ module_id,
             log "warning"
               (String.append "Detected dependency cycle for module '"
                  (String.append module_id "'.")))
          cycles tt.

Section Pipeline.
Variables PyModule ModuleClass ModuleInstance : Type.
Variable import_module : string → Py PyModule.
Variable getattr_class : PyModule → string → Py ModuleClass.
Variable construct : ModuleClass → list (string * kwarg) → Py ModuleInstance.
Variable execute : ModuleInstance → Py value.
Variable utcnow_stamp : Py string.
Variable py_repr : value → string.
Variable str_lower : string → string.
Variable str_strip : string → string.
(** [datetime.utcnow()], [t.isoformat()] and
    [(t2 - t1).total_seconds()]. *)
Variable Timestamp : Type.
Variable utcnow : Py Timestamp.
Variable isoformat : Timestamp → string.
Variable total_seconds : Timestamp → Timestamp → Q.

(** The dict [orchestration] of lines 198-208. *)
Definition orchestration_value (objectives selected_modules
    execution_order : list string) (module_results : list record)
    (started_at completed_at : Timestamp) : value :=
  VDict [ ("objectives", VList (VStr <$> objectives));
          ("selected_modules", VList (VStr <$> selected_modules));
          ("execution_order", VList (VStr <$> execution_order));
          ("module_results", VList (record_value <$> module_results));
          ("state",
           VDict [ ("started_at",
                    VStr (String.append (isoformat started_at) "Z"));
                   ("completed_at",
                    VStr (String.append (isoformat completed_at) "Z"));
                   ("duration_s",
                    VFloat (total_seconds completed_at started_at)) ]) ].

(** Lines 188-211, from the state [st] in which the resolver ended. *)
Definition run_selected (started_at : Timestamp)
    (objectives selected_modules : list string) (st : dfs_state) : Py value :=
  log_cycles (warnings st);;
  let execution_order := ordered st in
  module_results ←
    run_modules _ _ _ import_module getattr_class construct execute
                utcnow_stamp py_repr execution_order;
  completed_at ← utcnow;
  let orchestration :=
    orchestration_value objectives selected_modules execution_order
                        module_results started_at completed_at in
  profile_set "orchestration" orchestration;;
  mret (VDict [("orchestration", orchestration)]).

(** [_execute_impl], lines 182-211.  [None] stands for a resolver that
    does not come back. *)
Definition _execute_impl (w : World) : option (World * (Exn + value)) :=
  match (started_at ← utcnow;
         objectives ← _extract_objectives str_lower str_strip;
         targets ← _extract_targets;
         mret (started_at, objectives, targets)) w with
  | (w1, inl exc) => Some (w1, inl exc)
  | (w1, inr (started_at, objectives, targets)) =>
      let selected_modules := _select_modules str_lower objectives targets in
      st ← build_execution_order_state dependencies selected_modules;
      Some (run_selected started_at objectives selected_modules st w1)
  end.

End Pipeline.
End Pipeline.

(** A clock for the orchestration run. *)
Module PipelineExample.
Import Engine Pipeline.

Definition toy_clock : Py nat := mret 0.

Definition toy_isoformat (t : nat) : string := "2024-01-01T00:00:00".

Definition toy_seconds (t2 t1 : nat) : Q := 0.

End PipelineExample.

(** ** IEEE binary64 arithmetic *)

(** Python's [float] is the IEEE 754 binary64 format.  Its values and its
    correctly rounded operations are those of the Standard Library's
    [SpecFloat] at precision 53 and maximal exponent 1024. *)
Module Binary64.

Definition float : Type := SpecFloat.spec_float.

Definition prec : Z := 53.
Definition emax : Z := 1024.

(** [float(z)] for an [int] [z]: the nearest double, ties to even. *)
Definition of_int (z : Z) : float :=
  SpecFloat.binary_normalize prec emax z 0 false.

Definition add : float → float → float := SpecFloat.SFadd prec emax.
Definition sub : float → float → float := SpecFloat.SFsub prec emax.
Definition mul : float → float → float := SpecFloat.SFmul prec emax.
Definition div : float → float → float := SpecFloat.SFdiv prec emax.
Definition ltb : float → float → bool := SpecFloat.SFltb.
Definition leb : float → float → bool := SpecFloat.SFleb.

(** A decimal literal [digits / scale] of the source text, such as [0.05]
    for [5 / 100]: the double nearest to the quotient.  Both integers are
    doubles and the division rounds correctly. *)
Definition literal (digits scale : Z) : float :=
  div (of_int digits) (of_int scale).

(** The rational number a finite double stands for. *)
Definition exact (x : float) : Q :=
  match x with
  | SpecFloat.S754_finite s m e =>
      let magnitude :=
        match e with
        | Z0 => inject_Z (Zpos m)
        | Zpos p => inject_Z (Zpos m * 2 ^ Zpos p)
        | Zneg p => Qmake (Zpos m) (2 ^ p)
        end in
      if s then Qopp magnitude else magnitude
  | _ => 0%Q
  end.

(** [max(a, b)] on two floats: the first argument unless the second is
    larger. *)
Definition py_max (a b : float) : float := if ltb a b then b else a.

(** An integer as a significand with exponent 0, of any width. *)
Definition wide (k : Z) : float :=
  match k with
  | Z0 => SpecFloat.S754_zero false
  | Zpos p => SpecFloat.S754_finite false p 0
  | Zneg p => SpecFloat.S754_finite true p 0
  end.

(** [round(x, 2)] on a float: the value of [x] is rounded to two decimals,
    an exact tie going to the even neighbour, and the double nearest to the
    result is returned; infinities and NaN are returned as they are. *)
Definition py_round2 (x : float) : float :=
  match x with
  | SpecFloat.S754_finite s _ _ =>
      match Planner.round_half_even (exact x * 100) with
      | Z0 => SpecFloat.S754_zero s
      | hundredths => div (wide hundredths) (of_int 100)
      end
  | _ => x
  end.

End Binary64.

(** ** The gap analyzer and the suggestion engine in double precision *)

(** [analyze_gaps] and [suggest_modules] once more, with the arithmetic of
    lines 86-87 and 119-133 carried out in binary64 as the interpreter
    does, for the properties that depend on the value of a completeness or
    of a score.  What does not involve floats is shared with [Planner].
    An [int] enters a float operation through [float(.)], which is exact
    below 2^53; the lengths of lists are far below that. *)
Module Planner64.
Import Binary64.

Record gap_entry : Type := mk_gap {
  missing_fields : list string;
  completeness : float
}.

Record suggestion : Type := mk_suggestion {
  module_name : string;
  score : float
}.

(** Lines 86-87: [max(0.0, 1.0 - (len(missing_fields) / denominator))]. *)
Definition completeness_of (missing_fields required_fields : list string)
  : float :=
  let denominator := Nat.max 1 (length required_fields) in
  py_max (of_int 0)
         (sub (of_int 1)
              (div (of_int (Z.of_nat (length missing_fields)))
                   (of_int (Z.of_nat denominator)))).

(** [missing_ratio = 1.0 - details["completeness"]]. *)
Definition missing_ratio (details : gap_entry) : float :=
  sub (of_int 1) (completeness details).

(** [priority_multiplier = max(0.5, 1.0 - (rank * 0.1))]. *)
Definition priority_multiplier (rank : nat) : float :=
  py_max (literal 5 10)
         (sub (of_int 1) (mul (of_int (Z.of_nat rank)) (literal 1 10))).

(** [field_pressure = 1 + len(details["missing_fields"]) * 0.05]. *)
Definition field_pressure (details : gap_entry) : float :=
  add (of_int 1)
      (mul (of_int (Z.of_nat (length (missing_fields details))))
           (literal 5 100)).

(** [base_score * priority_multiplier * field_pressure] with
    [base_score = missing_ratio * 100], multiplied from left to right. *)
Definition raw_score (details : gap_entry) (rank : nat) : float :=
  mul (mul (mul (missing_ratio details) (of_int 100)) (priority_multiplier rank))
      (field_pressure details).

(** [score = round(base_score * priority_multiplier * field_pressure, 2)]. *)
Definition suggestion_score (details : gap_entry) (rank : nat) : float :=
  py_round2 (raw_score details rank).

(** The insertion step of a stable sort by descending score. *)
Fixpoint insert_desc (x : suggestion) (l : list suggestion) : list suggestion :=
  match l with
  | [] => [x]
  | y :: l' =>
      if ltb (score x) (score y) then y :: insert_desc x l'
      else x :: y :: l'
  end.

(** [suggestions.sort(key=score, reverse=True)]. *)
Definition sort_desc (l : list suggestion) : list suggestion :=
  foldr insert_desc [] l.

Section Planner.
Variable section_requirements : list (string * list string).
Variable str_lower : string → string.

(** Body of the loop over [self.section_requirements.items()]. *)
Definition analyze_section (gaps : list (string * gap_entry))
    (item : string * list string) : Py (list (string * gap_entry)) :=
  section_payload ← profile_get item.1;
  missing ← Planner.section_missing section_payload item.2;
  mret (assoc_set item.1 (mk_gap missing (completeness_of missing item.2))
                  gaps).

(** [analyze_gaps], lines 66-93. *)
Definition analyze_gaps : Py (list (string * gap_entry)) :=
  py_fold analyze_section section_requirements [].

(** Body of the loop over [enumerate(modules)], lines 123-135. *)
Definition suggest_candidate (executed : gset string) (details : gap_entry)
    (suggestions : list suggestion) (item : nat * string) : list suggestion :=
  if decide (str_lower item.2 ∈ executed) then suggestions
  else suggestions ++ [mk_suggestion item.2 (suggestion_score details item.1)].

(** Body of the loop over [gap_summary.items()], lines 114-135. *)
Definition suggest_section (executed : gset string)
    (suggestions : list suggestion) (item : string * gap_entry)
  : list suggestion :=
  let modules := default [] (assoc_get item.1 Planner.section_modules) in
  match modules with
  | [] => suggestions
  | _ =>
      if leb (missing_ratio item.2) (of_int 0) then suggestions
      else foldl (suggest_candidate executed item.2) suggestions
                 (Planner.enumerate modules)
  end.

(** The list [suggestions] as it stands before the final sort. *)
Definition candidate_suggestions (executed : gset string)
    (gap_summary : list (string * gap_entry)) : list suggestion :=
  foldl (suggest_section executed) [] gap_summary.

(** [suggest_modules], lines 95-141. *)
Definition suggest_modules (history : option (list string))
  : Py (list suggestion) :=
  let executed := Planner.executed_set str_lower history in
  gap_summary ← analyze_gaps;
  mret (sort_desc (candidate_suggestions executed gap_summary)).

End Planner.
End Planner64.

(** Inputs for the planner in double precision. *)
Module Planner64Example.
Import Binary64 Planner64.

(** [{"Identity_DeepDive": 73.33}] and [{"Alias_Expansion": 66.0}], what
    the profile of [PlannerExample.third_world] yields. *)
Definition deep_dive64 : suggestion :=
  mk_suggestion "Identity_DeepDive" (literal 7333 100).

Definition alias_expansion64 : suggestion :=
  mk_suggestion "Alias_Expansion" (of_int 66).

(** Eight required fields of which one is present. *)
Definition eight_requirements : list (string * list string) :=
  [("identity", ["full_name"; "dob"; "aliases"; "gender"; "nationality";
                 "birthplace"; "occupation"; "photo"])].

Definition eight_world : World :=
  {| w_profile := [("identity", VDict [("full_name", VStr "Jane Doe")])];
     w_log := [] |}.

(** [{"Identity_DeepDive": 118.13}] and [{"Alias_Expansion": 106.31}]. *)
Definition eight_deep_dive : suggestion :=
  mk_suggestion "Identity_DeepDive" (literal 11813 100).

Definition eight_alias_expansion : suggestion :=
  mk_suggestion "Alias_Expansion" (literal 10631 100).

End Planner64Example.

(** Vocabulary for the planner in double precision. *)
Module Planner64Spec.
Import Binary64 Planner64.

Section Suggest.
Variable str_lower : string → string.

(** Where a suggestion comes from: candidate number [rank] of [section],
    whose gap entry is [details] with a positive missing ratio, not
    executed before. *)
Definition emitted (executed : gset string) (gaps : list (string * gap_entry))
    (section : string) (details : gap_entry) (rank : nat) (s : suggestion)
  : Prop :=
  (section, details) ∈ gaps ∧
  (PlannerSpec.candidates_of section) !! rank = Some (module_name s) ∧
  leb (missing_ratio details) (of_int 0) = false ∧
  (str_lower (module_name s) ∉ executed) ∧
  score s = suggestion_score details rank.

End Suggest.
End Planner64Spec.

(** * Properties of the dependency resolver *)

Section ForEach.
Context {A S : Type} (body : A → S → option S).

Lemma for_each_none (l : list A) :
  foldl (λ acc x, acc ≫= body x) None l = None.
Proof. induction l as [|x l IH]; simpl; auto. Qed.

Lemma for_each_cons (x : A) (l : list A) (st : S) :
  for_each body (x :: l) st = body x st ≫= for_each body l.
Proof.
  unfold for_each. simpl. destruct (body x st) as [st'|]; simpl; auto.
  apply for_each_none.
Qed.

Lemma for_each_nil (st : S) : for_each body [] st = Some st.
Proof. reflexivity. Qed.
End ForEach.

Lemma for_each_ext {A S : Type} (f g : A → S → option S) (l : list A) (st : S) :
  (∀ x s, x ∈ l → f x s = g x s) → for_each f l st = for_each g l st.
Proof.
  revert st. induction l as [|x l IH]; intros st Hfg; [reflexivity|].
  rewrite !for_each_cons, (Hfg x st) by left.
  destruct (g x st) as [st'|]; simpl; [|reflexivity].
  apply IH. intros y s Hy. apply Hfg. by right.
Qed.

Module OrderModulesFacts.
Import Orchestrator ResolverSpec.

Lemma order_step_inv (start acc : list string * gset string) (name : string) :
  order_inv start acc → order_inv start (order_step acc name).
Proof.
  intros (Hnd & Hdisj & Hsame). unfold order_step, order_inv.
  destruct acc as [o r]; cbn [fst snd] in *.
  destruct (decide (name ∈ r)) as [Hin|Hnin]; cbn [fst snd]; [|done].
  split_and!.
  - apply NoDup_app. split_and!; [done| |apply NoDup_singleton].
    intros x Hx Hx'. apply list_elem_of_singleton in Hx'. subst.
    by apply (Hdisj name).
  - intros x Hx. apply elem_of_app in Hx as [Hx|Hx].
    + rewrite elem_of_difference. intros [Hr _]. by apply (Hdisj x).
    + rewrite elem_of_difference, elem_of_singleton.
      apply list_elem_of_singleton in Hx. tauto.
  - intros x. rewrite <- Hsame.
    rewrite elem_of_app, list_elem_of_singleton, elem_of_difference,
      elem_of_singleton.
    destruct (decide (x = name)); subst; tauto.
Qed.

Lemma order_fold_inv (names : list string) (start acc : list string * gset string) :
  order_inv start acc → order_inv start (foldl order_step acc names).
Proof.
  revert acc. induction names as [|n names IH]; intros acc Hacc; [done|].
  cbn [foldl]. apply IH. by apply order_step_inv.
Qed.

Lemma order_inv_start (remaining : gset string) :
  order_inv ([], remaining) ([], remaining).
Proof.
  unfold order_inv; cbn [fst snd].
  split_and!; [constructor|intros x Hx; inversion Hx|done].
Qed.

(** [_order_modules] returns every element of its argument once. *)
Lemma order_modules_elem (modules : list string) (x : string) :
  x ∈ _order_modules modules ↔ x ∈ modules.
Proof.
  unfold _order_modules. cbv zeta.
  destruct (order_fold_inv MODULE_PRIORITY _ _
              (order_inv_start (list_to_set modules))) as (_ & _ & H).
  cbn [fst snd] in H. rewrite elem_of_app. unfold sorted.
  rewrite merge_sort_Permutation, elem_of_elements, H, elem_of_list_to_set.
  split; [intros [Hx|Hx]; [inversion Hx|done]|auto].
Qed.

Lemma order_modules_NoDup (modules : list string) :
  NoDup (_order_modules modules).
Proof.
  unfold _order_modules. cbv zeta.
  destruct (order_fold_inv MODULE_PRIORITY _ _
              (order_inv_start (list_to_set modules))) as (Hnd & Hdisj & _).
  apply NoDup_app. split_and!; [done| |].
  - intros x Hx. unfold sorted.
    rewrite merge_sort_Permutation, elem_of_elements. by apply Hdisj.
  - unfold sorted. rewrite merge_sort_Permutation. apply NoDup_elements.
Qed.

End OrderModulesFacts.

Module ClosureFacts.
Import Orchestrator ResolverSpec.

Section Closure.
Variable deps : gmap string (list string).

Lemma deps_get_universe (m d : string) :
  d ∈ deps_get deps m → d ∈ dep_universe deps.
Proof.
  unfold deps_get, dep_universe. destruct (deps !! m) as [ds|] eqn:Hm; simpl.
  - intros Hd. apply elem_of_union_list. exists (list_to_set ds). split.
    + apply list_elem_of_fmap. exists ds. split; [done|].
      apply list_elem_of_fmap. exists (m, ds). split; [done|].
      by apply elem_of_map_to_list.
    + by apply elem_of_list_to_set.
  - intros Hd. inversion Hd.
Qed.

Lemma closure_add_spec (acc : gset string * bool) (d : string) :
  (closure_add acc d).1 = {[d]} ∪ acc.1 ∧
  ((closure_add acc d).2 = true ↔ acc.2 = true ∨ d ∉ acc.1).
Proof.
  unfold closure_add. destruct acc as [E c]; cbn [fst snd].
  destruct (decide (d ∈ E)) as [Hin|Hnin]; cbn [fst snd].
  - split; [set_solver|tauto].
  - split; [done|tauto].
Qed.

Lemma union_ne_witness (ds : list string) (E : gset string) :
  E ≠ list_to_set ds ∪ E → ∃ d, d ∈ ds ∧ d ∉ E.
Proof.
  intros Hne. destruct (decide (Forall (λ d, d ∈ E) ds)) as [Hall|Hex].
  - exfalso. apply Hne. apply set_eq. intros x.
    rewrite elem_of_union, elem_of_list_to_set. split; [auto|].
    intros [Hx|Hx]; [|done]. by apply (proj1 (Forall_forall _ _) Hall).
  - apply not_Forall_Exists in Hex; [|intros d; apply _].
    apply Exists_exists in Hex as (d & Hd & Hnin). eauto.
Qed.

(** The inner loop over the dependencies of one module. *)
Lemma closure_inner_spec (ds : list string) (acc : gset string * bool) :
  (foldl closure_add acc ds).1 = list_to_set ds ∪ acc.1 ∧
  ((foldl closure_add acc ds).2 = true ↔
     acc.2 = true ∨ ∃ d, d ∈ ds ∧ d ∉ acc.1).
Proof.
  revert acc. induction ds as [|d ds IH]; intros acc; cbn [foldl].
  - split; [set_solver|]. split; [auto|]. intros [H|(d & Hd & _)]; [done|].
    inversion Hd.
  - destruct (IH (closure_add acc d)) as [IH1 IH2].
    destruct (closure_add_spec acc d) as [H1 H2].
    rewrite IH1, H1, IH2, H2. split; [set_solver|]. split.
    + intros [[Hc|Hd]|(d' & Hd' & Hnin)]; [by left|right; exists d; split; [left|done]|].
      right. exists d'. split; [by right|]. set_solver.
    + intros [Hc|(d' & Hd' & Hnin)]; [by left; left|].
      destruct (decide (d ∈ acc.1)) as [Hin|Hnin']; [|by left; right].
      right. exists d'. apply elem_of_cons in Hd' as [->|Hd']; [done|].
      split; [done|]. set_solver.
Qed.

(** One pass over a snapshot: the set grows by the dependencies of the
    snapshot, and [changed] is set exactly when something was added. *)
Lemma closure_pass_spec (snapshot : list string) (acc : gset string * bool) :
  let acc' := closure_pass deps snapshot acc in
  acc.1 ⊆ acc'.1 ∧
  (∀ d, d ∈ acc'.1 → d ∈ acc.1 ∨ ∃ m, m ∈ snapshot ∧ d ∈ deps_get deps m) ∧
  (∀ m d, m ∈ snapshot → d ∈ deps_get deps m → d ∈ acc'.1) ∧
  (acc'.2 = true ↔ acc.2 = true ∨ acc.1 ≠ acc'.1).
Proof.
  revert acc. unfold closure_pass.
  induction snapshot as [|m snapshot IH]; intros acc; cbn [foldl]; cbv zeta.
  - split_and!; [done|auto|intros ? ? H; inversion H|].
    split; [auto|]. by intros [?|?].
  - destruct (IH (foldl closure_add acc (deps_get deps m))) as (I1 & I2 & I3 & I4).
    destruct (closure_inner_spec (deps_get deps m) acc) as [J1 J2].
    rewrite J1 in *. split_and!.
    + set_solver.
    + intros d Hd. destruct (I2 d Hd) as [Hd'|(m' & Hm' & Hd')].
      * apply elem_of_union in Hd' as [Hd'|Hd']; [|by left].
        right. exists m. split; [left|]. by apply elem_of_list_to_set in Hd'.
      * right. exists m'. split; [by right|done].
    + intros m' d Hm' Hd. apply elem_of_cons in Hm' as [->|Hm'].
      * apply I1. apply elem_of_union. left. by apply elem_of_list_to_set.
      * by apply (I3 m').
    + rewrite I4, J2. split.
      * intros [[Hc|(d & Hd & Hnin)]|Hne]; [by left| |].
        -- right. intros Heq. apply Hnin. rewrite Heq. apply I1.
           apply elem_of_union. left. by apply elem_of_list_to_set.
        -- destruct (decide (acc.1 = list_to_set (deps_get deps m) ∪ acc.1))
             as [Heq|Hne']; [right; congruence|].
           right. intros Heq. apply Hne. apply set_eq. intros x. split; [apply I1|].
           rewrite <- Heq. set_solver.
      * intros [Hc|Hne]; [by left; left|].
        destruct (decide (acc.1 = list_to_set (deps_get deps m) ∪ acc.1))
          as [Heq|Hne']; [right; congruence|].
        left. right. by apply union_ne_witness.
Qed.

(** The [while changed] loop reaches a fixed point within the fuel given
    by the ids still missing from the set, and the fixed point is the least
    closed set above the start. *)
Lemma closure_loop_spec (fuel : nat) (E : gset string) :
  size (dep_universe deps ∖ E) < fuel →
  ∃ E', closure_loop deps fuel E = Some E' ∧ E ⊆ E' ∧ closed deps E' ∧
        (∀ C, E ⊆ C → closed deps C → E' ⊆ C).
Proof.
  revert E. induction fuel as [|fuel IH]; intros E Hfuel; [lia|].
  cbn [closure_loop]. cbv zeta.
  destruct (closure_pass_spec (elements E) (E, false)) as (P1 & P2 & P3 & P4).
  cbn [fst snd] in *.
  destruct (closure_pass deps (elements E) (E, false)) as [E1 c] eqn:Hpass.
  cbn [fst snd] in *.
  assert (Hmin : ∀ C, E ⊆ C → closed deps C → E1 ⊆ C).
  { intros C HEC HC d Hd. destruct (P2 d Hd) as [Hd'|(m & Hm & Hd')]; [auto|].
    apply (HC m d); [|done]. apply HEC. by apply elem_of_elements. }
  destruct c.
  - assert (HEne : E ≠ E1) by (destruct (proj1 P4 eq_refl); [done|auto]).
    assert (Hx : ∃ x, x ∈ E1 ∧ x ∉ E).
    { destruct (decide (Forall (λ x, x ∈ E) (elements E1))) as [Hall|Hex].
      - exfalso. apply HEne. apply set_eq. intros x. split; [apply P1|].
        intros Hx. apply (proj1 (Forall_forall _ _) Hall).
        by apply elem_of_elements.
      - apply not_Forall_Exists in Hex; [|intros d; apply _].
        apply Exists_exists in Hex as (x & Hx & Hnin).
        exists x. split; [by apply elem_of_elements|done]. }
    destruct Hx as (x & Hx1 & HxE).
    assert (HxU : x ∈ dep_universe deps).
    { destruct (P2 x Hx1) as [?|(m & _ & Hd)]; [done|].
      by apply (deps_get_universe m). }
    destruct (IH E1) as (E' & Hloop & Hsub & Hcl & Hleast).
    { assert (size (dep_universe deps ∖ E1) < size (dep_universe deps ∖ E));
        [|lia].
      apply subset_size. split.
      - intros y. rewrite !elem_of_difference. intros [Hy HyE1].
        split; [done|]. intros HyE. apply HyE1. by apply P1.
      - intros Hsub. specialize (Hsub x). rewrite !elem_of_difference in Hsub.
        destruct Hsub; auto. }
    exists E'. split_and!; [done| |done|].
    + etrans; [apply P1|done].
    + intros C HEC HC. apply Hleast; [|done]. by apply Hmin.
  - assert (HE : E = E1).
    { destruct (decide (E = E1)) as [|Hne]; [done|].
      pose proof (proj2 P4 (or_intror Hne)) as Hf. discriminate Hf. }
    subst E1. exists E. split_and!; [done|done| |by intros C HEC _].
    intros m d Hm Hd. apply (P3 m d); [|done]. by apply elem_of_elements.
Qed.

Lemma dependency_closure_spec (selected_modules : list string) :
  ∃ expanded, dependency_closure deps selected_modules = Some expanded ∧
    (∀ m, m ∈ selected_modules → m ∈ expanded) ∧ closed deps expanded ∧
    (∀ C : gset string,
       (∀ m, m ∈ selected_modules → m ∈ C) → closed deps C → expanded ⊆ C).
Proof.
  unfold dependency_closure.
  destruct (closure_loop_spec (S (size (dep_universe deps)))
              (list_to_set selected_modules)) as (E' & H1 & H2 & H3 & H4).
  - assert (size (dep_universe deps ∖ list_to_set selected_modules)
            ≤ size (dep_universe deps))%nat; [|lia].
    apply subseteq_size. set_solver.
  - exists E'. split_and!; [done| |done|].
    + intros m Hm. apply H2. by apply elem_of_list_to_set.
    + intros C HC Hcl. apply H4; [|done].
      intros m Hm. apply HC. by apply elem_of_list_to_set in Hm.
Qed.

End Closure.
End ClosureFacts.

Module VisitFacts.
Import Orchestrator ResolverSpec.

Section DFS.
Variable deps : gmap string (list string).
Variable expanded : gset string.
(** A height function on module ids, used only where the table is assumed
    acyclic: every dependency lies strictly below its dependent. *)
Variable rank : string → nat.

Lemma visit_dep_in (fuel : nat) (d : string) (st : dfs_state) :
  d ∈ expanded → visit_dep deps expanded fuel d st = visit deps expanded fuel d st.
Proof. intros Hd. unfold visit_dep. by destruct (decide (d ∈ expanded)). Qed.

Lemma visit_dep_out (fuel : nat) (d : string) (st : dfs_state) :
  d ∉ expanded → visit_dep deps expanded fuel d st = Some st.
Proof. intros Hd. unfold visit_dep. by destruct (decide (d ∈ expanded)). Qed.

(** A loop of [visit] calls over a list of ids, given the specification of
    the single call. *)
Lemma visit_loop_spec (fuel : nat) (ds : list string) (st : dfs_state) :
  visit_spec deps expanded rank fuel → wf expanded st → size (expanded ∖ visiting st) < fuel →
  ∃ st', for_each (visit_dep deps expanded fuel) ds st = Some st' ∧
    wf expanded st' ∧ visiting st' = visiting st ∧ visited st ⊆ visited st' ∧
    (∀ d, d ∈ ds → d ∈ expanded → d ∈ visiting st ∨ d ∈ visited st') ∧
    (ranked deps rank → (∀ d, d ∈ ds → above rank d st) → sched deps expanded st → sched deps expanded st').
Proof.
  intros Hspec. revert st. induction ds as [|d ds IH]; intros st Hwf Hfuel.
  - exists st. rewrite for_each_nil. split_and!; try done.
    intros d Hd. inversion Hd.
  - rewrite for_each_cons.
    destruct (decide (d ∈ expanded)) as [Hd|Hd].
    + rewrite (visit_dep_in _ _ _ Hd).
      destruct (Hspec d st Hd Hwf Hfuel) as (st1 & Hv & Hwf1 & Hving & Hsub & Hin & Hs).
      rewrite Hv. cbn [mbind option_bind].
      destruct (IH st1 Hwf1) as (st' & Hloop & Hwf' & Hving' & Hsub' & Hin' & Hs').
      { by rewrite Hving. }
      exists st'. split_and!; [done|done|congruence|set_solver| |].
      * intros d' Hd' Hexp. apply elem_of_cons in Hd' as [->|Hd'].
        -- destruct Hin as [?|?]; [by left|right; by apply Hsub'].
        -- rewrite <- Hving. by apply Hin'.
      * intros Hr Hab Hsch. apply Hs'; [done| |].
        -- intros d' Hd' v Hv'. rewrite Hving in Hv'.
           apply (Hab d'); [by right|done].
        -- apply Hs; [done| |done]. apply Hab. left.
    + rewrite (visit_dep_out _ _ _ Hd). cbn [mbind option_bind].
      destruct (IH st Hwf Hfuel) as (st' & Hloop & Hwf' & Hving' & Hsub' & Hin' & Hs').
      exists st'. split_and!; [done|done|done|done| |].
      * intros d' Hd' Hexp. apply elem_of_cons in Hd' as [->|Hd']; [done|].
        by apply Hin'.
      * intros Hr Hab Hsch. apply Hs'; [done| |done].
        intros d' Hd'. apply Hab. by right.
Qed.

Lemma wf_init : wf expanded dfs_init.
Proof.
  unfold wf, dfs_init; cbn [ordered visiting visited]. split_and!.
  - apply NoDup_nil_2.
  - intros x. split; intros Hx; [inversion Hx|by apply not_elem_of_empty in Hx].
  - intros x Hx. by apply not_elem_of_empty in Hx.
  - apply empty_subseteq.
Qed.

Lemma wf_enter (m : string) (st : dfs_state) :
  wf expanded st → m ∉ visited st → wf expanded (enter m st).
Proof.
  intros (H1 & H2 & H3 & H4) Hm. unfold wf, enter; cbn.
  split_and!; [done|done| |done].
  intros x Hx. apply elem_of_union in Hx as [Hx|Hx]; [|by apply H3].
  apply elem_of_singleton in Hx. by subst.
Qed.

Lemma wf_finalize (m : string) (st : dfs_state) :
  wf expanded st → m ∈ visiting st → m ∈ expanded → wf expanded (finalize m st).
Proof.
  intros (H1 & H2 & H3 & H4) Hm Hexp. unfold wf, finalize; cbn.
  split_and!.
  - apply NoDup_app. split_and!; [done| |apply NoDup_singleton].
    intros x Hx Hx'. apply list_elem_of_singleton in Hx'. subst.
    apply (H3 m Hm). by apply H2.
  - intros x. rewrite elem_of_app, list_elem_of_singleton, elem_of_union,
      elem_of_singleton, H2. tauto.
  - intros x. rewrite elem_of_difference, elem_of_union, !elem_of_singleton.
    intros [Hx Hne] [?|Hv]; [done|]. by apply (H3 x).
  - intros x. rewrite elem_of_union, elem_of_singleton.
    intros [->|Hx]; [done|by apply H4].
Qed.

Lemma deps_first_snoc (m : string) (st : dfs_state) :
  ranked deps rank → wf expanded st → m ∉ visited st → m ∈ expanded → sched deps expanded st →
  (∀ d, d ∈ deps_get deps m → d ∈ expanded → d ∈ visited st) →
  deps_first deps (ordered st ++ [m]).
Proof.
  intros Hr (H1 & H2 & H3 & H4) Hm Hexp [Hdone Hfirst] Hdeps i j x d Hj Hd Hi.
  apply lookup_app_Some in Hj as [Hj|[Hlen Hj]];
    apply lookup_app_Some in Hi as [Hi|[Hlen' Hi]].
  - by apply (Hfirst i j x d).
  - apply list_lookup_singleton_Some in Hi as [_ <-].
    exfalso. apply Hm. apply (Hdone x m); [|done|done].
    apply H2. by apply list_elem_of_lookup_2 in Hj.
  - apply lookup_lt_Some in Hi. lia.
  - apply list_lookup_singleton_Some in Hi as [_ <-].
    apply list_lookup_singleton_Some in Hj as [_ <-].
    specialize (Hr m m Hd). lia.
Qed.

(** Total correctness of [visit]: with fuel above the number of selected
    modules that are not on the stack, the call returns, restores the
    stack, keeps the bookkeeping invariant and, under acyclicity, the
    schedule invariant. *)
Lemma visit_total (fuel : nat) : visit_spec deps expanded rank fuel.
Proof.
  induction fuel as [|fuel IH]; intros m st Hexp Hwf Hfuel; [lia|].
  cbn [visit].
  destruct (decide (m ∈ visited st)) as [Hvis|Hvis].
  { exists st. split; [done|]. unfold visit_post. split_and!; try done. by right. }
  destruct (decide (m ∈ visiting st)) as [Hving|Hving].
  { exists (log_cycle m st). split; [done|]. unfold visit_post.
    split_and!; try done. by left. }
  destruct (visit_loop_spec fuel (deps_get deps m) (enter m st) IH)
    as (st2 & Hloop & Hwf2 & Hving2 & Hsub2 & Hin2 & Hs2).
  { by apply wf_enter. }
  { assert (size (expanded ∖ visiting (enter m st))
            < size (expanded ∖ visiting st)); [|lia].
    apply subset_size. cbn. split.
    - set_solver.
    - intros Hsub. specialize (Hsub m). set_solver. }
  unfold visit_dep in Hloop. rewrite Hloop. cbn [fmap option_fmap option_map].
  exists (finalize m st2). split; [done|].
  assert (Hm2 : m ∈ visiting st2) by (rewrite Hving2; cbn; set_solver).
  unfold visit_post. split_and!.
  - by apply wf_finalize.
  - cbn. rewrite Hving2. cbn. set_solver.
  - cbn. cbn in Hsub2. set_solver.
  - right. cbn. set_solver.
  - intros Hr Hab Hsch.
    assert (Hnv : m ∉ visited st2).
    { destruct Hwf2 as (_ & _ & H3 & _). by apply H3. }
    destruct Hs2 as [Hdone2 Hfirst2]; [done| |done|].
    { intros d Hd v Hv. cbn in Hv. apply elem_of_union in Hv as [Hv|Hv].
      - apply elem_of_singleton in Hv. subst. by apply Hr.
      - specialize (Hab v Hv). specialize (Hr m d Hd). lia. }
    assert (Hcov : ∀ d, d ∈ deps_get deps m → d ∈ expanded → d ∈ visited st2).
    { intros d Hd Hde. destruct (Hin2 d Hd Hde) as [Hv|Hv]; [|done].
      exfalso. cbn in Hv. specialize (Hr m d Hd).
      apply elem_of_union in Hv as [Hv|Hv].
      - apply elem_of_singleton in Hv. subst. lia.
      - specialize (Hab d Hv). lia. }
    split.
    + intros x d. cbn. rewrite !elem_of_union, !elem_of_singleton.
      intros [->|Hx] Hd Hde; [right; by apply Hcov|].
      right. by apply (Hdone2 x d).
    + cbn. by apply deps_first_snoc.
Qed.

End DFS.
End VisitFacts.

Module ResolverFacts.
Import Orchestrator ResolverSpec OrderModulesFacts ClosureFacts VisitFacts.

Lemma NoDup_occurs_once (m : string) (l : list string) :
  NoDup l → m ∈ l → occurs_once m l.
Proof.
  intros Hnd Hm. apply list_elem_of_lookup in Hm as [i Hi].
  exists i. split; [done|]. intros j Hj. by apply (NoDup_lookup l j i m).
Qed.

Lemma dependencies_ranked : ranked dependencies static_rank.
Proof.
  assert (H : map_Forall
                (λ m ds, Forall (λ d, static_rank d < static_rank m) ds)
                dependencies).
  { apply (bool_decide_unpack _). vm_compute. exact I. }
  intros m d. unfold deps_get.
  destruct (dependencies !! m) as [ds|] eqn:Hm; cbn.
  - intros Hd. specialize (H m ds Hm). cbn in H.
    by apply (proj1 (Forall_forall _ _) H).
  - intros Hd. inversion Hd.
Qed.

(** The resolver run on any table: it returns, and the traversal ends with
    an empty stack, every module of the closure finalized once, and (for a
    ranked table) dependencies ahead of their dependents. *)
Lemma build_execution_order_state_spec
    (deps : gmap string (list string)) (rank : string → nat)
    (selected_modules : list string) :
  ∃ expanded st,
    dependency_closure deps selected_modules = Some expanded ∧
    build_execution_order_state deps selected_modules = Some st ∧
    NoDup (ordered st) ∧ (∀ m, m ∈ ordered st ↔ m ∈ expanded) ∧
    visiting st = ∅ ∧
    (ranked deps rank → deps_first deps (ordered st)).
Proof.
  destruct (dependency_closure_spec deps selected_modules)
    as (expanded & Hcl & _).
  exists expanded. unfold build_execution_order_state. rewrite Hcl.
  cbn [mbind option_bind].
  assert (Hin : ∀ x, x ∈ _order_modules (elements expanded) → x ∈ expanded).
  { intros x. rewrite order_modules_elem. apply elem_of_elements. }
  rewrite (for_each_ext _ (visit_dep deps expanded (S (size expanded)))).
  2:{ intros x s Hx. symmetry. apply visit_dep_in. by apply Hin. }
  destruct (visit_loop_spec deps expanded rank (S (size expanded))
              (_order_modules (elements expanded)) dfs_init)
    as (st & Hloop & Hwf & Hving & Hsub & Hcov & Hs).
  - apply visit_total.
  - apply wf_init.
  - cbn [visiting dfs_init].
    assert (size (expanded ∖ ∅) ≤ size expanded)%nat; [|lia].
    apply subseteq_size. intros x Hx. by apply elem_of_difference in Hx as [? _].
  - exists st. destruct Hwf as (W1 & W2 & W3 & W4).
    split_and!; [done|done|done| |by rewrite Hving|].
    + intros m. rewrite W2. split; [apply W4|].
      intros Hm. destruct (Hcov m) as [Hv|Hv]; [|done| |done].
      * apply order_modules_elem. by apply elem_of_elements.
      * cbn [visiting dfs_init] in Hv. by apply not_elem_of_empty in Hv.
    + intros Hr. apply Hs; [done| |].
      * intros d _ v Hv. cbn [visiting dfs_init] in Hv.
        by apply not_elem_of_empty in Hv.
      * split.
        -- intros x d Hx. cbn [visited dfs_init] in Hx.
           by apply not_elem_of_empty in Hx.
        -- intros i j x d Hj. cbn [ordered dfs_init] in Hj.
           by rewrite lookup_nil in Hj.
Qed.

(** C3.  For every dependency table, cyclic or not, and every selection,
    [_build_execution_order] returns: the closure loop and the depth-first
    traversal both end within their fuel, and each module of the closed set
    is at exactly one position of the output, which holds nothing else.  In
    particular two modules [a] and [b] of the closed set that depend on each
    other each occur exactly once. *)
Theorem build_execution_order_each_once
    (deps : gmap string (list string)) (selected_modules : list string) :
  ∃ expanded order,
    dependency_closure deps selected_modules = Some expanded ∧
    build_execution_order_with deps selected_modules = Some order ∧
    (∀ m, m ∈ selected_modules → m ∈ expanded) ∧
    closed deps expanded ∧
    (∀ m, m ∈ expanded → occurs_once m order) ∧
    (∀ m, m ∈ order → m ∈ expanded) ∧
    (∀ a b, b ∈ deps_get deps a → a ∈ deps_get deps b → a ∈ expanded →
            occurs_once a order ∧ occurs_once b order).
Proof.
  destruct (build_execution_order_state_spec deps (λ _, 0) selected_modules)
    as (expanded & st & Hcl & Hst & Hnd & Hin & _).
  destruct (dependency_closure_spec deps selected_modules)
    as (expanded' & Hcl' & Hsel & Hclosed & _).
  rewrite Hcl in Hcl'. injection Hcl' as <-.
  exists expanded, (ordered st). unfold build_execution_order_with.
  rewrite Hst. split_and!; [done|done|done|done| | |].
  - intros m Hm. apply NoDup_occurs_once; [done|]. by apply Hin.
  - intros m Hm. by apply Hin.
  - intros a b Hab Hba Ha. split; apply NoDup_occurs_once; try done.
    + by apply Hin.
    + apply Hin. by apply (Hclosed a b).
Qed.

(** C1.  With the static dependency table, [_build_execution_order] returns
    for every list of selected module ids, and in the sequence it returns
    every declared dependency of a module is present and stands at an
    earlier position than the module. *)
Theorem build_execution_order_dependencies_first
    (selected_modules : list string) :
  ∃ order,
    _build_execution_order selected_modules = Some order ∧
    (∀ i j m d, order !! j = Some m → d ∈ deps_get dependencies m →
                order !! i = Some d → i < j) ∧
    (∀ m d, m ∈ order → d ∈ deps_get dependencies m → d ∈ order).
Proof.
  destruct (build_execution_order_state_spec dependencies static_rank
              selected_modules)
    as (expanded & st & Hcl & Hst & Hnd & Hin & _ & Hfirst).
  destruct (dependency_closure_spec dependencies selected_modules)
    as (expanded' & Hcl' & _ & Hclosed & _).
  rewrite Hcl in Hcl'. injection Hcl' as <-.
  exists (ordered st).
  unfold _build_execution_order, build_execution_order_with. rewrite Hst.
  split_and!; [done| |].
  - apply Hfirst, dependencies_ranked.
  - intros m d Hm Hd. apply Hin. apply (Hclosed m d); [|done]. by apply Hin.
Qed.

(** The resolver on the table in which [A] and [B] depend on each other. *)
Lemma build_execution_order_each_once_witness :
  ∃ order,
    build_execution_order_with cyclic_table ["A"] = Some order ∧
    occurs_once "A" order ∧ occurs_once "B" order.
Proof.
  destruct (build_execution_order_each_once cyclic_table ["A"])
    as (expanded & order & _ & Hb & Hsel & _ & _ & _ & Hcycle).
  exists order. split; [done|].
  apply Hcycle.
  - vm_compute. apply list_elem_of_singleton. reflexivity.
  - vm_compute. apply list_elem_of_singleton. reflexivity.
  - apply Hsel. apply list_elem_of_singleton. reflexivity.
Defined.

Lemma build_execution_order_dependencies_first_witness :
  ∃ order,
    _build_execution_order ["SpiderFoot"; "Metagoofil"] = Some order ∧
    (∀ i j m d, order !! j = Some m → d ∈ deps_get dependencies m →
                order !! i = Some d → i < j).
Proof.
  destruct (build_execution_order_dependencies_first ["SpiderFoot"; "Metagoofil"])
    as (order & H1 & H2 & _).
  exists order. split; [exact H1|exact H2].
Defined.

Example build_execution_order_example :
  _build_execution_order ["SpiderFoot"; "Metagoofil"; "zzz"; "Twint"; "aaa"]
  = Some ["theHarvester"; "Recon-ng"; "SpiderFoot"; "Photon"; "Metagoofil";
          "Twint"; "aaa"; "zzz"].
Proof. vm_compute. reflexivity. Qed.

Example build_execution_order_cyclic_example :
  build_execution_order_with cyclic_table ["A"] = Some ["B"; "A"].
Proof. vm_compute. reflexivity. Qed.

End ResolverFacts.


(** * Properties of the execution engine *)

Section PyFacts.
Context {A B : Type}.

Lemma bind_returns (m : Py A) (k : A → Py B) (w w' : World) (a : A) :
  m w = (w', inr a) → (m ≫= k) w = k a w'.
Proof. intros H. unfold mbind, py_bind. by rewrite H. Qed.

Lemma bind_raises (m : Py A) (k : A → Py B) (w w' : World) (e : Exn) :
  m w = (w', inl e) → (m ≫= k) w = (w', inl e).
Proof. intros H. unfold mbind, py_bind. by rewrite H. Qed.

Lemma try_except_returns (body : Py A) (handler : Exn → Py A)
    (w w' : World) (a : A) :
  body w = (w', inr a) → try_except body handler w = (w', inr a).
Proof. intros H. unfold try_except. by rewrite H. Qed.

Lemma try_except_raises (body : Py A) (handler : Exn → Py A)
    (w w' : World) (e : Exn) :
  body w = (w', inl e) → try_except body handler w = handler e w'.
Proof. intros H. unfold try_except. by rewrite H. Qed.
End PyFacts.

Lemma py_fold_app {A B : Type} (body : B → A → Py B) (l1 l2 : list A)
    (acc : B) (w : World) :
  py_fold body (l1 ++ l2) acc w
  = (py_fold body l1 acc ≫= py_fold body l2) w.
Proof.
  revert acc w. induction l1 as [|x l1 IH]; intros acc w; cbn [app py_fold].
  - reflexivity.
  - unfold mbind, py_bind.
    destruct (body acc x w) as [w1 [e|acc1]]; [reflexivity|].
    rewrite IH. reflexivity.
Qed.

Module EngineFacts.
Import Engine EngineSpec.

Section ExecutionEngine.
Variables PyModule ModuleClass ModuleInstance : Type.
Variable import_module : string → Py PyModule.
Variable getattr_class : PyModule → string → Py ModuleClass.
Variable construct : ModuleClass → list (string * kwarg) → Py ModuleInstance.
Variable execute : ModuleInstance → Py value.
Variable utcnow_stamp : Py string.
Variable py_repr : value → string.

Abbreviation load_candidates := (load_candidates _ _ import_module getattr_class).
Abbreviation _load_module_class :=
  (_load_module_class _ _ import_module getattr_class).
Abbreviation _prepare_module_kwargs := (_prepare_module_kwargs utcnow_stamp py_repr).
Abbreviation run_loaded :=
  (run_loaded _ _ construct execute utcnow_stamp py_repr).
Abbreviation _run_module :=
  (_run_module _ _ _ import_module getattr_class construct execute
               utcnow_stamp py_repr).
Abbreviation run_modules :=
  (run_modules _ _ _ import_module getattr_class construct execute
               utcnow_stamp py_repr).
Abbreviation all_candidates_fail :=
(all_candidates_fail _ _ import_module getattr_class).
Abbreviation cannot_be_loaded :=
(cannot_be_loaded _ _ import_module getattr_class).
Abbreviation raises_in_execute :=
(raises_in_execute _ _ _ import_module getattr_class construct execute
                   utcnow_stamp py_repr).
Abbreviation append_result :=
(append_result _ _ _ import_module getattr_class construct execute
               utcnow_stamp py_repr).

Lemma load_candidates_never_raises (cs : list candidate) :
  never_raises (load_candidates cs).
Proof.
  induction cs as [|c cs IH]; intros w; cbn [Engine.load_candidates].
  - by eexists _, _.
  - unfold try_except.
    destruct ((module ← import_module (import_path c);
               module_class ← getattr_class module (class_name c);
               mret (Some (module_class, cand_profile_section c))) w)
      as [w1 [e|a]]; [apply IH|by eexists _, _].
Qed.

Lemma load_candidates_fail (cs : list candidate) (w w' : World) :
  all_candidates_fail cs w w' → load_candidates cs w = (w', inr None).
Proof.
  revert w. induction cs as [|c cs IH]; intros w; cbn.
  - by intros ->.
  - intros (w1 & Hc & Hrest). unfold try_except.
    destruct Hc as [(e & Hi)|(w2 & module & e & Hi & Hg)].
    + rewrite (bind_raises _ _ _ _ _ Hi). by apply IH.
    + rewrite (bind_returns _ _ _ _ _ Hi), (bind_raises _ _ _ _ _ Hg).
      by apply IH.
Qed.

Lemma load_module_class_never_raises (module_id : string) :
  never_raises (_load_module_class module_id).
Proof.
  intros w. unfold Engine._load_module_class. cbv zeta.
  destruct (default [] (MODULE_REGISTRY !! module_id)) as [|c cs];
    [by eexists _, _|].
  destruct (load_candidates_never_raises (c :: cs) w) as (w' & found & H).
  rewrite (bind_returns _ _ _ _ _ H).
  destruct found as [[module_class section]|]; by eexists _, _.
Qed.

(** [_run_module] always returns a record, and the record is about the
    module it was called for. *)
Lemma run_module_returns (module_id : string) (w : World) :
  ∃ w' r, _run_module module_id w = (w', inr r) ∧ rec_module r = module_id.
Proof.
  unfold Engine._run_module.
  destruct (load_module_class_never_raises module_id w)
    as (w1 & [module_class section] & Hload).
  rewrite (bind_returns _ _ _ _ _ Hload). cbn [fst snd].
  destruct module_class as [module_class|]; [|by eexists _, _].
  unfold try_except.
  destruct (run_loaded module_id module_class section w1)
    as [w2 [e|r]] eqn:Hrun.
  - eexists _, _. split; [reflexivity|done].
  - exists w2, r. split; [done|].
    revert Hrun. unfold Engine.run_loaded, mbind, py_bind, mret, py_ret.
    destruct (_prepare_module_kwargs module_id w1) as [w3 [e|prepared]];
      [done|].
    assert (Hrest :
      match construct module_class prepared.1 w3 with
      | (w', inl e) => (w', inl e)
      | (w', inr instance) =>
          match execute instance w' with
          | (w'', inl e) => (w'', inl e)
          | (w'', inr output) =>
              (w'', inr (mk_record module_id completed
                           "Module executed successfully." section
                           (output_keys output)))
          end
      end = (w2, inr r) → rec_module r = module_id).
    { destruct (construct module_class prepared.1 w3) as [w4 [e|instance]];
        [done|].
      destruct (execute instance w4) as [w5 [e|output]]; [done|].
      by intros [= _ <-]. }
    destruct prepared.2 as [skip_reason|]; [|done].
    destruct (String.eqb skip_reason ""); [done|]. by intros [= _ <-].
Qed.

(** The execution loop never raises: started with [acc] it appends one
    record per module id, in order. *)
Lemma run_loop_acc (order : list string) (acc : list record) (w : World) :
  ∃ w' rs, py_fold append_result order acc w = (w', inr (acc ++ rs)) ∧
           py_fold append_result order [] w = (w', inr rs) ∧
           rec_module <$> rs = order.
Proof.
  revert acc w. induction order as [|m order IH]; intros acc w; cbn [py_fold].
  - exists w, []. by rewrite app_nil_r.
  - destruct (run_module_returns m w) as (w1 & r & Hr & Hm).
    assert (Hstep : ∀ acc, append_result acc m w = (w1, inr (acc ++ [r]))).
    { intros acc'. unfold EngineSpec.append_result. by rewrite (bind_returns _ _ _ _ _ Hr). }
    rewrite !(bind_returns _ _ _ _ _ (Hstep _)).
    destruct (IH (acc ++ [r]) w1) as (w' & rs & H1 & H2 & H3).
    destruct (IH ([] ++ [r]) w1) as (w'' & rs' & H1' & H2' & H3').
    rewrite H2 in H2'. injection H2' as <- <-.
    exists w', (r :: rs). split_and!.
    + rewrite H1. by rewrite <- app_assoc.
    + by rewrite H1'.
    + cbn. by rewrite Hm, H3.
Qed.

Lemma run_modules_returns (order : list string) (w : World) :
  ∃ w' rs, run_modules order w = (w', inr rs) ∧ rec_module <$> rs = order.
Proof.
  destruct (run_loop_acc order [] w) as (w' & rs & _ & H & Hm).
  by exists w', rs.
Qed.

(** The run around one module: whatever record [_run_module] returned for
    [module_id], the modules after it are run from the state it left and
    each contributes its own record. *)
Lemma run_modules_continue (pre post : list string) (module_id : string)
    (w0 w w1 : World) (rs_pre : list record) (r : record) :
  run_modules pre w0 = (w, inr rs_pre) →
  _run_module module_id w = (w1, inr r) →
  ∃ w2 rs_post,
    run_modules post w1 = (w2, inr rs_post) ∧
    rec_module <$> rs_post = post ∧
    run_modules (pre ++ module_id :: post) w0
      = (w2, inr (rs_pre ++ r :: rs_post)).
Proof.
  unfold Engine.run_modules. fold append_result. intros Hpre Hr.
  rewrite py_fold_app, (bind_returns _ _ _ _ _ Hpre). cbn [py_fold].
  assert (Hstep : append_result rs_pre module_id w = (w1, inr (rs_pre ++ [r]))).
  { unfold EngineSpec.append_result. by rewrite (bind_returns _ _ _ _ _ Hr). }
  rewrite (bind_returns _ _ _ _ _ Hstep).
  destruct (run_loop_acc post (rs_pre ++ [r]) w1) as (w2 & rs & H1 & H2 & H3).
  exists w2, rs. split_and!; [done|done|].
  rewrite H1. by rewrite <- app_assoc.
Qed.

(** C2.  If [execute] of a module raises an exception, [_run_module]
    returns (it does not raise) a record with status [failed] whose summary
    is the message of the exception, and the execution loop goes on: every
    later module of the order is run, from the state the failed module
    left, and yields its own record. *)
Theorem run_module_execute_failure_recorded
    (pre post : list string) (module_id : string) (exc : Exn)
    (w0 w w_exc : World) (rs_pre : list record) :
  run_modules pre w0 = (w, inr rs_pre) →
  raises_in_execute module_id exc w w_exc →
  ∃ w1 w2 r rs_post,
    _run_module module_id w = (w1, inr r) ∧
    rec_module r = module_id ∧
    rec_status r = failed ∧
    rec_summary r = exn_message exc ∧
    w_profile w1 = w_profile w_exc ∧
    run_modules post w1 = (w2, inr rs_post) ∧
    rec_module <$> rs_post = post ∧
    run_modules (pre ++ module_id :: post) w0
      = (w2, inr (rs_pre ++ r :: rs_post)).
Proof.
  intros Hpre (module_class & section & kwargs & instance & w1 & w2 & w3
               & Hload & Hprep & Hcons & Hexec).
  assert (Hbody : run_loaded module_id module_class section w1
                  = (w_exc, inl exc)).
  { unfold Engine.run_loaded.
    rewrite (bind_returns _ _ _ _ _ Hprep). cbn [fst snd].
    by rewrite (bind_returns _ _ _ _ _ Hcons), (bind_raises _ _ _ _ _ Hexec). }
  pose (r := mk_record module_id failed (exn_message exc) section []).
  pose (w4 := {| w_profile := w_profile w_exc;
                 w_log := w_log w_exc ++
                   [("error",
                     String.append "Module '"
                       (String.append module_id
                          (String.append "' failed: " (exn_message exc))))] |}).
  assert (Hrun : _run_module module_id w = (w4, inr r)).
  { unfold Engine._run_module.
    rewrite (bind_returns _ _ _ _ _ Hload). cbn [fst snd].
    by rewrite (try_except_raises _ _ _ _ _ Hbody). }
  destruct (run_modules_continue pre post module_id w0 w w4 rs_pre r Hpre Hrun)
    as (w5 & rs_post & Hpost & Hmods & Hall).
  by exists w4, w5, r, rs_post.
Qed.

(** C4.  If the implementation of a module cannot be located or loaded
    (no registry entry, or every registered candidate fails to import or
    to resolve), [_run_module] returns (it does not raise) a record with
    status [unavailable], and the execution loop goes on with the modules
    after it. *)
Theorem run_module_unavailable_continues
    (pre post : list string) (module_id : string)
    (w0 w w1 : World) (rs_pre : list record) :
  run_modules pre w0 = (w, inr rs_pre) →
  cannot_be_loaded module_id w w1 →
  ∃ w2 r rs_post,
    _run_module module_id w = (w1, inr r) ∧
    rec_module r = module_id ∧
    rec_status r = unavailable ∧
    run_modules post w1 = (w2, inr rs_post) ∧
    rec_module <$> rs_post = post ∧
    run_modules (pre ++ module_id :: post) w0
      = (w2, inr (rs_pre ++ r :: rs_post)).
Proof.
  intros Hpre Hno.
  assert (Hload : ∃ section,
             _load_module_class module_id w = (w1, inr (None, section))).
  { unfold Engine._load_module_class. cbv zeta.
    destruct Hno as [[Hreg ->]|(cs & Hreg & Hfail)]; rewrite Hreg; cbn [from_option id].
    - by eexists.
    - destruct cs as [|c cs]; [cbn in Hfail; subst; by eexists|].
      cbv beta iota. rewrite (bind_returns _ _ _ _ _ (load_candidates_fail _ _ _ Hfail)).
      by eexists. }
  destruct Hload as [section Hload].
  pose (r := mk_record module_id unavailable
               "Module implementation not found." section []).
  assert (Hrun : _run_module module_id w = (w1, inr r)).
  { unfold Engine._run_module. by rewrite (bind_returns _ _ _ _ _ Hload). }
  destruct (run_modules_continue pre post module_id w0 w w1 rs_pre r Hpre Hrun)
    as (w2 & rs_post & Hpost & Hmods & Hall).
  by exists w2, r, rs_post.
Qed.

End ExecutionEngine.
End EngineFacts.

(** * Properties of the gap analyzer *)

Lemma read_only_mret {A : Type} (a : A) : read_only (mret a : Py A).
Proof. intros w. reflexivity. Qed.

Lemma read_only_lift {A : Type} (r : Exn + A) : read_only (lift r).
Proof. intros w. reflexivity. Qed.

Lemma read_only_profile_get (key : string) : read_only (profile_get key).
Proof. intros w. reflexivity. Qed.

Lemma read_only_bind {A B : Type} (m : Py A) (k : A → Py B) :
  read_only m → (∀ a, read_only (k a)) → read_only (m ≫= k).
Proof.
  intros Hm Hk w. unfold mbind, py_bind. specialize (Hm w).
  destruct (m w) as [w1 [e|a]]; cbn in *; subst; [done|]. apply Hk.
Qed.

Lemma read_only_py_fold {A B : Type} (body : B → A → Py B) (l : list A) (acc : B) :
  (∀ acc x, read_only (body acc x)) → read_only (py_fold body l acc).
Proof.
  intros Hbody. revert acc. induction l as [|x l IH]; intros acc; cbn [py_fold].
  - apply read_only_mret.
  - apply read_only_bind; [apply Hbody|apply IH].
Qed.

Section AssocFacts.
Context {V : Type}.

Lemma assoc_get_set_eq (k : string) (v : V) (d : list (string * V)) :
  assoc_get k (assoc_set k v d) = Some v.
Proof.
  induction d as [|[k' v'] d IH]; cbn.
  - by rewrite decide_True.
  - destruct (decide (k = k')) as [->|Hne]; cbn.
    + by rewrite decide_True.
    + by rewrite decide_False.
Qed.

Lemma assoc_get_set_ne (k k0 : string) (v : V) (d : list (string * V)) :
  k0 ≠ k → assoc_get k0 (assoc_set k v d) = assoc_get k0 d.
Proof.
  intros Hne. induction d as [|[k' v'] d IH]; cbn.
  - by rewrite decide_False.
  - destruct (decide (k = k')) as [->|Hne']; cbn.
    + by rewrite !decide_False.
    + destruct (decide (k0 = k')); [done|apply IH].
Qed.

Lemma assoc_set_keys (k k0 : string) (v : V) (d : list (string * V)) :
  k0 ∈ (assoc_set k v d).*1 ↔ k0 = k ∨ k0 ∈ d.*1.
Proof.
  induction d as [|[k' v'] d IH]; cbn.
  - rewrite list_elem_of_singleton. split; [auto|]. intros [?|H]; [done|inversion H].
  - destruct (decide (k = k')) as [->|Hne]; cbn.
    + rewrite !elem_of_cons. tauto.
    + rewrite !elem_of_cons, IH. tauto.
Qed.

Lemma assoc_set_NoDup (k : string) (v : V) (d : list (string * V)) :
  NoDup d.*1 → NoDup (assoc_set k v d).*1.
Proof.
  induction d as [|[k' v'] d IH]; cbn; intros Hnd.
  - apply NoDup_singleton.
  - apply NoDup_cons in Hnd as [Hnin Hnd].
    destruct (decide (k = k')) as [->|Hne]; cbn.
    + by apply NoDup_cons.
    + apply NoDup_cons. split; [|by apply IH].
      rewrite assoc_set_keys. intros [?|?]; [congruence|done].
Qed.


Lemma assoc_elem_get (k : string) (v : V) (d : list (string * V)) :
  NoDup d.*1 → (k, v) ∈ d → assoc_get k d = Some v.
Proof.
  induction d as [|[k' v'] d IH]; cbn; intros Hnd Hin; [inversion Hin|].
  apply NoDup_cons in Hnd as [Hnin Hnd].
  apply elem_of_cons in Hin as [[= -> ->]|Hin].
  - by rewrite decide_True.
  - rewrite decide_False; [by apply IH|].
    intros ->. apply Hnin. apply list_elem_of_fmap. by exists (k', v).
Qed.
End AssocFacts.

Module GapFacts.
Import Planner PlannerSpec PlannerExample.

Lemma is_blank_no_information (field : option value) :
  is_blank (default VNone field) = true ↔ no_information field.
Proof.
  unfold no_information. destruct field as [v|]; cbn.
  - destruct v as [|b|z|q|s|l|d]; cbn.
    + naive_solver.
    + naive_solver.
    + naive_solver.
    + naive_solver.
    + destruct s; cbn; naive_solver.
    + destruct l; naive_solver.
    + destruct d; naive_solver.
  - naive_solver.
Qed.

(** The inner loop on a mapping: the blank fields, in order. *)
Lemma check_fields_dict (d : list (string * value)) (required : list string)
    (acc : list string) (w : World) :
  py_fold (check_field (VDict d)) required acc w
  = (w, inr (acc ++ filter (λ f, is_blank (default VNone (assoc_get f d)) = true)
                           required)).
Proof.
  revert acc. induction required as [|f required IH]; intros acc; cbn [py_fold].
  - by rewrite app_nil_r.
  - rewrite (bind_returns _ _ w w _ (eq_refl : check_field (VDict d) acc f w = _)).
    rewrite IH, filter_cons.
    destruct (is_blank (default VNone (assoc_get f d))) eqn:Hb.
    + rewrite decide_True by done. by rewrite <- app_assoc.
    + rewrite decide_False by (by intros ?). done.
Qed.

(** The inner loop on anything else raises at the first required field. *)
Lemma check_fields_not_dict (payload : value) (f : string)
    (required acc : list string) (w : World) :
  mapping_or_absent (Some payload) = false →
  ∃ msg, py_fold (check_field payload) (f :: required) acc w
         = (w, inl (AttributeError msg)).
Proof.
  intros Hp. cbn [py_fold]. unfold check_field, mbind, py_bind, lift.
  destruct payload; try discriminate Hp; cbn [value_get]; by eexists.
Qed.

Lemma section_missing_ok (payload : option value) (required : list string)
    (w : World) :
  required = [] ∨ mapping_or_absent payload = true →
  section_missing payload required w = (w, inr (missing_of payload required)).
Proof.
  intros Hok. unfold section_missing, missing_of.
  destruct payload as [v|]; [|done].
  destruct v as [|b|z|q|s|l|d]; try done;
    try (destruct Hok as [->|Hok]; [done|discriminate Hok]).
  apply check_fields_dict.
Qed.

Lemma section_missing_bad (payload : option value) (required : list string)
    (w : World) :
  required ≠ [] → mapping_or_absent payload = false →
  ∃ msg, section_missing payload required w = (w, inl (AttributeError msg)).
Proof.
  intros Hreq Hbad. destruct required as [|f required]; [done|].
  destruct payload as [v|]; [|discriminate Hbad].
  unfold section_missing.
  destruct v; try discriminate Hbad; by apply check_fields_not_dict.
Qed.

Lemma analyze_section_ok (gaps : list (string * gap_entry))
    (item : string * list string) (w : World) :
  section_ok (w_profile w) item →
  analyze_section gaps item w
  = (w, inr (assoc_set item.1 (entry_of (w_profile w) item) gaps)).
Proof.
  intros Hok. unfold analyze_section.
  rewrite (bind_returns _ _ w w _ (eq_refl : profile_get item.1 w = _)).
  by rewrite (bind_returns _ _ _ _ _ (section_missing_ok _ _ w Hok)).
Qed.

Lemma analyze_section_bad (gaps : list (string * gap_entry))
    (item : string * list string) (w : World) :
  ¬ section_ok (w_profile w) item →
  ∃ msg, analyze_section gaps item w = (w, inl (AttributeError msg)).
Proof.
  intros Hbad. unfold analyze_section.
  rewrite (bind_returns _ _ w w _ (eq_refl : profile_get item.1 w = _)).
  destruct (section_missing_bad (assoc_get item.1 (w_profile w)) item.2 w)
    as [msg Hmsg].
  - intros Hnil. apply Hbad. by left.
  - destruct (mapping_or_absent (assoc_get item.1 (w_profile w))) eqn:Hm;
      [|done]. exfalso. apply Hbad. by right.
  - exists msg. by rewrite (bind_raises _ _ _ _ _ Hmsg).
Qed.

(** [analyze_gaps] returns the pure gap summary when every item is
    analysable... *)
Lemma analyze_fold_ok (reqs : list (string * list string))
    (gaps : list (string * gap_entry)) (w : World) :
  Forall (section_ok (w_profile w)) reqs →
  py_fold analyze_section reqs gaps w
  = (w, inr (gaps_of (w_profile w) reqs gaps)).
Proof.
  revert gaps. induction reqs as [|item reqs IH]; intros gaps Hall; [done|].
  apply Forall_cons in Hall as [Hitem Hall]. cbn [py_fold].
  rewrite (bind_returns _ _ _ _ _ (analyze_section_ok gaps item w Hitem)).
  by rewrite IH.
Qed.

(** ... and raises [AttributeError] otherwise. *)
Lemma analyze_fold_bad (reqs : list (string * list string))
    (gaps : list (string * gap_entry)) (w : World) :
  ¬ Forall (section_ok (w_profile w)) reqs →
  ∃ msg, py_fold analyze_section reqs gaps w = (w, inl (AttributeError msg)).
Proof.
  revert gaps. induction reqs as [|item reqs IH]; intros gaps Hbad.
  - exfalso. apply Hbad. constructor.
  - cbn [py_fold]. destruct (decide (section_ok (w_profile w) item)) as [Hok|Hno].
    + rewrite (bind_returns _ _ _ _ _ (analyze_section_ok gaps item w Hok)).
      apply IH. intros Hall. apply Hbad. by constructor.
    + destruct (analyze_section_bad gaps item w Hno) as [msg Hmsg].
      exists msg. by rewrite (bind_raises _ _ _ _ _ Hmsg).
Qed.

Lemma gaps_of_keys (profile : list (string * value))
    (reqs : list (string * list string)) (gaps : list (string * gap_entry))
    (k : string) :
  k ∈ (gaps_of profile reqs gaps).*1 ↔ k ∈ gaps.*1 ∨ k ∈ reqs.*1.
Proof.
  revert gaps. induction reqs as [|item reqs IH]; intros gaps; cbn.
  - split; [auto|]. intros [?|H]; [done|inversion H].
  - unfold gaps_of in IH. rewrite IH, assoc_set_keys, elem_of_cons. tauto.
Qed.

Lemma gaps_of_NoDup (profile : list (string * value))
    (reqs : list (string * list string)) (gaps : list (string * gap_entry)) :
  NoDup gaps.*1 → NoDup (gaps_of profile reqs gaps).*1.
Proof.
  revert gaps. induction reqs as [|item reqs IH]; intros gaps Hnd; [done|].
  cbn. apply IH. by apply assoc_set_NoDup.
Qed.

Lemma gaps_of_lookup_other (profile : list (string * value))
    (reqs : list (string * list string)) (gaps : list (string * gap_entry))
    (k : string) :
  k ∉ reqs.*1 → assoc_get k (gaps_of profile reqs gaps) = assoc_get k gaps.
Proof.
  revert gaps. induction reqs as [|item reqs IH]; intros gaps Hk; [done|].
  cbn in *. apply not_elem_of_cons in Hk as [Hne Hk].
  unfold gaps_of in IH. rewrite IH by done. by apply assoc_get_set_ne.
Qed.

Lemma gaps_of_lookup (profile : list (string * value))
    (reqs : list (string * list string)) (gaps : list (string * gap_entry))
    (item : string * list string) :
  NoDup reqs.*1 → item ∈ reqs →
  assoc_get item.1 (gaps_of profile reqs gaps) = Some (entry_of profile item).
Proof.
  revert gaps. induction reqs as [|item' reqs IH]; intros gaps Hnd Hin;
    [inversion Hin|].
  cbn in Hnd. apply NoDup_cons in Hnd as [Hnin Hnd].
  apply elem_of_cons in Hin as [->|Hin]; cbn.
  - fold (gaps_of profile reqs (assoc_set item'.1 (entry_of profile item') gaps)).
    rewrite gaps_of_lookup_other by done. apply assoc_get_set_eq.
  - by apply IH.
Qed.

(** [analyze_gaps] either returns the pure summary or raises. *)
Lemma analyze_gaps_cases (reqs : list (string * list string)) (w : World) :
  (Forall (section_ok (w_profile w)) reqs ∧
   analyze_gaps reqs w = (w, inr (gaps_of (w_profile w) reqs []))) ∨
  (¬ Forall (section_ok (w_profile w)) reqs ∧
   ∃ msg, analyze_gaps reqs w = (w, inl (AttributeError msg))).
Proof.
  unfold analyze_gaps.
  destruct (decide (Forall (section_ok (w_profile w)) reqs)) as [Hok|Hbad].
  - left. split; [done|]. by apply analyze_fold_ok.
  - right. split; [done|]. by apply analyze_fold_bad.
Qed.

Lemma analyze_gaps_returns (reqs : list (string * list string))
    (w w' : World) (gaps : list (string * gap_entry)) :
  analyze_gaps reqs w = (w', inr gaps) →
  w' = w ∧ gaps = gaps_of (w_profile w) reqs [].
Proof.
  intros H. destruct (analyze_gaps_cases reqs w) as [[_ Hok]|[_ [msg Hbad]]].
  - rewrite Hok in H. by injection H as <- <-.
  - rewrite Hbad in H. discriminate H.
Qed.

(** C5, as stated, fails: on a profile whose [identity] section is a
    sequence, [section_payload.get] raises [AttributeError] and
    [analyze_gaps] returns nothing. *)
Lemma analyze_gaps_sequence_section_raises :
  analyze_gaps identity_requirements sequence_world
  = (sequence_world, inl (AttributeError "'list' object has no attribute 'get'"))
  ∧ ¬ ∃ w' gaps,
        analyze_gaps identity_requirements sequence_world = (w', inr gaps).
Proof.
  assert (H : analyze_gaps identity_requirements sequence_world
              = (sequence_world,
                 inl (AttributeError "'list' object has no attribute 'get'")))
    by (vm_compute; reflexivity).
  split; [exact H|]. intros (w' & gaps & Hg). rewrite H in Hg. discriminate Hg.
Qed.

(** C5, amended.  On every profile in which each section that has required
    fields is absent, [None] or a mapping, [analyze_gaps] returns without
    raising and without changing the state, and the result has exactly one
    entry per section of the requirement index. *)
Theorem analyze_gaps_total_on_mappings
    (reqs : list (string * list string)) (w : World) :
  (∀ section required payload,
     (section, required) ∈ reqs → required ≠ [] →
     assoc_get section (w_profile w) = Some payload →
     payload = VNone ∨ ∃ d, payload = VDict d) →
  ∃ gaps, analyze_gaps reqs w = (w, inr gaps) ∧
          NoDup gaps.*1 ∧ ∀ s, s ∈ gaps.*1 ↔ s ∈ reqs.*1.
Proof.
  intros Hmap.
  assert (Hall : Forall (section_ok (w_profile w)) reqs).
  { apply Forall_forall. intros [section required] Hin. unfold section_ok.
    cbn [fst snd]. destruct required as [|f required]; [by left|right].
    destruct (assoc_get section (w_profile w)) as [payload|] eqn:Hp; [|done].
    destruct (Hmap section (f :: required) payload Hin) as [->|[d ->]]; done. }
  exists (gaps_of (w_profile w) reqs []). split_and!.
  - unfold analyze_gaps. by apply analyze_fold_ok.
  - apply gaps_of_NoDup. constructor.
  - intros s. rewrite gaps_of_keys. split; [|auto].
    intros [H|H]; [inversion H|done].
Qed.

Lemma analyze_gaps_total_on_mappings_witness :
  ∃ gaps, analyze_gaps identity_requirements mapping_world
          = (mapping_world, inr gaps) ∧
          NoDup gaps.*1 ∧ ∀ s, s ∈ gaps.*1 ↔ s ∈ identity_requirements.*1.
Proof.
  apply (analyze_gaps_total_on_mappings identity_requirements mapping_world).
  intros section required payload Hin _ Hp.
  apply list_elem_of_singleton in Hin. injection Hin as -> ->.
  vm_compute in Hp. injection Hp as <-. right. by eexists.
Defined.

(** C6.  For a section that the profile holds as a mapping, a field is
    reported in [missing_fields] if and only if it is required and its value
    is absent ([None] or no key), the empty string, an empty sequence or an
    empty mapping; zero, [False] and non-empty values are not reported. *)
Theorem missing_fields_iff_no_information
    (reqs : list (string * list string)) (w w' : World)
    (gaps : list (string * gap_entry)) (section : string)
    (required : list string) (d : list (string * value)) :
  NoDup reqs.*1 →
  analyze_gaps reqs w = (w', inr gaps) →
  (section, required) ∈ reqs →
  assoc_get section (w_profile w) = Some (VDict d) →
  ∃ entry, assoc_get section gaps = Some entry ∧
    ∀ f, f ∈ missing_fields entry ↔ f ∈ required ∧ no_information (assoc_get f d).
Proof.
  intros Hnd Hrun Hin Hsec.
  apply analyze_gaps_returns in Hrun as [-> ->].
  exists (entry_of (w_profile w) (section, required)). split.
  - by apply (gaps_of_lookup _ _ _ (section, required)).
  - intros f. unfold entry_of. cbn [fst snd missing_fields]. rewrite Hsec.
    cbn [missing_of]. rewrite list_elem_of_filter, is_blank_no_information. tauto.
Qed.

Lemma fields_gaps_run :
  analyze_gaps fields_requirements fields_world = (fields_world, inr fields_gaps).
Proof.
  vm_compute. reflexivity.
Qed.

Lemma missing_fields_iff_no_information_witness :
  ∃ entry, assoc_get "identity" fields_gaps = Some entry ∧
    ∀ f, f ∈ missing_fields entry ↔
         f ∈ ["full_name"; "dob"; "aliases"; "age"; "verified"; "links"]
         ∧ no_information (assoc_get f fields_payload).
Proof.
  apply (missing_fields_iff_no_information fields_requirements
           fields_world fields_world fields_gaps "identity").
  - apply NoDup_singleton.
  - exact fields_gaps_run.
  - apply list_elem_of_singleton. reflexivity.
  - reflexivity.
Defined.

End GapFacts.

(** * Properties of the suggestion engine *)

Module SortFacts.
Import Planner PlannerSpec.

Lemma insert_desc_perm (x : suggestion) (l : list suggestion) :
  insert_desc x l ≡ₚ x :: l.
Proof.
  induction l as [|y l IH]; cbn; [done|].
  destruct (decide (score x < score y)%Qc); [|done].
  rewrite IH. apply Permutation_swap.
Qed.

Lemma sort_desc_perm (l : list suggestion) : sort_desc l ≡ₚ l.
Proof.
  induction l as [|x l IH]; cbn; [done|].
  rewrite insert_desc_perm. by rewrite IH.
Qed.





End SortFacts.

Module ScoreFacts.
Import Planner.



Lemma Q2Qc_le (a b : Q) : (a <= b)%Q → (Q2Qc a ≤ Q2Qc b)%Qc.
Proof. intros H. unfold Qcle. cbn. by rewrite !Qred_correct. Qed.






End ScoreFacts.

Module SuggestFacts.
Import Planner PlannerSpec GapFacts SortFacts.

Lemma enumerate_elem {A : Type} (l : list A) (rank : nat) (x : A) :
  (rank, x) ∈ enumerate l ↔ l !! rank = Some x.
Proof.
  unfold enumerate. rewrite elem_of_lookup_imap. split.
  - by intros (i & y & [= -> ->] & H).
  - intros H. by exists rank, x.
Qed.

Section Suggest.
Variable str_lower : string → string.

Lemma suggest_candidates_elem (executed : gset string) (details : gap_entry)
    (items : list (nat * string)) (acc : list suggestion) (s : suggestion) :
  s ∈ foldl (suggest_candidate str_lower executed details) acc items →
  s ∈ acc ∨ ∃ rank, (rank, module_name s) ∈ items ∧
                    (str_lower (module_name s) ∉ executed) ∧
                    score s = suggestion_score details rank.
Proof.
  revert acc. induction items as [|[rank name] items IH]; intros acc; cbn [foldl].
  - by left.
  - intros Hs. apply IH in Hs as [Hs|(r & Hr & Hrest)].
    + unfold suggest_candidate in Hs. cbn [fst snd] in Hs.
      destruct (decide (str_lower name ∈ executed)) as [Hex|Hex]; [by left|].
      apply elem_of_app in Hs as [Hs|Hs]; [by left|].
      apply list_elem_of_singleton in Hs. subst s. right. exists rank.
      split_and!; [left|done|done].
    + right. exists r. split; [by right|done].
Qed.

Lemma suggest_section_elem (executed : gset string) (acc : list suggestion)
    (item : string * gap_entry) (s : suggestion) :
  s ∈ suggest_section str_lower executed acc item →
  s ∈ acc ∨ ∃ rank, (candidates_of item.1) !! rank = Some (module_name s) ∧
                    (0 < missing_ratio item.2)%Qc ∧
                    (str_lower (module_name s) ∉ executed) ∧
                    score s = suggestion_score item.2 rank.
Proof.
  unfold suggest_section. cbv zeta. fold (candidates_of item.1).
  destruct (candidates_of item.1) as [|m ms] eqn:Hc; [by left|].
  destruct (decide (missing_ratio item.2 ≤ 0)%Qc) as [Hle|Hgt]; [by left|].
  intros Hs. apply suggest_candidates_elem in Hs as [Hs|(rank & Hr & Hex & Hsc)];
    [by left|].
  right. exists rank. apply enumerate_elem in Hr.
  split_and!; [done| |done|done]. by apply Qcnot_le_lt.
Qed.

Lemma candidate_suggestions_fold_elem (executed : gset string)
    (gaps : list (string * gap_entry)) (acc : list suggestion) (s : suggestion) :
  s ∈ foldl (suggest_section str_lower executed) acc gaps →
  s ∈ acc ∨ ∃ section details rank, emitted str_lower executed gaps section details rank s.
Proof.
  revert acc. induction gaps as [|[section details] gaps IH]; intros acc;
    cbn [foldl]; [by left|].
  intros Hs. apply IH in Hs as [Hs|(sec & det & rank & Hin & Hrest)].
  - apply suggest_section_elem in Hs as [Hs|(rank & H1 & H2 & H3 & H4)];
      [by left|].
    right. exists section, details, rank. split; [left|done].
  - right. exists sec, det, rank. split; [by right|done].
Qed.

(** Every suggestion in the list before the sort was emitted for some
    section and candidate rank. *)
Lemma candidate_suggestions_elem (executed : gset string)
    (gaps : list (string * gap_entry)) (s : suggestion) :
  s ∈ candidate_suggestions str_lower executed gaps →
  ∃ section details rank, emitted str_lower executed gaps section details rank s.
Proof.
  intros Hs. apply candidate_suggestions_fold_elem in Hs as [Hs|Hs]; [|done].
  inversion Hs.
Qed.

(** What a returning call of [suggest_modules] has computed. *)
Lemma suggest_modules_returns (reqs : list (string * list string))
    (history : option (list string)) (w w' : World)
    (suggestions : list suggestion) :
  suggest_modules reqs str_lower history w = (w', inr suggestions) →
  w' = w ∧
  analyze_gaps reqs w = (w, inr (gaps_of (w_profile w) reqs [])) ∧
  suggestions = sort_desc (candidate_suggestions str_lower
                             (executed_set str_lower history)
                             (gaps_of (w_profile w) reqs [])).
Proof.
  unfold suggest_modules. cbv zeta. unfold mbind, py_bind.
  destruct (analyze_gaps_cases reqs w) as [[_ Hok]|[_ [msg Hbad]]].
  - rewrite Hok. by intros [= <- <-].
  - rewrite Hbad. discriminate.
Qed.

(** C9.  No suggestion returned by [suggest_modules] names a module whose
    lower-cased name equals the lower-casing of a name in [history]. *)
Theorem suggest_modules_skips_history
    (reqs : list (string * list string)) (history : option (list string))
    (w w' : World) (suggestions : list suggestion)
    (s : suggestion) (name : string) :
  suggest_modules reqs str_lower history w = (w', inr suggestions) →
  s ∈ suggestions → name ∈ default [] history →
  str_lower (module_name s) ≠ str_lower name.
Proof.
  intros Hrun Hs Hname Heq.
  apply suggest_modules_returns in Hrun as (_ & _ & ->).
  rewrite sort_desc_perm in Hs.
  apply candidate_suggestions_elem in Hs
    as (section & details & rank & _ & _ & _ & Hex & _).
  apply Hex. unfold executed_set. apply elem_of_list_to_set.
  apply list_elem_of_fmap. by exists name.
Qed.




Lemma read_only_check_field (payload : value) (missing : list string)
    (field_name : string) :
  read_only (check_field payload missing field_name).
Proof.
  unfold check_field. apply read_only_bind; [apply read_only_lift|].
  intros v. apply read_only_mret.
Qed.

Lemma read_only_section_missing (payload : option value)
    (required : list string) :
  read_only (section_missing payload required).
Proof.
  unfold section_missing.
  destruct payload as [v|]; [|apply read_only_mret].
  destruct v; try apply read_only_mret;
    apply read_only_py_fold; intros acc f; apply read_only_check_field.
Qed.

Lemma read_only_analyze_section (gaps : list (string * gap_entry))
    (item : string * list string) :
  read_only (analyze_section gaps item).
Proof.
  unfold analyze_section.
  apply read_only_bind; [apply read_only_profile_get|]. intros payload.
  apply read_only_bind; [apply read_only_section_missing|]. intros missing.
  apply read_only_mret.
Qed.

Lemma read_only_analyze_gaps (reqs : list (string * list string)) :
  read_only (analyze_gaps reqs).
Proof.
  unfold analyze_gaps. apply read_only_py_fold. apply read_only_analyze_section.
Qed.

Lemma read_only_suggest_modules (reqs : list (string * list string))
    (history : option (list string)) :
  read_only (suggest_modules reqs str_lower history).
Proof.
  unfold suggest_modules. cbv zeta.
  apply read_only_bind; [apply read_only_analyze_gaps|]. intros gaps.
  apply read_only_mret.
Qed.

(** C10.  [analyze_gaps] and [suggest_modules] only read the profile: the
    profile, with all its nested section values, is the same after the call
    as before, whether the call returns or raises. *)
Theorem planner_leaves_profile_unchanged
    (reqs : list (string * list string)) (history : option (list string))
    (w : World) :
  w_profile (analyze_gaps reqs w).1 = w_profile w ∧
  w_profile (suggest_modules reqs str_lower history w).1 = w_profile w.
Proof.
  split.
  - by rewrite read_only_analyze_gaps.
  - by rewrite read_only_suggest_modules.
Qed.

End Suggest.
End SuggestFacts.

(** * The properties at concrete inputs *)

Module EngineExampleFacts.
Import Engine EngineSpec EngineFacts EngineExample.


Lemma toy_run_pre :
  toy_run_modules ["theHarvester"] toy_world = (toy_world1, inr [harvester_record]).
Proof. vm_compute. reflexivity. Qed.

Lemma toy_sherlock_raises :
  raises_in_execute string string string toy_import toy_getattr toy_construct
    toy_execute toy_utcnow toy_repr "Sherlock" sherlock_error
    toy_world1 toy_world1.
Proof.
  exists "Research_Identity_Username_Search", "social", [("logger", KLogger)],
    "Research_Identity_Username_Search", toy_world1, toy_world1, toy_world1.
  split_and!; vm_compute; reflexivity.
Qed.

Lemma toy_ghunt_cannot_be_loaded :
  cannot_be_loaded string string toy_import toy_getattr "GHunt"
    toy_world1 toy_world1.
Proof.
  right.
  exists [ mk_candidate "intel_engine.modules.research_account_google_intel"
                        "ResearchAccountGoogleIntel" "digital" ].
  split; [vm_compute; reflexivity|].
  exists toy_world1. split; [|reflexivity].
  left. exists (mkExn "ModuleNotFoundError" "No module named 'ghunt'").
  vm_compute. reflexivity.
Qed.

(** The failing username search between two other modules. *)
Lemma run_module_execute_failure_recorded_witness :
  ∃ w1 w2 r rs_post,
    toy_run_module "Sherlock" toy_world1 = (w1, inr r) ∧
    rec_status r = failed ∧
    rec_summary r = "profile is missing required field 'identity'." ∧
    rec_module <$> rs_post = ["GHunt"; "Twint"] ∧
    toy_run_modules ["theHarvester"; "Sherlock"; "GHunt"; "Twint"] toy_world
      = (w2, inr (harvester_record :: r :: rs_post)).
Proof.
  destruct (run_module_execute_failure_recorded
              string string string toy_import toy_getattr toy_construct
              toy_execute toy_utcnow toy_repr
              ["theHarvester"] ["GHunt"; "Twint"] "Sherlock" sherlock_error
              toy_world toy_world1 toy_world1 [harvester_record]
              toy_run_pre toy_sherlock_raises)
    as (w1 & w2 & r & rs_post & H1 & _ & H3 & H4 & _ & _ & H7 & H8).
  exists w1, w2, r, rs_post. split_and!; [exact H1|exact H3|exact H4|exact H7|exact H8].
Defined.

(** The Google module, which cannot be imported, between two other
    modules. *)
Lemma run_module_unavailable_continues_witness :
  ∃ w2 r rs_post,
    toy_run_module "GHunt" toy_world1 = (toy_world1, inr r) ∧
    rec_status r = unavailable ∧
    rec_module <$> rs_post = ["Twint"] ∧
    toy_run_modules ["theHarvester"; "GHunt"; "Twint"] toy_world
      = (w2, inr (harvester_record :: r :: rs_post)).
Proof.
  destruct (run_module_unavailable_continues
              string string string toy_import toy_getattr toy_construct
              toy_execute toy_utcnow toy_repr
              ["theHarvester"] ["Twint"] "GHunt"
              toy_world toy_world1 toy_world1 [harvester_record]
              toy_run_pre toy_ghunt_cannot_be_loaded)
    as (w2 & r & rs_post & H1 & _ & H3 & _ & H5 & H6).
  exists w2, r, rs_post. split_and!; [exact H1|exact H3|exact H5|exact H6].
Defined.

End EngineExampleFacts.

(** A concrete run of the planner: the [identity] section requires three
    fields and the profile holds one of them. *)
Module PlannerExampleFacts.
Import Planner PlannerSpec PlannerExample GapFacts SortFacts SuggestFacts.

Lemma suggestion_eq (a b : suggestion) :
  module_name a = module_name b → (score a == score b)%Q → a = b.
Proof.
  destruct a as [na sa], b as [nb sb]; cbn. intros -> Hs.
  f_equal. by apply Qc_is_canon.
Qed.

Lemma third_gaps_run :
  analyze_gaps third_requirements third_world = (third_world, inr third_gaps).
Proof. vm_compute. reflexivity. Qed.


Lemma third_history_run :
  suggest_modules third_requirements lower_ascii
    (Some ["IDENTITY_DEEPDIVE"]) third_world
  = (third_world, inr [alias_expansion]).
Proof.
  unfold suggest_modules. cbv zeta.
  rewrite (bind_returns _ _ _ _ _ third_gaps_run). unfold mret, py_ret.
  do 2 f_equal.
  assert (H : ∀ l, l = [alias_expansion] ↔ ∃ a, l = [a] ∧ a = alias_expansion)
    by (intros l; split; [intros ->; by eexists|by intros (a & -> & ->)]).
  apply H. eexists. split; [vm_compute; reflexivity|].
  apply suggestion_eq; reflexivity.
Qed.


Lemma suggest_modules_skips_history_witness :
  suggest_modules third_requirements lower_ascii
    (Some ["IDENTITY_DEEPDIVE"]) third_world
  = (third_world, inr [alias_expansion]) ∧
  lower_ascii (module_name alias_expansion) ≠ lower_ascii "IDENTITY_DEEPDIVE".
Proof.
  split; [exact third_history_run|].
  apply (suggest_modules_skips_history lower_ascii third_requirements
           (Some ["IDENTITY_DEEPDIVE"]) third_world third_world
           [alias_expansion] alias_expansion "IDENTITY_DEEPDIVE").
  - exact third_history_run.
  - left.
  - left.
Defined.

End PlannerExampleFacts.

(** * Further properties of the gap analyzer *)

Module GapExtraFacts.
Import Planner PlannerSpec PlannerExample PlannerMoreExample GapFacts
  PlannerExampleFacts.

(** Linear arithmetic on canonical rationals, through their fractions. *)
Ltac qc_lra :=
  unfold Qcle, Qclt, Qcminus, Qcplus, Qcopp, Q2Qc in *; cbn [this] in *;
  rewrite ?Qred_correct in *;
  repeat match goal with
         | |- context [this ?x] =>
             let a := fresh "a" in set (a := this x) in *; clearbody a
         | H : context [this ?x] |- _ =>
             let a := fresh "a" in set (a := this x) in *; clearbody a
         end;
  lra.

Lemma assoc_set_elem {V : Type} (k k0 : string) (v v0 : V)
    (d : list (string * V)) :
  (k0, v0) ∈ assoc_set k v d → (k0, v0) = (k, v) ∨ (k0, v0) ∈ d.
Proof.
  induction d as [|[k' v'] d IH]; cbn.
  - intros H. apply list_elem_of_singleton in H. by left.
  - destruct (decide (k = k')) as [->|Hne]; rewrite !elem_of_cons; [tauto|].
    intros [H|H]; [tauto|]. apply IH in H. tauto.
Qed.

Lemma gaps_of_elem (profile : list (string * value))
    (reqs : list (string * list string)) (gaps : list (string * gap_entry))
    (section : string) (entry : gap_entry) :
  (section, entry) ∈ gaps_of profile reqs gaps →
  (section, entry) ∈ gaps ∨
  ∃ required, (section, required) ∈ reqs ∧
              entry = entry_of profile (section, required).
Proof.
  revert gaps. induction reqs as [|[s r] reqs IH]; intros gaps; cbn; [by left|].
  intros H. apply IH in H as [H|(required & Hin & ->)].
  - apply assoc_set_elem in H as [[= -> ->]|H]; [|by left].
    right. exists r. split; [left|done].
  - right. exists required. split; [by right|done].
Qed.

(** Every entry of the gap summary was computed from an item of the
    requirement index. *)
Lemma gap_entry_origin (reqs : list (string * list string)) (w w' : World)
    (gaps : list (string * gap_entry)) (section : string) (entry : gap_entry) :
  analyze_gaps reqs w = (w', inr gaps) → (section, entry) ∈ gaps →
  ∃ required, (section, required) ∈ reqs ∧
              entry = entry_of (w_profile w) (section, required).
Proof.
  intros Hrun Hin. apply analyze_gaps_returns in Hrun as [-> ->].
  apply gaps_of_elem in Hin as [Hin|Hin]; [inversion Hin|done].
Qed.

Lemma missing_of_length (payload : option value) (required : list string) :
  length (missing_of payload required) ≤ Nat.max 1 (length required).
Proof.
  unfold missing_of. destruct payload as [v|].
  - destruct v; try (cbn; lia); try (destruct required; cbn; lia).
    etrans; [apply length_filter|lia].
  - destruct required; cbn; lia.
Qed.

Lemma ratio_bounds (k n : nat) :
  k ≤ n → 1 ≤ n →
  (0 ≤ Q2Qc (Z.of_nat k # Pos.of_nat n))%Qc ∧
  (Q2Qc (Z.of_nat k # Pos.of_nat n) ≤ 1)%Qc.
Proof.
  intros Hk Hn.
  assert (Hp : Z.pos (Pos.of_nat n) = Z.of_nat n).
  { rewrite <- positive_nat_Z, Nat2Pos.id by lia. done. }
  split.
  - apply (ScoreFacts.Q2Qc_le 0). unfold Qle. cbn. lia.
  - apply (ScoreFacts.Q2Qc_le _ 1). unfold Qle. cbn. lia.
Qed.

(** The clamp [max(0.0, ...)] of line 87 is never active. *)
Lemma completeness_of_unclamped (missing required : list string) :
  length missing ≤ Nat.max 1 (length required) →
  completeness_of missing required
  = (1 - Q2Qc (Z.of_nat (length missing)
               # Pos.of_nat (Nat.max 1 (length required))))%Qc.
Proof.
  intros Hlen. unfold completeness_of. cbv zeta.
  destruct (ratio_bounds (length missing) (Nat.max 1 (length required)))
    as [H0 H1]; [done|lia|].
  set (q := Q2Qc (Z.of_nat (length missing)
                  # Pos.of_nat (Nat.max 1 (length required)))) in *.
  clearbody q. unfold py_max.
  destruct (decide (0 < 1 - q)%Qc) as [Hlt|Hge]; [done|].
  apply Qcle_antisym; qc_lra.
Qed.

(** X1.  Every completeness value reported by [analyze_gaps] lies between 0
    and 1. *)
Theorem gap_completeness_within_unit
    (reqs : list (string * list string)) (w w' : World)
    (gaps : list (string * gap_entry)) (section : string) (entry : gap_entry) :
  analyze_gaps reqs w = (w', inr gaps) → (section, entry) ∈ gaps →
  (0 ≤ completeness entry)%Qc ∧ (completeness entry ≤ 1)%Qc.
Proof.
  intros Hrun Hin.
  destruct (gap_entry_origin _ _ _ _ _ _ Hrun Hin) as (required & _ & ->).
  unfold entry_of. cbn [fst snd completeness].
  rewrite completeness_of_unclamped by apply missing_of_length.
  destruct (ratio_bounds
              (length (missing_of (assoc_get section (w_profile w)) required))
              (Nat.max 1 (length required))) as [H0 H1];
    [apply missing_of_length|lia|].
  split; qc_lra.
Qed.

Lemma gap_completeness_within_unit_witness :
  (0 ≤ Q2Qc (1 # 3))%Qc ∧ (Q2Qc (1 # 3) ≤ 1)%Qc.
Proof.
  apply (gap_completeness_within_unit third_requirements third_world third_world
           third_gaps "identity" (mk_gap ["dob"; "aliases"] (Q2Qc (1 # 3)))).
  - exact third_gaps_run.
  - left.
Defined.

Lemma missing_of_origin (payload : option value) (required : list string)
    (field : string) :
  field ∈ missing_of payload required →
  field ∈ required ∨ (required = [] ∧ field = "__section_missing__").
Proof.
  unfold missing_of.
  destruct payload as [v|]; [destruct v as [| | | | | |d]|].
  all: try (intros H; inversion H; fail).
  all: try (destruct required as [|r required];
            [intros H; apply list_elem_of_singleton in H; by right
            |intros H; by left]).
  intros H. apply list_elem_of_filter in H as [_ H]. by left.
Qed.

(** X2.  The fields reported missing for a section are never more than
    [max(1, len(required_fields))], the denominator of the completeness
    ratio, and each of them is a required field, or the marker
    [__section_missing__] when the section requires nothing: the quotient
    [len(missing_fields) / denominator] is a ratio of at most 1. *)
Theorem missing_fields_within_denominator
    (reqs : list (string * list string)) (w w' : World)
    (gaps : list (string * gap_entry)) (section : string)
    (required : list string) :
  NoDup reqs.*1 →
  analyze_gaps reqs w = (w', inr gaps) → (section, required) ∈ reqs →
  ∃ entry,
    assoc_get section gaps = Some entry ∧
    length (missing_fields entry) ≤ Nat.max 1 (length required) ∧
    ∀ field, field ∈ missing_fields entry →
      field ∈ required ∨ (required = [] ∧ field = "__section_missing__").
Proof.
  intros Hnd Hrun Hin. apply analyze_gaps_returns in Hrun as [-> ->].
  exists (entry_of (w_profile w) (section, required)). split_and!.
  - by apply (gaps_of_lookup _ _ _ (section, required)).
  - apply missing_of_length.
  - unfold entry_of. cbn [fst snd missing_fields]. apply missing_of_origin.
Qed.

Lemma missing_fields_within_denominator_witness :
  ∃ entry,
    assoc_get "identity" third_gaps = Some entry ∧
    length (missing_fields entry) ≤ Nat.max 1 3 ∧
    ∀ field, field ∈ missing_fields entry →
      field ∈ ["full_name"; "dob"; "aliases"] ∨
      (["full_name"; "dob"; "aliases"] = [] ∧ field = "__section_missing__").
Proof.
  apply (missing_fields_within_denominator third_requirements third_world
           third_world third_gaps "identity" ["full_name"; "dob"; "aliases"]).
  - apply NoDup_singleton.
  - exact third_gaps_run.
  - left.
Defined.

(** X3.  A section that the profile lacks (no key, or [None]) is reported
    with completeness 0 and with all its required fields missing, or with
    the marker [__section_missing__] when it requires none. *)
Theorem absent_section_is_empty
    (reqs : list (string * list string)) (w w' : World)
    (gaps : list (string * gap_entry)) (section : string)
    (required : list string) :
  NoDup reqs.*1 →
  analyze_gaps reqs w = (w', inr gaps) → (section, required) ∈ reqs →
  assoc_get section (w_profile w) = None ∨
  assoc_get section (w_profile w) = Some VNone →
  ∃ entry,
    assoc_get section gaps = Some entry ∧
    completeness entry = 0%Qc ∧
    missing_fields entry
    = match required with [] => ["__section_missing__"] | _ => required end.
Proof.
  intros Hnd Hrun Hin Habs. apply analyze_gaps_returns in Hrun as [-> ->].
  exists (entry_of (w_profile w) (section, required)).
  split; [by apply (gaps_of_lookup _ _ _ (section, required))|].
  unfold entry_of. cbn [fst snd completeness missing_fields].
  assert (Hm : missing_of (assoc_get section (w_profile w)) required
               = match required with
                 | [] => ["__section_missing__"]
                 | _ => required
                 end) by (by destruct Habs as [-> | ->]).
  rewrite Hm. split; [|done].
  rewrite completeness_of_unclamped by (destruct required; cbn; lia).
  assert (Hlen : length (match required with
                         | [] => ["__section_missing__"]
                         | _ => required
                         end) = Nat.max 1 (length required))
    by (destruct required; cbn; lia).
  rewrite Hlen.
  assert (Hp : Z.pos (Pos.of_nat (Nat.max 1 (length required)))
               = Z.of_nat (Nat.max 1 (length required))).
  { rewrite <- positive_nat_Z, Nat2Pos.id by lia. done. }
  apply Qc_is_canon. cbn. rewrite !Qred_correct.
  unfold Qeq, Qplus, Qopp. cbn. rewrite Hp. lia.
Qed.

Lemma completeness_one_iff (missing required : list string) :
  length missing ≤ Nat.max 1 (length required) →
  completeness_of missing required = 1%Qc ↔ missing = [].
Proof.
  intros Hlen. rewrite completeness_of_unclamped by done.
  assert (Hp : Z.pos (Pos.of_nat (Nat.max 1 (length required)))
               = Z.of_nat (Nat.max 1 (length required))).
  { rewrite <- positive_nat_Z, Nat2Pos.id by lia. done. }
  split.
  - intros H.
    set (q := Q2Qc (Z.of_nat (length missing)
                    # Pos.of_nat (Nat.max 1 (length required)))) in *.
    assert (Hq : q = 0%Qc).
    { replace q with (1 - (1 - q))%Qc by ring. rewrite H. ring. }
    apply (f_equal this) in Hq. unfold q in Hq. cbn [this Q2Qc] in Hq.
    apply (Qred_eq_iff _ 0) in Hq. unfold Qeq in Hq. cbn in Hq.
    destruct missing; [done|]. cbn [length] in Hq. lia.
  - intros ->. apply Qc_is_canon. cbn. rewrite !Qred_correct.
    unfold Qeq, Qplus, Qopp. cbn. lia.
Qed.

Lemma filter_is_nil {A : Type} (P : A → Prop) `{!∀ x, Decision (P x)}
    (l : list A) :
  filter P l = [] ↔ Forall (λ x, ¬ P x) l.
Proof.
  induction l as [|x l IH]; [by split; [constructor|]|].
  rewrite filter_cons, Forall_cons. destruct (decide (P x)) as [Hx|Hx].
  - split; [done|]. by intros [? _].
  - rewrite IH. tauto.
Qed.

(** X4.  A section held as a mapping has completeness exactly 1 if and only
    if every required field carries information, and then nothing is
    reported missing. *)
Theorem populated_section_is_complete
    (reqs : list (string * list string)) (w w' : World)
    (gaps : list (string * gap_entry)) (section : string)
    (required : list string) (d : list (string * value)) :
  NoDup reqs.*1 →
  analyze_gaps reqs w = (w', inr gaps) → (section, required) ∈ reqs →
  assoc_get section (w_profile w) = Some (VDict d) →
  ∃ entry,
    assoc_get section gaps = Some entry ∧
    (completeness entry = 1%Qc ↔
     ∀ f, f ∈ required → ¬ no_information (assoc_get f d)) ∧
    (completeness entry = 1%Qc → missing_fields entry = []).
Proof.
  intros Hnd Hrun Hin Hsec. apply analyze_gaps_returns in Hrun as [-> ->].
  exists (entry_of (w_profile w) (section, required)).
  split; [by apply (gaps_of_lookup _ _ _ (section, required))|].
  unfold entry_of. cbn [fst snd completeness missing_fields].
  rewrite completeness_one_iff by apply missing_of_length.
  rewrite Hsec. cbn [missing_of]. split; [|done].
  rewrite filter_is_nil, Forall_forall.
  split; intros H f Hf; specialize (H f Hf);
    first [by rewrite <- is_blank_no_information
          |by rewrite is_blank_no_information].
Qed.

Lemma populated_section_is_complete_witness :
  ∃ entry,
    assoc_get "identity" fields_gaps = Some entry ∧
    (completeness entry = 1%Qc ↔
     ∀ f, f ∈ ["full_name"; "dob"; "aliases"; "age"; "verified"; "links"] →
          ¬ no_information (assoc_get f fields_payload)) ∧
    (completeness entry = 1%Qc → missing_fields entry = []).
Proof.
  apply (populated_section_is_complete fields_requirements
           fields_world fields_world fields_gaps "identity").
  - apply NoDup_singleton.
  - exact fields_gaps_run.
  - left.
  - reflexivity.
Defined.

Lemma absent_gaps_run :
  analyze_gaps absent_requirements absent_world = (absent_world, inr absent_gaps).
Proof. vm_compute. reflexivity. Qed.

Lemma absent_section_is_empty_witness :
  ∃ entry,
    assoc_get "geo" absent_gaps = Some entry ∧
    completeness entry = 0%Qc ∧
    missing_fields entry = ["__section_missing__"].
Proof.
  apply (absent_section_is_empty absent_requirements absent_world absent_world
           absent_gaps "geo" []).
  - apply (bool_decide_unpack _). vm_compute. exact I.
  - exact absent_gaps_run.
  - right; left.
  - left. reflexivity.
Defined.

End GapExtraFacts.

(** * Further properties of the suggestion engine *)

Module SuggestExtraFacts.
Import Planner PlannerSpec PlannerExample PlannerMoreExample GapFacts
  SortFacts SuggestFacts PlannerExampleFacts.

Section Suggest.
Variable str_lower : string → string.

(** X6.  When every section that has candidate modules is complete,
    [suggest_modules] returns the empty list. *)
Theorem complete_profile_no_suggestions
    (reqs : list (string * list string)) (history : option (list string))
    (w w' : World) (suggestions : list suggestion)
    (gaps : list (string * gap_entry)) :
  suggest_modules reqs str_lower history w = (w', inr suggestions) →
  analyze_gaps reqs w = (w, inr gaps) →
  (∀ section details, (section, details) ∈ gaps →
                      candidates_of section ≠ [] →
                      completeness details = 1%Qc) →
  suggestions = [].
Proof.
  intros Hrun Hgaps Hfull.
  apply suggest_modules_returns in Hrun as (_ & Hg & ->).
  rewrite Hg in Hgaps. injection Hgaps as <-.
  destruct (sort_desc _) as [|s rest] eqn:Hsort; [done|]. exfalso.
  assert (Hs : s ∈ sort_desc (candidate_suggestions str_lower
                 (executed_set str_lower history)
                 (gaps_of (w_profile w) reqs []))) by (rewrite Hsort; left).
  rewrite sort_desc_perm in Hs.
  apply candidate_suggestions_elem in Hs
    as (section & details & rank & Hin & Hc & Hpos & _ & _).
  assert (Hne : candidates_of section ≠ [])
    by (intros Hnil; by rewrite Hnil, lookup_nil in Hc).
  specialize (Hfull section details Hin Hne).
  unfold missing_ratio in Hpos. rewrite Hfull in Hpos.
  by apply Qclt_not_eq in Hpos.
Qed.

End Suggest.

Lemma full_gaps_run :
  analyze_gaps identity_requirements mapping_world = (mapping_world, inr full_gaps).
Proof. vm_compute. reflexivity. Qed.

Lemma full_suggestions_run :
  suggest_modules identity_requirements lower_ascii None mapping_world
  = (mapping_world, inr []).
Proof. vm_compute. reflexivity. Qed.

Lemma complete_profile_no_suggestions_witness :
  suggest_modules identity_requirements lower_ascii None mapping_world
  = (mapping_world, inr []) ∧ @nil suggestion = [].
Proof.
  split; [exact full_suggestions_run|].
  apply (complete_profile_no_suggestions lower_ascii identity_requirements None
           mapping_world mapping_world [] full_gaps).
  - exact full_suggestions_run.
  - exact full_gaps_run.
  - intros section details Hin _.
    apply list_elem_of_singleton in Hin. injection Hin as -> ->. reflexivity.
Defined.

End SuggestExtraFacts.

(** * Further properties of the dependency resolver *)

Module ResolverExtraFacts.
Import Orchestrator ResolverSpec ResolverMoreSpec OrderModulesFacts ClosureFacts
  VisitFacts ResolverFacts.

Lemma filter_agree {A : Type} (P Q : A → Prop)
    `{!∀ x, Decision (P x)} `{!∀ x, Decision (Q x)} (l : list A) :
  (∀ x, x ∈ l → (P x ↔ Q x)) → filter P l = filter Q l.
Proof.
  induction l as [|x l IH]; intros Hpq; [done|].
  rewrite !filter_cons, IH by (intros y Hy; apply Hpq; by right).
  assert (Hx : P x ↔ Q x) by (apply Hpq; left).
  destruct (decide (P x)) as [Hp|Hp], (decide (Q x)) as [Hq|Hq]; tauto.
Qed.

(** The first loop of [_order_modules] in closed form. *)
Lemma order_fold_closed (names o : list string) (r : gset string) :
  NoDup names →
  foldl order_step (o, r) names
  = (o ++ filter (λ n, n ∈ r) names, r ∖ list_to_set names).
Proof.
  revert o r. induction names as [|n names IH]; intros o r Hnd.
  - cbn. rewrite app_nil_r. f_equal. apply set_eq. intros x.
    rewrite elem_of_difference. split; [|tauto].
    intros Hx. split; [done|]. apply not_elem_of_empty.
  - apply NoDup_cons in Hnd as [Hn Hnd]. cbn [foldl]. unfold order_step at 2.
    cbn [fst snd]. rewrite filter_cons.
    destruct (decide (n ∈ r)) as [Hin|Hout].
    + rewrite IH by done. rewrite <- app_assoc. cbn [app]. f_equal.
      * do 2 f_equal. apply filter_agree. intros x Hx.
        rewrite elem_of_difference, elem_of_singleton.
        split; [tauto|]. intros Hr. split; [done|]. by intros ->.
      * apply set_eq. intros x.
        rewrite !elem_of_difference, !elem_of_list_to_set, elem_of_singleton,
          elem_of_cons. tauto.
    + rewrite IH by done. f_equal. apply set_eq. intros x.
      rewrite !elem_of_difference, !elem_of_list_to_set, elem_of_cons.
      split; [|tauto]. intros [Hr Hx]. split; [done|].
      intros [->|?]; done.
Qed.

Lemma MODULE_PRIORITY_NoDup : NoDup MODULE_PRIORITY.
Proof. apply (bool_decide_unpack _). vm_compute. exact I. Qed.

Lemma order_modules_closed (modules : list string) :
  _order_modules modules
  = filter (λ n, n ∈ modules) MODULE_PRIORITY
    ++ sorted (list_to_set modules ∖ list_to_set MODULE_PRIORITY).
Proof.
  unfold _order_modules. cbv zeta.
  rewrite order_fold_closed by apply MODULE_PRIORITY_NoDup. cbn [fst snd app].
  f_equal. apply filter_agree. intros x _. apply elem_of_list_to_set.
Qed.

#[local] Instance str_le_total : Total str_le.
Proof. intros a b. apply String.leb_total. Qed.

(** X7.  [_order_modules] returns the ids of [MODULE_PRIORITY] that occur in
    its argument, in the order of [MODULE_PRIORITY], followed by the other
    ids of the argument, each once, in ascending order. *)
Theorem order_modules_priority_then_sorted (modules : list string) :
  ∃ rest,
    _order_modules modules = filter (λ n, n ∈ modules) MODULE_PRIORITY ++ rest ∧
    Sorted str_le rest ∧ NoDup rest ∧
    ∀ x, x ∈ rest ↔ x ∈ modules ∧ x ∉ MODULE_PRIORITY.
Proof.
  exists (sorted (list_to_set modules ∖ list_to_set MODULE_PRIORITY)).
  split_and!.
  - apply order_modules_closed.
  - apply Sorted_merge_sort, _.
  - unfold sorted. rewrite merge_sort_Permutation. apply NoDup_elements.
  - intros x. unfold sorted.
    by rewrite merge_sort_Permutation, elem_of_elements, elem_of_difference,
         !elem_of_list_to_set.
Qed.

(** X8.  The result of [_order_modules] depends only on which ids occur in
    its argument, not on their order or multiplicity; applying it to its
    own result changes nothing. *)
Theorem order_modules_set_only (l1 l2 : list string) :
  (∀ x, x ∈ l1 ↔ x ∈ l2) →
  _order_modules l1 = _order_modules l2 ∧
  _order_modules (_order_modules l1) = _order_modules l2.
Proof.
  assert (Hset : ∀ a b : list string, (∀ x, x ∈ a ↔ x ∈ b) →
                   _order_modules a = _order_modules b).
  { intros a b Hab. unfold _order_modules. cbv zeta.
    replace (list_to_set a : gset string) with (list_to_set b : gset string);
      [done|].
    apply set_eq. intros x. by rewrite !elem_of_list_to_set. }
  intros H. split; [by apply Hset|].
  apply Hset. intros x. by rewrite order_modules_elem.
Qed.

Lemma order_modules_set_only_witness :
  _order_modules ["Twint"; "zeta"; "theHarvester"; "Twint"]
  = _order_modules ["theHarvester"; "Twint"; "zeta"] ∧
  _order_modules (_order_modules ["Twint"; "zeta"; "theHarvester"; "Twint"])
  = _order_modules ["theHarvester"; "Twint"; "zeta"].
Proof.
  apply order_modules_set_only. intros x.
  rewrite !elem_of_cons. pose proof (elem_of_nil x). tauto.
Defined.

Section Reach.
Variable deps : gmap string (list string).

(** A property that holds of the start set and passes to dependencies holds
    of everything the closure loop returns. *)
Lemma closure_loop_preserves (P : string → Prop) (fuel : nat)
    (E E' : gset string) :
  (∀ x, x ∈ E → P x) → (∀ m d, P m → d ∈ deps_get deps m → P d) →
  closure_loop deps fuel E = Some E' → ∀ x, x ∈ E' → P x.
Proof.
  intros HE Hstep. revert E HE.
  induction fuel as [|fuel IH]; intros E HE; [done|].
  cbn [closure_loop]. cbv zeta.
  destruct (closure_pass_spec deps (elements E) (E, false)) as (_ & P2 & _ & _).
  cbn [fst snd] in P2.
  assert (H1 : ∀ x, x ∈ (closure_pass deps (elements E) (E, false)).1 → P x).
  { intros x Hx. destruct (P2 x Hx) as [?|(m & Hm & Hd)]; [by apply HE|].
    apply (Hstep m); [|done]. apply HE. by apply elem_of_elements. }
  destruct (closure_pass deps (elements E) (E, false)) as [E1 c].
  cbn [fst snd] in *. destruct c.
  - by apply IH.
  - by intros [= <-].
Qed.

(** What one run of the resolver yields. *)
Lemma resolver_run (selected_modules : list string) :
  ∃ expanded st,
    dependency_closure deps selected_modules = Some expanded ∧
    build_execution_order_state deps selected_modules = Some st ∧
    (∀ m, m ∈ ordered st ↔ m ∈ expanded) ∧
    (∀ m, m ∈ selected_modules → m ∈ expanded) ∧
    closed deps expanded.
Proof.
  destruct (build_execution_order_state_spec deps (λ _, 0) selected_modules)
    as (expanded & st & Hcl & Hst & _ & Hin & _).
  destruct (dependency_closure_spec deps selected_modules)
    as (expanded' & Hcl' & Hsel & Hclosed & _).
  rewrite Hcl in Hcl'. injection Hcl' as <-.
  by exists expanded, st.
Qed.

Lemma closed_rtc (E : gset string) (x z : string) :
  closed deps E → rtc (depends_on deps) x z → x ∈ E → z ∈ E.
Proof.
  intros Hclosed Hxz. induction Hxz as [x|x y z Hxy _ IH]; [done|].
  intros Hx. apply IH. by apply (Hclosed x y).
Qed.

(** X9.  For any dependency table, the execution order consists of exactly
    the modules that are selected or are dependencies, direct or indirect,
    of a selected module: nothing needed is left out and nothing else is
    scheduled. *)
Theorem execution_order_is_needed_set (selected_modules : list string) :
  ∃ order,
    build_execution_order_with deps selected_modules = Some order ∧
    ∀ m, m ∈ order ↔ needed deps selected_modules m.
Proof.
  destruct (resolver_run selected_modules)
    as (expanded & st & Hcl & Hst & Hin & Hsel & Hclosed).
  exists (ordered st). unfold build_execution_order_with. rewrite Hst.
  split; [done|]. intros m. rewrite Hin. split.
  - revert m. unfold dependency_closure in Hcl.
    apply (closure_loop_preserves (needed deps selected_modules)
             (S (size (dep_universe deps))) (list_to_set selected_modules));
      [| |exact Hcl].
    + intros x Hx. apply elem_of_list_to_set in Hx. exists x. split; [done|].
      apply rtc_refl.
    + intros m d (s & Hs & Hsm) Hd. exists s. split; [done|].
      eapply rtc_r; [exact Hsm|exact Hd].
  - intros (s & Hs & Hsm). apply (closed_rtc expanded s m); [done|done|].
    by apply Hsel.
Qed.

Lemma resolver_state_by_closure (l1 l2 : list string) :
  dependency_closure deps l1 = dependency_closure deps l2 →
  build_execution_order_state deps l1 = build_execution_order_state deps l2.
Proof. intros H. unfold build_execution_order_state. by rewrite H. Qed.

(** X10.  Resolving an execution order again returns it unchanged: the
    order is already closed under dependencies and already in schedule
    order. *)
Theorem execution_order_is_fixed_point
    (selected_modules order : list string) :
  build_execution_order_with deps selected_modules = Some order →
  build_execution_order_with deps order = Some order.
Proof.
  destruct (resolver_run selected_modules)
    as (expanded & st & Hcl & Hst & Hin & Hsel & Hclosed).
  unfold build_execution_order_with at 1. rewrite Hst. intros [= <-].
  destruct (dependency_closure_spec deps (ordered st))
    as (expanded2 & Hcl2 & Hsel2 & _ & Hleast2).
  assert (Heq : expanded2 = expanded).
  { apply set_eq. intros x. split.
    - apply Hleast2; [|done]. intros m Hm. by apply Hin.
    - intros Hx. apply Hsel2. by apply Hin. }
  subst expanded2. unfold build_execution_order_with.
  rewrite (resolver_state_by_closure (ordered st) selected_modules)
    by congruence.
  by rewrite Hst.
Qed.

End Reach.

Lemma execution_order_is_fixed_point_witness :
  build_execution_order_with dependencies ["SpiderFoot"; "Metagoofil"]
  = Some ["theHarvester"; "Recon-ng"; "SpiderFoot"; "Photon"; "Metagoofil"] ∧
  build_execution_order_with dependencies
    ["theHarvester"; "Recon-ng"; "SpiderFoot"; "Photon"; "Metagoofil"]
  = Some ["theHarvester"; "Recon-ng"; "SpiderFoot"; "Photon"; "Metagoofil"].
Proof.
  assert (H : build_execution_order_with dependencies
                ["SpiderFoot"; "Metagoofil"]
              = Some ["theHarvester"; "Recon-ng"; "SpiderFoot"; "Photon";
                      "Metagoofil"]) by (vm_compute; reflexivity).
  split; [exact H|].
  exact (execution_order_is_fixed_point dependencies _ _ H).
Defined.

Lemma for_each_cons_inv {A S : Type} (body : A → S → option S) (x : A)
    (l : list A) (st st' : S) :
  for_each body (x :: l) st = Some st' →
  ∃ s1, body x st = Some s1 ∧ for_each body l s1 = Some st'.
Proof.
  rewrite for_each_cons. destruct (body x st) as [s1|]; [|done].
  intros H. by exists s1.
Qed.

Section Quiet.
Variable deps : gmap string (list string).
Variable expanded : gset string.
Variable rank : string → nat.

(** A loop whose body neither logs nor changes the stack does neither. *)
Lemma quiet_loop (body : string → dfs_state → option dfs_state)
    (ds : list string) (st st' : dfs_state) :
  (∀ d s s', d ∈ ds → visiting s = visiting st → body d s = Some s' →
             warnings s' = warnings s ∧ visiting s' = visiting s) →
  for_each body ds st = Some st' →
  warnings st' = warnings st ∧ visiting st' = visiting st.
Proof.
  revert st. induction ds as [|d ds IH]; intros st Hbody Hrun.
  - by injection Hrun as <-.
  - apply for_each_cons_inv in Hrun as (s1 & H1 & Hrest).
    destruct (Hbody d st s1) as [Hw Hv]; [left|done|done|].
    destruct (IH s1) as [Hw' Hv']; [|done|split; congruence].
    intros d' s s' Hd' Hs. apply Hbody; [by right|congruence].
Qed.

(** On an acyclic table [visit] never meets a module that is on the stack,
    so it logs nothing. *)
Lemma visit_quiet (fuel : nat) (m : string) (st st' : dfs_state) :
  ranked deps rank → above rank m st →
  visit deps expanded fuel m st = Some st' →
  warnings st' = warnings st ∧ visiting st' = visiting st.
Proof.
  intros Hr. revert m st st'.
  induction fuel as [|fuel IH]; intros m st st' Hab; [done|]. cbn [visit].
  destruct (decide (m ∈ visited st)); [by intros [= <-]|].
  destruct (decide (m ∈ visiting st)) as [Hv|Hv].
  { specialize (Hab m Hv). lia. }
  destruct (for_each _ (deps_get deps m) (enter m st)) as [st2|] eqn:Hloop;
    [|done].
  intros [= <-]. apply quiet_loop in Hloop as [Hw Hving].
  - cbn. rewrite Hw, Hving. cbn. split; [done|].
    apply set_eq. intros x.
    rewrite elem_of_difference, elem_of_union, elem_of_singleton.
    split; [tauto|]. intros Hx. split; [by right|]. by intros ->.
  - intros d s s' Hd Hs. destruct (decide (d ∈ expanded)); [|by intros [= <-]].
    apply IH. intros v Hvs. rewrite Hs in Hvs. cbn in Hvs.
    specialize (Hr m d Hd).
    apply elem_of_union in Hvs as [Hvs|Hvs].
    + apply elem_of_singleton in Hvs. by subst.
    + specialize (Hab v Hvs). lia.
Qed.

End Quiet.

Lemma resolver_state_unfold (deps : gmap string (list string))
    (selected_modules : list string) (expanded : gset string) :
  dependency_closure deps selected_modules = Some expanded →
  build_execution_order_state deps selected_modules
  = for_each (visit deps expanded (S (size expanded)))
             (_order_modules (elements expanded)) dfs_init.
Proof. intros H. unfold build_execution_order_state. by rewrite H. Qed.

(** On any acyclic table the resolver logs no cycle. *)
Lemma ranked_table_never_warns (deps : gmap string (list string))
    (rank : string → nat) (selected_modules : list string) :
  ranked deps rank →
  ∃ st, build_execution_order_state deps selected_modules = Some st ∧
        warnings st = [].
Proof.
  intros Hr.
  destruct (resolver_run deps selected_modules)
    as (expanded & st & Hcl & Hst & _).
  exists st. split; [done|].
  rewrite (resolver_state_unfold _ _ _ Hcl) in Hst.
  apply quiet_loop in Hst as [Hw _]; [done|].
  intros d s s' _ Hs. apply (visit_quiet deps expanded rank); [done|].
  intros v Hv. rewrite Hs in Hv. by apply not_elem_of_empty in Hv.
Qed.

(** X11.  With the shipped dependency table the cycle diagnostic of [visit]
    is never emitted, whatever modules are selected. *)
Theorem static_table_never_warns (selected_modules : list string) :
  ∃ st, build_execution_order_state dependencies selected_modules = Some st ∧
        warnings st = [].
Proof.
  apply (ranked_table_never_warns dependencies static_rank).
  apply dependencies_ranked.
Qed.

End ResolverExtraFacts.

(** * Further properties of the execution engine *)

Module EngineExtraFacts.
Import Engine EngineSpec EngineMoreSpec EngineFacts.

Section ExecutionEngine.
Variables PyModule ModuleClass ModuleInstance : Type.
Variable import_module : string → Py PyModule.
Variable getattr_class : PyModule → string → Py ModuleClass.
Variable construct : ModuleClass → list (string * kwarg) → Py ModuleInstance.
Variable execute : ModuleInstance → Py value.
Variable utcnow_stamp : Py string.
Variable py_repr : value → string.

Abbreviation load_candidates := (load_candidates _ _ import_module getattr_class).
Abbreviation _load_module_class :=
  (_load_module_class _ _ import_module getattr_class).
Abbreviation _derive_reconng_target := (_derive_reconng_target py_repr).
Abbreviation _build_workspace_name := (_build_workspace_name utcnow_stamp).
Abbreviation _prepare_module_kwargs := (_prepare_module_kwargs utcnow_stamp py_repr).
Abbreviation run_loaded :=
  (run_loaded _ _ construct execute utcnow_stamp py_repr).
Abbreviation _run_module :=
  (_run_module _ _ _ import_module getattr_class construct execute
               utcnow_stamp py_repr).
Abbreviation run_modules :=
  (run_modules _ _ _ import_module getattr_class construct execute
               utcnow_stamp py_repr).
Abbreviation all_candidates_fail :=
  (all_candidates_fail _ _ import_module getattr_class).

Lemma load_candidates_skip (pre rest : list candidate) (w w1 : World) :
  all_candidates_fail pre w w1 →
  load_candidates (pre ++ rest) w = load_candidates rest w1.
Proof.
  revert w. induction pre as [|c pre IH]; intros w; cbn.
  - by intros ->.
  - intros (w2 & Hc & Hrest). unfold try_except.
    destruct Hc as [(e & Hi)|(w3 & module & e & Hi & Hg)].
    + rewrite (bind_raises _ _ _ _ _ Hi). by apply IH.
    + rewrite (bind_returns _ _ _ _ _ Hi), (bind_raises _ _ _ _ _ Hg).
      by apply IH.
Qed.

(** X12.  [_load_module_class] falls back along the registered candidates:
    when the candidates before [c] fail to import or resolve and [c] loads,
    the class and the profile section of [c] are returned. *)
Theorem load_module_class_falls_back
    (module_id : string) (pre post : list candidate) (c : candidate)
    (w w1 w2 w3 : World) (module : PyModule) (module_class : ModuleClass) :
  MODULE_REGISTRY !! module_id = Some (pre ++ c :: post) →
  all_candidates_fail pre w w1 →
  import_module (import_path c) w1 = (w2, inr module) →
  getattr_class module (class_name c) w2 = (w3, inr module_class) →
  _load_module_class module_id w
  = (w3, inr (Some module_class, cand_profile_section c)).
Proof.
  intros Hreg Hpre Hi Hg. unfold Engine._load_module_class. cbv zeta.
  rewrite Hreg. cbn [from_option id].
  assert (Hload : load_candidates (pre ++ c :: post) w
                  = (w3, inr (Some (module_class, cand_profile_section c)))).
  { rewrite (load_candidates_skip _ _ _ _ Hpre). cbn [Engine.load_candidates].
    apply try_except_returns.
    by rewrite (bind_returns _ _ _ _ _ Hi), (bind_returns _ _ _ _ _ Hg). }
  destruct (pre ++ c :: post) as [|first rest] eqn:Hcs.
  - by destruct pre.
  - by rewrite (bind_returns _ _ _ _ _ Hload).
Qed.

Lemma prepare_other_module (module_id : string) (w : World) :
  module_id ≠ "Recon-ng" →
  _prepare_module_kwargs module_id w = (w, inr ([("logger", KLogger)], None)).
Proof.
  intros Hne. unfold Engine._prepare_module_kwargs. cbv zeta.
  by rewrite decide_True.
Qed.

(** X13.  Only Recon-ng can be skipped: for every other module id the
    record returned by [_run_module] has a status other than [skipped]. *)
Theorem only_reconng_is_skipped (module_id : string) (w w' : World) (r : record) :
  module_id ≠ "Recon-ng" →
  _run_module module_id w = (w', inr r) → rec_status r ≠ skipped.
Proof.
  intros Hne. unfold Engine._run_module.
  destruct (load_module_class_never_raises _ _ import_module getattr_class
              module_id w) as (w1 & [module_class section] & Hload).
  rewrite (bind_returns _ _ _ _ _ Hload). cbn [fst snd].
  destruct module_class as [module_class|]; [|by intros [= _ <-]].
  unfold try_except, Engine.run_loaded.
  rewrite (bind_returns _ _ _ _ _ (prepare_other_module module_id w1 Hne)).
  cbn [fst snd]. unfold mbind, py_bind, mret, py_ret, log.
  destruct (construct module_class [("logger", KLogger)] w1)
    as [w2 [e|instance]]; [by intros [= _ <-]|].
  destruct (execute instance w2) as [w3 [e|output]]; by intros [= _ <-].
Qed.

Lemma derive_reconng_target_none (w : World) :
  no_reconng_target (w_profile w) → _derive_reconng_target w = (w, inr None).
Proof.
  intros (Hd & Hb & He & Hp & Hi). unfold field_falsy in *.
  unfold Engine._derive_reconng_target, profile_section, get_or_empty.
  unfold mbind, py_bind, profile_get, lift, mret, py_ret, py_or.
  destruct (assoc_get "digital" (w_profile w)) as [[]|]; try done;
    cbn [from_option id value_get assoc_get]; rewrite ?Hd; cbn [truthy];
  destruct (assoc_get "business" (w_profile w)) as [[]|]; try done;
    cbn [from_option id value_get assoc_get]; rewrite ?Hb; cbn [truthy];
  destruct (assoc_get "contact" (w_profile w)) as [[]|]; try done;
    cbn [from_option id value_get assoc_get]; rewrite ?He, ?Hp; cbn [truthy];
  destruct (assoc_get "identity" (w_profile w)) as [[]|]; try done;
    cbn [from_option id value_get assoc_get]; rewrite ?Hi; by cbn [truthy].
Qed.

(** X14.  Recon-ng without a usable target is skipped: when the module loads
    and none of digital.domains, business.company_names, contact.emails,
    contact.phones and identity.full_name holds a value, [_run_module]
    returns the [skipped] record with the fixed reason, and neither
    constructs nor executes the module (the state is the one left by the
    loading). *)
Theorem reconng_without_target_is_skipped
    (w w1 : World) (module_class : ModuleClass) (section : string) :
  _load_module_class "Recon-ng" w = (w1, inr (Some module_class, section)) →
  no_reconng_target (w_profile w1) →
  _run_module "Recon-ng" w
  = (w1, inr (mk_record "Recon-ng" skipped
                "No suitable target found for Recon-ng execution." section [])).
Proof.
  intros Hload Hno. unfold Engine._run_module.
  rewrite (bind_returns _ _ _ _ _ Hload). cbn [fst snd].
  apply try_except_returns. unfold Engine.run_loaded.
  assert (Hprep : _prepare_module_kwargs "Recon-ng" w1
            = (w1, inr ([], Some "No suitable target found for Recon-ng execution."))).
  { unfold Engine._prepare_module_kwargs. cbv zeta.
    rewrite decide_False by (intros Hne; by apply Hne).
    by rewrite (bind_returns _ _ _ _ _ (derive_reconng_target_none w1 Hno)). }
  by rewrite (bind_returns _ _ _ _ _ Hprep).
Qed.

(** X15.  Whatever raises inside the [try] block of [_run_module] is caught
    and logged once: when the constructor of a loaded module other than
    Recon-ng raises [exc], the record is [failed] with summary [str(exc)]
    and no output key, [execute] is never called, and exactly one [error]
    entry naming the module and the message is appended to the log. *)
Theorem constructor_failure_recorded_and_logged
    (module_id section : string) (w w1 w2 : World)
    (module_class : ModuleClass) (exc : Exn) :
  module_id ≠ "Recon-ng" →
  _load_module_class module_id w = (w1, inr (Some module_class, section)) →
  construct module_class [("logger", KLogger)] w1 = (w2, inl exc) →
  _run_module module_id w
  = ({| w_profile := w_profile w2;
        w_log := w_log w2 ++
          [("error",
            String.append "Module '"
              (String.append module_id
                 (String.append "' failed: " (exn_message exc))))] |},
     inr (mk_record module_id failed (exn_message exc) section [])).
Proof.
  intros Hne Hload Hc. unfold Engine._run_module.
  rewrite (bind_returns _ _ _ _ _ Hload). cbn [fst snd].
  unfold try_except, Engine.run_loaded.
  rewrite (bind_returns _ _ _ _ _ (prepare_other_module module_id w1 Hne)).
  cbn [fst snd]. by rewrite (bind_raises _ _ _ _ _ Hc).
Qed.

Lemma sub_non_alnum_chars (in_run : bool) (s : string) :
  Forall name_char (list_ascii_of_string (sub_non_alnum in_run s)).
Proof.
  revert in_run. induction s as [|c s IH]; intros in_run; cbn; [constructor|].
  destruct (is_alnum c) eqn:Hc; cbn.
  - constructor; [by left|apply IH].
  - destruct in_run; cbn; [apply IH|]. constructor; [by right|apply IH].
Qed.

Lemma lstrip_underscore_cases (c : ascii) (s : string) :
  lstrip_underscore (String c s) = lstrip_underscore s ∨
  lstrip_underscore (String c s) = String c s.
Proof.
  destruct c as [[] [] [] [] [] [] [] []]; cbn; auto.
Qed.

Lemma lstrip_underscore_chars (s : string) :
  Forall name_char (list_ascii_of_string s) →
  Forall name_char (list_ascii_of_string (lstrip_underscore s)).
Proof.
  induction s as [|c s IH]; [done|]. intros H.
  destruct (lstrip_underscore_cases c s) as [-> | ->]; [|done].
  cbn in H. inversion H; subst. by apply IH.
Qed.

Lemma string_rev_onto_chars (s acc : string) :
  list_ascii_of_string (string_rev_onto s acc)
  = rev (list_ascii_of_string s) ++ list_ascii_of_string acc.
Proof.
  revert acc. induction s as [|c s IH]; intros acc; cbn; [done|].
  by rewrite IH, <- app_assoc.
Qed.

Lemma string_rev_chars (s : string) :
  Forall name_char (list_ascii_of_string s) →
  Forall name_char (list_ascii_of_string (string_rev_onto s EmptyString)).
Proof.
  intros H. rewrite string_rev_onto_chars. cbn. rewrite app_nil_r.
  by apply Forall_rev.
Qed.

Lemma strip_underscore_chars (s : string) :
  Forall name_char (list_ascii_of_string s) →
  Forall name_char (list_ascii_of_string (strip_underscore s)).
Proof.
  intros H. unfold strip_underscore. cbv zeta.
  by apply string_rev_chars, lstrip_underscore_chars, string_rev_chars,
    lstrip_underscore_chars.
Qed.

Lemma substring_chars (n m : nat) (s : string) :
  Forall name_char (list_ascii_of_string s) →
  Forall name_char (list_ascii_of_string (String.substring n m s)).
Proof.
  revert n m. induction s as [|c s IH]; intros n m H.
  - by destruct n, m.
  - cbn in H. inversion H; subst. destruct n, m; cbn.
    + constructor.
    + constructor; [done|by apply IH].
    + by apply IH.
    + by apply IH.
Qed.

Lemma substring_length_le (m : nat) (s : string) :
  String.length (String.substring 0 m s) ≤ m.
Proof.
  revert m. induction s as [|c s IH]; intros m; destruct m; cbn; try lia.
  specialize (IH m). lia.
Qed.

Lemma substring_nonempty (m : nat) (s : string) :
  s ≠ EmptyString → 1 ≤ String.length (String.substring 0 (S m) s).
Proof.
  destruct s; [done|]. cbn. lia.
Qed.

(** X16.  [_build_workspace_name] always yields a well-formed workspace
    name: [orchestrator_], a cleaned target of 1 to 32 characters all from
    [A-Za-z0-9_], an underscore and the timestamp, whatever characters the
    target holds (an empty cleaned target becomes [target]). *)
Theorem workspace_name_is_sanitized
    (target_value timestamp : string) (w w' : World) :
  utcnow_stamp w = (w', inr timestamp) →
  ∃ cleaned,
    _build_workspace_name target_value w
    = (w', inr (String.append "orchestrator_"
                  (String.append cleaned (String.append "_" timestamp)))) ∧
    1 ≤ String.length cleaned ≤ 32 ∧
    Forall name_char (list_ascii_of_string cleaned).
Proof.
  intros Hts. unfold Engine._build_workspace_name. cbv zeta.
  set (c0 := strip_underscore (sub_non_alnum false target_value)).
  assert (H0 : Forall name_char (list_ascii_of_string c0))
    by apply strip_underscore_chars, sub_non_alnum_chars.
  set (c1 := if String.eqb c0 "" then "target" else c0).
  assert (H1 : Forall name_char (list_ascii_of_string c1)).
  { unfold c1. destruct (String.eqb c0 ""); [|done].
    repeat constructor. }
  assert (Hne : c1 ≠ EmptyString).
  { unfold c1. destruct (String.eqb_spec c0 ""); [done|done]. }
  exists (String.substring 0 32 c1). split_and!.
  - by rewrite (bind_returns _ _ _ _ _ Hts).
  - by apply substring_nonempty.
  - apply substring_length_le.
  - by apply substring_chars.
Qed.

End ExecutionEngine.
End EngineExtraFacts.

Module EngineExtraExampleFacts.
Import Engine EngineSpec EngineMoreSpec EngineExample EngineMoreExample.
Import EngineExtraFacts.

(** Photon: the first registered class name is missing, the second loads. *)
Lemma load_module_class_falls_back_witness :
  Engine._load_module_class string string toy_import toy_getattr2 "Photon"
    toy_world
  = (toy_world, inr (Some "Research_Web_Crawling_Photon", "digital")).
Proof.
  apply (load_module_class_falls_back string string toy_import toy_getattr2
           "Photon"
           [ mk_candidate "intel_engine.modules.research_web_crawling_photon"
                          "ResearchWebCrawlingPhoton" "digital" ]
           []
           (mk_candidate "intel_engine.modules.research_web_crawling_photon"
                         "Research_Web_Crawling_Photon" "digital")
           toy_world toy_world toy_world toy_world
           "intel_engine.modules.research_web_crawling_photon").
  - vm_compute. reflexivity.
  - exists toy_world. split; [|reflexivity].
    right. exists toy_world, "intel_engine.modules.research_web_crawling_photon",
      (mkExn "AttributeError"
         "module has no attribute 'ResearchWebCrawlingPhoton'").
    split; vm_compute; reflexivity.
  - vm_compute. reflexivity.
  - vm_compute. reflexivity.
Defined.

Lemma only_reconng_is_skipped_witness :
  rec_status harvester_record ≠ skipped.
Proof.
  apply (only_reconng_is_skipped string string string toy_import toy_getattr
           toy_construct toy_execute toy_utcnow toy_repr
           "theHarvester" toy_world toy_world1 harvester_record).
  - discriminate.
  - vm_compute. reflexivity.
Defined.

Lemma reconng_without_target_is_skipped_witness :
  toy_run_module "Recon-ng" no_target_world
  = (no_target_world,
     inr (mk_record "Recon-ng" skipped
            "No suitable target found for Recon-ng execution." "intelligence" [])).
Proof.
  apply (reconng_without_target_is_skipped string string string toy_import
           toy_getattr toy_construct toy_execute toy_utcnow toy_repr
           no_target_world no_target_world "Research_Framework_ReconNG"
           "intelligence").
  - vm_compute. reflexivity.
  - unfold no_reconng_target, field_falsy. vm_compute. tauto.
Defined.

Lemma constructor_failure_recorded_and_logged_witness :
  Engine._run_module string string string toy_import toy_getattr toy_construct2
    toy_execute toy_utcnow toy_repr "Sherlock" toy_world
  = ({| w_profile := [];
        w_log := [("error",
                   "Module 'Sherlock' failed: unexpected keyword argument 'logger'")] |},
     inr (mk_record "Sherlock" failed "unexpected keyword argument 'logger'"
            "social" [])).
Proof.
  apply (constructor_failure_recorded_and_logged string string string
           toy_import toy_getattr toy_construct2 toy_execute toy_utcnow toy_repr
           "Sherlock" "social" toy_world toy_world toy_world
           "Research_Identity_Username_Search"
           (mkExn "TypeError" "unexpected keyword argument 'logger'")).
  - discriminate.
  - vm_compute. reflexivity.
  - vm_compute. reflexivity.
Defined.

Lemma workspace_name_is_sanitized_witness :
  ∃ cleaned,
    Engine._build_workspace_name toy_utcnow "__ex ample!!.com/" toy_world
    = (toy_world,
       inr (String.append "orchestrator_"
              (String.append cleaned "_20240101000000"))) ∧
    1 ≤ String.length cleaned ≤ 32 ∧
    Forall name_char (list_ascii_of_string cleaned).
Proof.
  apply (workspace_name_is_sanitized toy_utcnow "__ex ample!!.com/"
           "20240101000000" toy_world toy_world).
  reflexivity.
Defined.

End EngineExtraExampleFacts.

(** * Properties of the module selection *)

Module SelectorFacts.
Import Engine Orchestrator Selector SelectorSpec ResolverSpec.
Import OrderModulesFacts ClosureFacts ResolverFacts ResolverExtraFacts.

(** A loop that adds the modules of every rule whose test holds. *)
Lemma rules_fold_elem (test : string → bool)
    (rules : list (string * list string)) (selected : gset string) (m : string) :
  m ∈ foldl (λ selected entry,
               if test entry.1 then update selected entry.2 else selected)
            selected rules
  ↔ m ∈ selected ∨
    ∃ key modules, (key, modules) ∈ rules ∧ test key = true ∧ m ∈ modules.
Proof.
  revert selected. induction rules as [|[k ms] rules IH]; intros selected; cbn.
  - split; [auto|]. intros [H|(k & ms & H & _)]; [done|]. inversion H.
  - rewrite IH. split.
    + intros [H|(k' & ms' & Hin & Ht & Hm)].
      * destruct (test k) eqn:Hk; [|by left].
        unfold update in H. apply elem_of_union in H as [H|H]; [by left|].
        right. exists k, ms. split_and!; [left|done|].
        by apply elem_of_list_to_set in H.
      * right. exists k', ms'. split_and!; [by right|done|done].
    + intros [H|(k' & ms' & Hin & Ht & Hm)].
      * left. destruct (test k); [|done]. unfold update.
        apply elem_of_union. by left.
      * apply elem_of_cons in Hin as [[= -> ->]|Hin].
        -- left. rewrite Ht. unfold update. apply elem_of_union. right.
           by apply elem_of_list_to_set.
        -- right. by exists k', ms'.
Qed.

Lemma scan_targets_elem (targets : list (string * list value))
    (selected : gset string) (m : string) :
  m ∈ scan_targets targets selected ↔ m ∈ selected ∨ target_fires targets m.
Proof.
  change (scan_targets targets selected)
    with (foldl (λ selected entry,
                   if target_given targets entry.1
                   then update selected entry.2 else selected)
                selected target_rules).
  apply rules_fold_elem.
Qed.

Lemma keyword_modules_known :
  Forall (λ entry, Forall (λ m, m ∈ MODULE_PRIORITY) entry.2)
         (keyword_map ++ target_rules ++ [("", fallback_modules)]).
Proof. apply (bool_decide_unpack _). vm_compute. exact I. Qed.

Lemma registry_covers_priority :
  Forall (λ m, ∃ c cs, Engine.MODULE_REGISTRY !! m = Some (c :: cs))
         MODULE_PRIORITY.
Proof. repeat constructor; eexists _, _; vm_compute; reflexivity. Qed.

Lemma priority_closed : closed dependencies (list_to_set MODULE_PRIORITY).
Proof.
  assert (H : map_Forall (λ _ ds, Forall (λ d, d ∈ MODULE_PRIORITY) ds)
                dependencies).
  { apply (bool_decide_unpack _). vm_compute. exact I. }
  intros m d _. unfold deps_get.
  destruct (dependencies !! m) as [ds|] eqn:Hm; cbn [from_option id].
  - intros Hd. specialize (H m ds Hm). cbn beta in H.
    apply elem_of_list_to_set. by apply (proj1 (Forall_forall _ _) H).
  - intros Hd. inversion Hd.
Qed.

Section Selector.
Variable str_lower : string → string.

Abbreviation scan_keywords := (scan_keywords).
Abbreviation scan_objectives := (scan_objectives str_lower).
Abbreviation _select_modules := (_select_modules str_lower).
Abbreviation keyword_fires := (keyword_fires str_lower).
Abbreviation rule_fires := (rule_fires str_lower).

Lemma scan_objectives_elem (objectives : list string) (selected : gset string)
    (m : string) :
  m ∈ scan_objectives objectives selected
  ↔ m ∈ selected ∨ keyword_fires objectives m.
Proof.
  unfold Selector.scan_objectives.
  revert selected. induction objectives as [|o objectives IH]; intros selected;
    cbn [foldl].
  - split; [auto|]. intros [H|(o & k & ms & H & _)]; [done|]. inversion H.
  - rewrite IH. unfold Selector.scan_keywords.
    pose proof (rules_fold_elem (λ k, str_contains k (str_lower o))
                  keyword_map selected m) as Hk.
    cbv beta in Hk. rewrite Hk. clear Hk. split.
    + intros [[H|(k & ms & Hin & Ht & Hm)]|(o' & k & ms & Ho & H)].
      * by left.
      * right. exists o, k, ms. split_and!; [left|done|done|done].
      * right. exists o', k, ms. split; [by right|done].
    + intros [H|(o' & k & ms & Ho & Hin & Ht & Hm)]; [by left; left|].
      apply elem_of_cons in Ho as [->|Ho].
      * left. right. by exists k, ms.
      * right. by exists o', k, ms.
Qed.

(** The set held by [selected] before the fallback test. *)
Lemma selected_elem (objectives : list string)
    (targets : list (string * list value)) (m : string) :
  m ∈ scan_targets targets (scan_objectives objectives ∅)
  ↔ rule_fires objectives targets m.
Proof.
  rewrite scan_targets_elem, scan_objectives_elem. unfold SelectorSpec.rule_fires.
  split; [intros [[H|H]|H]; [by apply not_elem_of_empty in H|by left|by right]|].
  intros [H|H]; [left; by right|by right].
Qed.

(** X17.  A module is selected exactly when a keyword of [keyword_map] that
    lists it occurs in a lower-cased objective, or a target rule that lists
    it finds its target list non-empty, or no rule fires at all and the
    module is one of the fallback triad. *)
Theorem select_modules_iff_rule_fires (objectives : list string)
    (targets : list (string * list value)) (m : string) :
  m ∈ _select_modules objectives targets
  ↔ rule_fires objectives targets m ∨
    ((∀ x, ¬ rule_fires objectives targets x) ∧ m ∈ fallback_modules).
Proof.
  unfold Selector._select_modules. cbv zeta.
  rewrite order_modules_elem, elem_of_elements.
  set (S := scan_targets targets (scan_objectives objectives ∅)).
  assert (HS : ∀ x, x ∈ S ↔ rule_fires objectives targets x)
    by apply selected_elem.
  destruct (decide (S = ∅)) as [He|Hne].
  - unfold update. rewrite He, elem_of_union, elem_of_list_to_set. split.
    + intros [H|H]; [by apply not_elem_of_empty in H|].
      right. split; [|done]. intros x Hx. apply HS in Hx. rewrite He in Hx.
      by apply not_elem_of_empty in Hx.
    + intros [H|[_ H]]; [|by right]. apply HS in H. rewrite He in H.
      by apply not_elem_of_empty in H.
  - rewrite HS. split; [by left|]. intros [H|[Hno _]]; [done|].
    exfalso. apply Hne. apply set_eq. intros x. split.
    + intros Hx. apply HS in Hx. by apply Hno in Hx.
    + intros Hx. by apply not_elem_of_empty in Hx.
Qed.

Lemma rule_fires_selected (objectives : list string)
    (targets : list (string * list value)) (m : string) :
  rule_fires objectives targets m → m ∈ _select_modules objectives targets.
Proof.
  intros Hm. unfold Selector._select_modules. cbv zeta.
  rewrite order_modules_elem, elem_of_elements.
  apply selected_elem in Hm.
  destruct (decide _); [|done]. unfold update. apply elem_of_union. by left.
Qed.

Lemma rule_fires_known (objectives : list string)
    (targets : list (string * list value)) (m : string) :
  rule_fires objectives targets m → m ∈ MODULE_PRIORITY.
Proof.
  pose proof keyword_modules_known as H.
  rewrite !Forall_app in H. destruct H as (Hk & Ht & _).
  intros [(o & k & ms & _ & Hin & _ & Hm)|(k & ms & Hin & _ & Hm)].
  - apply (proj1 (Forall_forall _ _) Hk) in Hin. cbn in Hin.
    by apply (proj1 (Forall_forall _ _) Hin).
  - apply (proj1 (Forall_forall _ _) Ht) in Hin. cbn in Hin.
    by apply (proj1 (Forall_forall _ _) Hin).
Qed.

Lemma select_modules_known (objectives : list string)
    (targets : list (string * list value)) (m : string) :
  m ∈ _select_modules objectives targets → m ∈ MODULE_PRIORITY.
Proof.
  intros Hm.
  assert (Hcases : rule_fires objectives targets m ∨ m ∈ fallback_modules).
  { revert Hm. unfold Selector._select_modules. cbv zeta.
    rewrite order_modules_elem, elem_of_elements.
    destruct (decide _) as [He|Hne].
    - unfold update. rewrite He, elem_of_union, elem_of_list_to_set.
      intros [H|H]; [by apply not_elem_of_empty in H|by right].
    - rewrite selected_elem. by left. }
  destruct Hcases as [H|H]; [by apply (rule_fires_known objectives targets)|].
  pose proof keyword_modules_known as Hk.
  rewrite !Forall_app in Hk. destruct Hk as (_ & _ & Hf).
  inversion Hf as [|? ? Hf' _]; subst. cbn in Hf'.
  by apply (proj1 (Forall_forall _ _) Hf').
Qed.

Lemma select_modules_nonempty (objectives : list string)
    (targets : list (string * list value)) :
  _select_modules objectives targets ≠ [].
Proof.
  unfold Selector._select_modules. cbv zeta.
  set (S := scan_targets targets (scan_objectives objectives ∅)).
  intros Hnil.
  assert (Hall : ∀ x, x ∉ (if decide (S = ∅)
                           then update S ["theHarvester"; "Sherlock"; "Twint"]
                           else S)).
  { intros x Hx. apply elem_of_elements in Hx.
    apply order_modules_elem in Hx. rewrite Hnil in Hx. inversion Hx. }
  destruct (decide (S = ∅)) as [He|Hne].
  - apply (Hall "theHarvester"). unfold update. apply elem_of_union. right.
    apply elem_of_list_to_set. left.
  - apply Hne. apply set_eq. intros x. split; [intros Hx; by apply Hall in Hx|].
    intros Hx. by apply not_elem_of_empty in Hx.
Qed.

Lemma sorted_outside_priority (S : gset string) :
  (∀ x, x ∈ S → x ∈ MODULE_PRIORITY) →
  sorted (list_to_set (elements S) ∖ list_to_set MODULE_PRIORITY) = [].
Proof.
  intros HS.
  assert (He : list_to_set (elements S) ∖ list_to_set MODULE_PRIORITY
               = (∅ : gset string)).
  { apply set_eq. intros x. rewrite elem_of_difference, !elem_of_list_to_set,
      elem_of_elements. split; [intros [Hx Hn]; destruct Hn; by apply HS|].
    intros Hx. by apply not_elem_of_empty in Hx. }
  rewrite He. unfold sorted. by rewrite elements_empty.
Qed.

(** X18.  The selection is never empty and is an order-preserving
    subsequence of [MODULE_PRIORITY]: only known ids, none twice, highest
    priority first. *)
Theorem select_modules_priority_subsequence (objectives : list string)
    (targets : list (string * list value)) :
  _select_modules objectives targets ≠ [] ∧
  sublist (_select_modules objectives targets) MODULE_PRIORITY ∧
  NoDup (_select_modules objectives targets).
Proof.
  split; [apply select_modules_nonempty|].
  split; [|apply order_modules_NoDup].
  pose proof (select_modules_known objectives targets) as Hknown.
  revert Hknown. unfold Selector._select_modules. cbv zeta.
  set (S := if decide _ then _ else _). intros Hknown.
  rewrite order_modules_closed, sorted_outside_priority, app_nil_r.
  - apply sublist_filter.
  - intros x Hx. apply Hknown. apply order_modules_elem.
    by apply elem_of_elements.
Qed.

(** X19.  When no keyword occurs in any objective and no target list is
    given, the selection is the fallback triad, in priority order. *)
Theorem select_modules_fallback (objectives : list string)
    (targets : list (string * list value)) :
  (∀ m, ¬ rule_fires objectives targets m) →
  _select_modules objectives targets = ["theHarvester"; "Sherlock"; "Twint"].
Proof.
  intros Hno. unfold Selector._select_modules. cbv zeta.
  set (S := scan_targets targets (scan_objectives objectives ∅)).
  assert (He : S = ∅).
  { apply set_eq. intros x. split.
    - intros Hx. apply selected_elem in Hx. by apply Hno in Hx.
    - intros Hx. by apply not_elem_of_empty in Hx. }
  rewrite He. rewrite decide_True by done.
  vm_compute. reflexivity.
Qed.

(** X20.  Whatever the objectives and targets, the execution order built
    from the selection exists, contains the selection, and names only
    modules of [MODULE_PRIORITY] that have at least one registered
    implementation candidate; no run can end with the section
    [unknown]. *)
Theorem selected_order_is_registered (objectives : list string)
    (targets : list (string * list value)) :
  ∃ order,
    _build_execution_order (_select_modules objectives targets) = Some order ∧
    (∀ m, m ∈ _select_modules objectives targets → m ∈ order) ∧
    ∀ m, m ∈ order →
      m ∈ MODULE_PRIORITY ∧
      ∃ c cs, Engine.MODULE_REGISTRY !! m = Some (c :: cs).
Proof.
  destruct (resolver_run dependencies (_select_modules objectives targets))
    as (expanded & st & Hcl & Hst & Hord & Hsel & _).
  destruct (dependency_closure_spec dependencies
              (_select_modules objectives targets))
    as (expanded' & Hcl' & _ & _ & Hmin).
  rewrite Hcl in Hcl'. injection Hcl' as <-.
  exists (ordered st). split_and!.
  - unfold _build_execution_order, build_execution_order_with.
    by rewrite Hst.
  - intros m Hm. apply Hord. by apply Hsel.
  - intros m Hm. apply Hord in Hm.
    assert (Hp : m ∈ MODULE_PRIORITY).
    { apply (elem_of_list_to_set (C:=gset string)).
      apply (Hmin (list_to_set MODULE_PRIORITY)); [|apply priority_closed|done].
      intros x Hx. apply elem_of_list_to_set.
      by apply (select_modules_known objectives targets). }
    split; [done|].
    by apply (proj1 (Forall_forall _ _) registry_covers_priority).
Qed.

End Selector.
End SelectorFacts.

(** * Properties of the target extraction *)

Module TargetFacts.
Import Engine Orchestrator Selector SelectorSpec TargetSpec EngineFacts.
Import SelectorFacts.

Lemma profile_section_run (section : string) (w : World) :
  profile_section section w
  = (w, inr (default (VDict []) (assoc_get section (w_profile w)))).
Proof. reflexivity. Qed.

Lemma get_list_run (w : World) (section key : string) (keys : list string) :
  list_fields (w_profile w) section keys → key ∈ keys →
  get_list (default (VDict []) (assoc_get section (w_profile w))) key w
  = (w, inr (field_list (w_profile w) section key)).
Proof.
  unfold list_fields, field_list, get_list, get_or_empty.
  unfold mbind, py_bind, lift, mret, py_ret.
  destruct (assoc_get section (w_profile w)) as [v|];
    cbn [from_option id value_get assoc_get]; [|done].
  destruct v as [| | | | | |d]; try done. cbn [value_get].
  intros H Hk. specialize (H key Hk).
  destruct (assoc_get key d) as [[| | | | |[]|]|]; done.
Qed.

(** X21.  On a profile whose identity, contact, digital and business
    sections are absent or mappings with list-valued (or absent, or [None])
    target fields, [_extract_targets] does not raise, leaves the state as it
    is, and returns the eight target lists in the order written: the stored
    lists, [[]] for what is not stored, and the full name alone under
    [names] when it is truthy. *)
Theorem extract_targets_on_well_formed (w : World) :
  target_sections_well_formed (w_profile w) →
  _extract_targets w = (w, inr (targets_of (w_profile w))).
Proof.
  intros (Hid & Hi & Hc & Hd & Hb). unfold _extract_targets.
  rewrite !(bind_returns _ _ _ _ _ (profile_section_run _ w)).
  assert (Hnames :
    (condition ← lift (value_get (default (VDict [])
                         (assoc_get "identity" (w_profile w))) "full_name");
     if truthy (default VNone condition)
     then full_name ← lift (value_get (default (VDict [])
                              (assoc_get "identity" (w_profile w))) "full_name");
          mret [default VNone full_name]
     else mret []) w = (w, inr (full_names (w_profile w)))).
  { unfold full_names, mbind, py_bind, lift, mret, py_ret.
    destruct (assoc_get "identity" (w_profile w)) as [v|];
      cbn [from_option id value_get assoc_get truthy]; [|done].
    destruct v as [| | | | | |d]; try done. cbn [value_get].
    destruct (assoc_get "full_name" d) as [v|]; cbn [from_option id truthy];
      [|done].
    by destruct (truthy v). }
  revert Hnames. unfold mbind at 1 3. unfold py_bind at 1 3.
  destruct (lift (value_get _ "full_name") w) as [w0 [e|condition]];
    [by intros [= _ ?]|].
  intros Hnames. rewrite (bind_returns _ _ _ _ _ Hnames).
  rewrite (bind_returns _ _ _ _ _ (get_list_run w "identity" "aliases" _ Hi
             ltac:(set_solver))).
  rewrite (bind_returns _ _ _ _ _ (get_list_run w "contact" "emails" _ Hc
             ltac:(set_solver))).
  rewrite (bind_returns _ _ _ _ _ (get_list_run w "contact" "phones" _ Hc
             ltac:(set_solver))).
  rewrite (bind_returns _ _ _ _ _ (get_list_run w "contact" "usernames" _ Hc
             ltac:(set_solver))).
  rewrite (bind_returns _ _ _ _ _ (get_list_run w "digital" "domains" _ Hd
             ltac:(set_solver))).
  rewrite (bind_returns _ _ _ _ _ (get_list_run w "digital" "ips" _ Hd
             ltac:(set_solver))).
  rewrite (bind_returns _ _ _ _ _ (get_list_run w "business" "company_names" _
             Hb ltac:(set_solver))).
  reflexivity.
Qed.

Lemma read_only_get_list (container : value) (key : string) :
  read_only (get_list container key).
Proof.
  unfold get_list, get_or_empty.
  repeat (apply read_only_bind; [|intros ?]);
    first [apply read_only_lift | apply read_only_mret].
Qed.

Lemma bind_read_only_inv {A B : Type} (m : Py A) (k : A → Py B)
    (w w' : World) (b : B) :
  read_only m → (m ≫= k) w = (w', inr b) →
  ∃ a, m w = (w, inr a) ∧ k a w = (w', inr b).
Proof.
  intros Hm. unfold mbind, py_bind. specialize (Hm w).
  destruct (m w) as [w1 [e|a]]; cbn in Hm; subst; [done|]. eauto.
Qed.

(** Every step of [_extract_targets] reads only: the entry [domains] of
    its result is what [list(digital.get("domains") or [])] gives in the
    initial state. *)
Lemma extract_targets_domains (w w' : World)
    (targets : list (string * list value)) :
  _extract_targets w = (w', inr targets) →
  ∃ found,
    get_list (default (VDict []) (assoc_get "digital" (w_profile w)))
             "domains" w = (w, inr found) ∧
    assoc_get "domains" targets = Some found.
Proof.
  unfold _extract_targets.
  rewrite !(bind_returns _ _ _ _ _ (profile_section_run _ w)).
  intros H.
  apply bind_read_only_inv in H as (condition & _ & H);
    [|apply read_only_lift].
  apply bind_read_only_inv in H as (names & _ & H).
  2:{ destruct (truthy _); [|apply read_only_mret].
      apply read_only_bind; [apply read_only_lift|].
      intros ?. apply read_only_mret. }
  apply bind_read_only_inv in H as (aliases & _ & H);
    [|apply read_only_get_list].
  apply bind_read_only_inv in H as (emails & _ & H);
    [|apply read_only_get_list].
  apply bind_read_only_inv in H as (phones & _ & H);
    [|apply read_only_get_list].
  apply bind_read_only_inv in H as (usernames & _ & H);
    [|apply read_only_get_list].
  apply bind_read_only_inv in H as (domains & Hdomains & H);
    [|apply read_only_get_list].
  apply bind_read_only_inv in H as (ips & _ & H);
    [|apply read_only_get_list].
  apply bind_read_only_inv in H as (company_names & _ & H);
    [|apply read_only_get_list].
  injection H as _ <-. by exists domains.
Qed.

(** X22.  An [identity] section that is present but not a mapping (for
    instance [None] or a list) makes [_extract_targets] raise
    [AttributeError], with the state unchanged. *)
Theorem extract_targets_rejects_non_mapping (w : World) (v : value) :
  assoc_get "identity" (w_profile w) = Some v → (∀ d, v ≠ VDict d) →
  ∃ message, _extract_targets w = (w, inl (AttributeError message)).
Proof.
  intros Hv Hnd. unfold _extract_targets.
  rewrite !(bind_returns _ _ _ _ _ (profile_section_run _ w)).
  rewrite Hv. cbn [from_option id].
  destruct v as [| | | | | |d]; try (eexists; reflexivity). by destruct (Hnd d).
Qed.

Section Selector.
Variable str_lower : string → string.

(** X23.  A profile that stores at least one domain always gets the domain
    chain: whenever [_extract_targets] returns, whatever the objectives,
    theHarvester, Photon, Recon-ng and SpiderFoot are all in the selection
    made from the extracted targets. *)
Theorem stored_domain_selects_chain (w w' : World)
    (targets : list (string * list value)) (objectives : list string)
    (digital : list (string * value)) (domain : value) (others : list value) :
  assoc_get "digital" (w_profile w) = Some (VDict digital) →
  assoc_get "domains" digital = Some (VList (domain :: others)) →
  _extract_targets w = (w', inr targets) →
  Forall (λ m, m ∈ _select_modules str_lower objectives targets)
         ["theHarvester"; "Photon"; "Recon-ng"; "SpiderFoot"].
Proof.
  intros Hdigital Hdomains Hrun.
  assert (Hgiven : target_given targets "domains" = true).
  { apply extract_targets_domains in Hrun as (found & Hfound & Hget).
    unfold target_given. rewrite Hget.
    revert Hfound. rewrite Hdigital. cbn [from_option id].
    unfold get_list, get_or_empty, lift, mbind, py_bind, mret, py_ret, py_or.
    cbn [value_get]. rewrite Hdomains. cbn [from_option id truthy py_list].
    by intros [= <-]. }
  apply Forall_forall. intros m Hm.
  apply rule_fires_selected. right.
  exists "domains", ["theHarvester"; "Photon"; "Recon-ng"; "SpiderFoot"].
  split_and!; [|done|done]. unfold target_rules. set_solver.
Qed.

End Selector.
End TargetFacts.

Module SelectorExampleFacts.
Import Engine Orchestrator Selector SelectorSpec TargetSpec.
Import SelectorExample SelectorFacts TargetFacts.

Lemma select_modules_fallback_witness :
  _select_modules toy_lower ["general_osint_collection"] (targets_of [])
  = ["theHarvester"; "Sherlock"; "Twint"].
Proof.
  apply (select_modules_fallback toy_lower).
  intros m [(o & k & ms & Ho & Hin & Ht & _)|(k & ms & Hin & Ht & _)].
  - apply list_elem_of_singleton in Ho. subst o.
    assert (H : Forall (λ e, str_contains e.1
                               (toy_lower "general_osint_collection") = false)
                       keyword_map).
    { apply (bool_decide_unpack _). vm_compute. exact I. }
    apply (proj1 (Forall_forall _ _) H) in Hin. cbn [fst] in Hin. congruence.
  - assert (H : Forall (λ e, target_given (targets_of []) e.1 = false)
                       target_rules).
    { apply (bool_decide_unpack _). vm_compute. exact I. }
    apply (proj1 (Forall_forall _ _) H) in Hin. cbn [fst] in Hin. congruence.
Defined.

Lemma domain_world_well_formed :
  target_sections_well_formed (w_profile domain_world).
Proof.
  unfold target_sections_well_formed, list_fields. cbn.
  split_and!; try exact I;
    intros key Hk;
    repeat (apply elem_of_cons in Hk as [->|Hk]; [vm_compute; exact I|]);
    inversion Hk.
Qed.

Lemma extract_targets_on_well_formed_witness :
  _extract_targets domain_world
  = (domain_world,
     inr [ ("names", [VStr "Jane Doe"]); ("aliases", []); ("emails", []);
           ("phones", []); ("usernames", []);
           ("domains", [VStr "example.com"]); ("ips", []);
           ("company_names", []) ]).
Proof.
  apply (extract_targets_on_well_formed domain_world).
  apply domain_world_well_formed.
Defined.

Lemma extract_targets_rejects_non_mapping_witness :
  ∃ message,
    _extract_targets {| w_profile := [("identity", VNone)]; w_log := [] |}
    = ({| w_profile := [("identity", VNone)]; w_log := [] |},
       inl (AttributeError message)).
Proof.
  apply (extract_targets_rejects_non_mapping
           {| w_profile := [("identity", VNone)]; w_log := [] |} VNone).
  - reflexivity.
  - discriminate.
Defined.

Lemma stored_domain_selects_chain_witness :
  Forall (λ m, m ∈ _select_modules toy_lower ["Map the social presence"]
                     (targets_of (w_profile domain_world)))
         ["theHarvester"; "Photon"; "Recon-ng"; "SpiderFoot"].
Proof.
  apply (stored_domain_selects_chain toy_lower domain_world domain_world
           (targets_of (w_profile domain_world)) ["Map the social presence"]
           [("domains", VList [VStr "example.com"])] (VStr "example.com") []).
  - reflexivity.
  - reflexivity.
  - vm_compute. reflexivity.
Defined.

End SelectorExampleFacts.

(** * Properties of the objective extraction *)

Module ObjectivesFacts.
Import Engine Selector Objectives EngineMoreSpec EngineFacts.

Section Objectives.
Variable str_lower : string → string.
Variable str_strip : string → string.

Abbreviation objective_step := (objective_step str_lower str_strip).
Abbreviation _extract_objectives := (_extract_objectives str_lower str_strip).

Lemma objective_step_keeps (objectives objectives' : list string) (doc : value)
    (w w' : World) :
  str_lower "" = "" →
  objective_step objectives doc w = (w', inr objectives') →
  w' = w ∧
  (Forall (λ o, o ≠ "") objectives → Forall (λ o, o ≠ "") objectives').
Proof.
  intros Hlow. unfold Objectives.objective_step.
  unfold mbind, py_bind, lift, mret, py_ret, raise.
  destruct (value_get doc "name") as [e|name_value]; [by intros [= _ ?]|].
  destruct (or_empty_strip str_strip name_value) as [e|name];
    [by intros [= _ ?]|].
  destruct (value_get doc "type") as [e|type_value]; [by intros [= _ ?]|].
  destruct (or_empty_strip str_strip type_value) as [e|stripped];
    [by intros [= _ ?]|].
  cbv zeta.
  destruct (String.prefix "objective" (str_lower stripped)
            || String.eqb (str_lower stripped) "goal").
  - destruct (String.eqb_spec name ""); intros [= <- <-]; [by split|].
    split; [done|]. intros H. apply Forall_app. split; [done|].
    by repeat constructor.
  - destruct (String.prefix "objective:" (str_lower name)
              || String.prefix "goal:" (str_lower name)) eqn:Hp;
      [|by intros [= <- <-]].
    destruct (after_colon name) as [rest|]; [|by intros [= _ ?]].
    intros [= <- <-]. split; [done|]. intros H. apply Forall_app.
    split; [done|]. constructor; [|constructor].
    destruct (String.eqb_spec (str_strip rest) ""); [|done].
    intros ->. rewrite Hlow in Hp. cbn in Hp. discriminate.
Qed.

Lemma objectives_fold_keeps (documents : list value)
    (objectives objectives' : list string) (w w' : World) :
  str_lower "" = "" →
  py_fold objective_step documents objectives w = (w', inr objectives') →
  w' = w ∧
  (Forall (λ o, o ≠ "") objectives → Forall (λ o, o ≠ "") objectives').
Proof.
  intros Hlow. revert objectives w.
  induction documents as [|doc documents IH]; intros objectives w; cbn [py_fold].
  - by intros [= <- <-].
  - unfold mbind, py_bind.
    destruct (objective_step objectives doc w) as [w1 [e|objectives1]] eqn:Hstep;
      [by intros [= _ ?]|].
    apply (objective_step_keeps _ _ _ _ _ Hlow) in Hstep as [-> Hne].
    intros Hrest. apply IH in Hrest as [-> Hne']. auto.
Qed.

(** X24.  Whenever [_extract_objectives] returns, it returns at least one
    objective, none of them the empty string, and it has changed nothing in
    the state.  The lower-casing is only assumed to map the empty string to
    itself. *)
Theorem extracted_objectives_nonempty (objectives : list string)
    (w w' : World) :
  str_lower "" = "" →
  _extract_objectives w = (w', inr objectives) →
  objectives ≠ [] ∧ Forall (λ o, o ≠ "") objectives ∧ w' = w.
Proof.
  intros Hlow. unfold Objectives._extract_objectives.
  unfold mbind at 1 2 3 4. unfold py_bind at 1 2 3 4.
  unfold profile_section, profile_get, mbind, py_bind, mret, py_ret.
  unfold get_or_empty, lift, mbind, py_bind, mret, py_ret.
  destruct (value_get _ "documents") as [e|found]; [by intros [= _ ?]|].
  destruct (py_list _) as [e|documents]; [by intros [= _ ?]|].
  destruct (py_fold objective_step documents [] w) as [w1 [e|os]] eqn:Hfold;
    [by intros [= _ ?]|].
  apply (objectives_fold_keeps _ _ _ _ _ Hlow) in Hfold as [-> Hne].
  specialize (Hne ltac:(constructor)).
  destruct os as [|o os]; intros [= <- <-].
  - split_and!; [done| |done]. by repeat constructor.
  - done.
Qed.

(** X25.  A profile without metadata documents (no metadata section, or a
    mapping in which [documents] is absent or falsy) gets the single
    default objective [general_osint_collection]. *)
Theorem no_documents_default_objective (w : World) :
  field_falsy (w_profile w) "metadata" "documents" →
  _extract_objectives w = (w, inr ["general_osint_collection"]).
Proof.
  unfold field_falsy, Objectives._extract_objectives.
  unfold profile_section, get_or_empty, profile_get, lift.
  unfold mbind, py_bind, mret, py_ret, py_or.
  destruct (assoc_get "metadata" (w_profile w)) as [v|];
    cbn [from_option id value_get assoc_get]; [|done].
  destruct v as [| | | | | |d]; try done. cbn [value_get].
  by intros ->.
Qed.

End Objectives.
End ObjectivesFacts.

Module ObjectivesExampleFacts.
Import Engine Selector Objectives EngineMoreSpec SelectorExample.
Import ObjectivesExample ObjectivesFacts EngineMoreExample.

Lemma extracted_objectives_nonempty_witness :
  [ "Map the domain footprint"; "find usernames" ] ≠ [] ∧
  Forall (λ o, o ≠ "") [ "Map the domain footprint"; "find usernames" ] ∧
  documents_world = documents_world.
Proof.
  apply (extracted_objectives_nonempty toy_lower toy_strip
           [ "Map the domain footprint"; "find usernames" ]
           documents_world documents_world).
  - reflexivity.
  - vm_compute. reflexivity.
Defined.

Lemma no_documents_default_objective_witness :
  _extract_objectives toy_lower toy_strip no_target_world
  = (no_target_world, inr ["general_osint_collection"]).
Proof.
  apply (no_documents_default_objective toy_lower toy_strip no_target_world).
  exact I.
Defined.

End ObjectivesExampleFacts.

(** * Properties of the module base class *)

Module ModuleBaseFacts.
Import ModuleBase ModuleBaseSpec EngineFacts.

Lemma check_required_ok (payload : list (string * value)) (payload_name : string)
    (required_fields : list string) :
  check_required payload payload_name required_fields = inr tt
  ↔ ∀ field, field ∈ required_fields → is_Some (assoc_get field payload).
Proof.
  induction required_fields as [|f rest IH]; cbn [check_required].
  - split; [|done]. intros _ field H. inversion H.
  - destruct (assoc_get f payload) as [v|] eqn:Hf.
    + rewrite IH. split.
      * intros H field Hin. apply elem_of_cons in Hin as [->|Hin]; [|by apply H].
        rewrite Hf. by eexists.
      * intros H field Hin. apply H. by right.
    + split; [done|]. intros H. specialize (H f ltac:(left)).
      rewrite Hf in H. by destruct H.
Qed.

Lemma check_type_ok (payload_name field_name : string) (v expected_type : value) :
  check_type payload_name field_name v expected_type = inr tt
  ↔ conforms expected_type v.
Proof.
  unfold check_type, conforms.
  destruct expected_type as [|b|z|q|name|l|d]; cbn [truthy].
  - done.
  - by destruct b.
  - by destruct (negb _).
  - by destruct (negb _).
  - unfold _TYPE_MAPPING. cbn [assoc_get].
    assert (Hfalsy : name = "" → negb (String.eqb name "") = false)
      by (by intros ->).
    repeat (destruct (decide (name = _)) as [->|?];
            [cbn [negb String.eqb Ascii.eqb]; destruct v; split;
               first [done | by intros [? [=]] | by eauto
                     | by intros [[? [=]]|[? [=]]]
                     | by intros [[? [=]]|[[? [=]]|[? [=]]]]
                     | by intros; eauto ]|]).
    by destruct (negb _).
  - destruct l; [done|]. split; [done|tauto].
  - destruct d; [done|]. split; [done|tauto].
Qed.

Lemma check_properties_ok (payload : list (string * value)) (payload_name : string)
    (props : list (string * value)) :
  check_properties payload payload_name props = inr tt
  ↔ ∀ field_name expected_type v,
      (field_name, expected_type) ∈ props →
      assoc_get field_name payload = Some v → conforms expected_type v.
Proof.
  induction props as [|[f t] rest IH]; cbn [check_properties].
  - split; [|done]. intros _ ? ? ? H. inversion H.
  - destruct (assoc_get f payload) as [v|] eqn:Hf.
    + destruct (check_type payload_name f v t) as [exc|[]] eqn:Ht.
      * split; [done|]. intros H.
        assert (Hc : conforms t v) by (apply (H f t v); [left|done]).
        apply (check_type_ok payload_name f) in Hc. congruence.
      * rewrite IH. apply check_type_ok in Ht. split.
        -- intros H f' t' v' Hin Hget.
           apply elem_of_cons in Hin as [[= -> ->]|Hin]; [|by eapply H].
           rewrite Hf in Hget. by injection Hget as <-.
        -- intros H f' t' v' Hin. apply H. by right.
    + rewrite IH. split.
      * intros H f' t' v' Hin Hget.
        apply elem_of_cons in Hin as [[= -> ->]|Hin]; [congruence|by eapply H].
      * intros H f' t' v' Hin. apply H. by right.
Qed.

Lemma validate_ok_valid (payload : list (string * value)) (sch : schema)
    (payload_name : string) :
  _validate_against_schema payload sch payload_name = inr tt → valid payload sch.
Proof.
  unfold _validate_against_schema, valid.
  destruct (check_required payload payload_name (required sch)) as [exc|[]] eqn:Hr;
    [done|].
  intros Hp. split.
  - by apply (check_required_ok payload payload_name).
  - by apply (check_properties_ok payload payload_name).
Qed.

Lemma valid_validate_ok (payload : list (string * value)) (sch : schema)
    (payload_name : string) :
  valid payload sch → _validate_against_schema payload sch payload_name = inr tt.
Proof.
  intros [Hr Hp]. unfold _validate_against_schema.
  apply (check_required_ok payload payload_name) in Hr. rewrite Hr.
  by apply check_properties_ok.
Qed.

(** X26.  [_validate_against_schema] accepts a payload exactly when every
    required field is a key of it and every property it carries is of the
    class its definition names; a type name outside [_TYPE_MAPPING] or a
    falsy type constrains nothing, [bool] values pass as [integer] and
    [number], and a type given as a non-empty list or dict is never
    accepted. *)
Theorem validate_accepts_iff_valid (payload : list (string * value))
    (sch : schema) (payload_name : string) :
  _validate_against_schema payload sch payload_name = inr tt ↔ valid payload sch.
Proof.
  unfold _validate_against_schema, valid.
  rewrite <- (check_required_ok payload payload_name),
    <- (check_properties_ok payload payload_name).
  destruct (check_required payload payload_name (required sch)) as [exc|[]].
  - split; [done|]. by intros [? _].
  - tauto.
Qed.

(** X27.  A missing required field is reported before any type error: the
    exception is the [ValueError] naming the first required field that is
    not a key of the payload, whatever the types of the fields present. *)
Theorem missing_required_reported_first (payload : list (string * value))
    (sch : schema) (payload_name : string) (pre post : list string)
    (field : string) :
  required sch = pre ++ field :: post →
  (∀ g, g ∈ pre → is_Some (assoc_get g payload)) →
  assoc_get field payload = None →
  _validate_against_schema payload sch payload_name
  = inl (ValueError
           (String.append payload_name
              (String.append " is missing required field '"
                 (String.append field "'.")))).
Proof.
  intros Hreq Hpre Hf. unfold _validate_against_schema. rewrite Hreq. clear Hreq.
  assert (H : check_required payload payload_name (pre ++ field :: post)
              = inl (ValueError
                       (String.append payload_name
                          (String.append " is missing required field '"
                             (String.append field "'."))))).
  { induction pre as [|g pre IH]; cbn [check_required app].
    - by rewrite Hf.
    - destruct (Hpre g ltac:(left)) as [v ->]. apply IH.
      intros g' Hg'. apply Hpre. by right. }
  by rewrite H.
Qed.

Section Module.
Variable module_name : string.
Variables profile_schema output_schema : schema.
Variable _execute_impl : Py value.
Variable json_dumps : value → Py string.

Abbreviation execute :=
  (execute module_name profile_schema output_schema _execute_impl json_dumps).

(** X28.  Whatever the implementation, a result returned by [execute] went
    through the whole pipeline: the profile it was given is valid for the
    profile schema, the result is the dict returned by [_execute_impl] and
    is valid for the output schema, and the last thing done is one [info]
    log entry carrying the module tag. *)
Theorem execute_returns_validated_output (w w' : World) (output : value) :
  execute w = (w', inr output) →
  ∃ d w1 w2 serialized,
    valid (w_profile w) profile_schema ∧
    _execute_impl w = (w1, inr output) ∧ output = VDict d ∧
    valid d output_schema ∧
    json_dumps (VDict [("module", VStr module_name); ("result", output)]) w1
    = (w2, inr serialized) ∧
    w' = {| w_profile := w_profile w2;
            w_log := w_log w2 ++
              [("info",
                String.append "[intel-module:"
                  (String.append module_name
                     (String.append "] " serialized)))] |}.
Proof.
  unfold ModuleBase.execute, validate_input, validate_output, log_result.
  unfold mbind, py_bind, mret, py_ret, lift, raise, log.
  destruct (_validate_against_schema (w_profile w) profile_schema "profile")
    as [exc|[]] eqn:Hin; [by intros [= _ ?]|].
  destruct (_execute_impl w) as [w1 [exc|result]]; [by intros [= _ ?]|].
  destruct result as [| | | | | |d]; try by intros [= _ ?].
  destruct (_validate_against_schema d output_schema "output")
    as [exc|[]] eqn:Hout; [by intros [= _ ?]|].
  destruct (json_dumps _ w1) as [w2 [exc|serialized]] eqn:Hdump;
    [by intros [= _ ?]|].
  intros [= <- <-]. exists d, w1, w2, serialized.
  split_and!; try done; by eapply validate_ok_valid.
Qed.

(** X29.  [execute] raises what the validator raises and does not undo
    anything: on an invalid profile [_execute_impl] is never run and the
    state is untouched; on an invalid output the exception is raised from
    the state the implementation left, and nothing is logged. *)
Theorem execute_propagates_validation_errors (w : World) (exc : Exn) :
  (_validate_against_schema (w_profile w) profile_schema "profile" = inl exc →
   execute w = (w, inl exc)) ∧
  (∀ w1 d,
     valid (w_profile w) profile_schema →
     _execute_impl w = (w1, inr (VDict d)) →
     _validate_against_schema d output_schema "output" = inl exc →
     execute w = (w1, inl exc)).
Proof.
  unfold ModuleBase.execute, validate_input, validate_output, log_result.
  unfold mbind, py_bind, mret, py_ret, lift, raise, log. split.
  - by intros ->.
  - intros w1 d Hin Himpl Hout.
    apply (valid_validate_ok _ _ "profile") in Hin. by rewrite Hin, Himpl, Hout.
Qed.

End Module.
End ModuleBaseFacts.

Module ModuleBaseExampleFacts.
Import ModuleBase ModuleBaseSpec ModuleBaseExample ModuleBaseFacts.

Lemma missing_required_reported_first_witness :
  _validate_against_schema [("hits", VStr "many")] toy_output_schema "output"
  = inl (ValueError "output is missing required field 'digital'.").
Proof.
  apply (missing_required_reported_first [("hits", VStr "many")]
           toy_output_schema "output" [] [] "digital").
  - reflexivity.
  - intros g Hg. inversion Hg.
  - reflexivity.
Defined.

Lemma execute_returns_validated_output_witness :
  ∃ d w1 w2 serialized,
    valid (w_profile typed_world) toy_profile_schema ∧
    toy_impl typed_world
    = (w1, inr (VDict [("digital", VDict [("domains", VList [VStr "example.com"])]);
                       ("hits", VBool true)])) ∧
    VDict [("digital", VDict [("domains", VList [VStr "example.com"])]);
           ("hits", VBool true)] = VDict d ∧
    valid d toy_output_schema ∧
    toy_dumps (VDict [("module", VStr "Toy_Module");
                      ("result",
                       VDict [("digital",
                               VDict [("domains", VList [VStr "example.com"])]);
                              ("hits", VBool true)])]) w1
    = (w2, inr serialized) ∧
    {| w_profile :=
         [("identity", VDict [("full_name", VStr "Jane Doe")]);
          ("digital", VDict [("domains", VList [VStr "example.com"])])];
       w_log := [("info", "[intel-module:Toy_Module] {}")] |}
    = {| w_profile := w_profile w2;
         w_log := w_log w2 ++
           [("info",
             String.append "[intel-module:"
               (String.append "Toy_Module" (String.append "] " serialized)))] |}.
Proof.
  apply (execute_returns_validated_output "Toy_Module" toy_profile_schema
           toy_output_schema toy_impl toy_dumps typed_world).
  vm_compute. reflexivity.
Defined.

Lemma execute_propagates_validation_errors_witness :
  execute "Toy_Module" toy_profile_schema toy_output_schema toy_impl toy_dumps
    ill_typed_world
  = (ill_typed_world,
     inl (TypeError "profile.identity should be of type 'object'.")).
Proof.
  apply (proj1 (execute_propagates_validation_errors "Toy_Module"
                  toy_profile_schema toy_output_schema toy_impl toy_dumps
                  ill_typed_world
                  (TypeError "profile.identity should be of type 'object'."))).
  vm_compute. reflexivity.
Defined.

End ModuleBaseExampleFacts.

(** * Properties of the orchestration run *)

Module PipelineFacts.
Import Engine Orchestrator Selector Objectives Pipeline ResolverSpec.
Import EngineFacts ResolverFacts ResolverExtraFacts.

Section Pipeline.
Variables PyModule ModuleClass ModuleInstance : Type.
Variable import_module : string → Py PyModule.
Variable getattr_class : PyModule → string → Py ModuleClass.
Variable construct : ModuleClass → list (string * kwarg) → Py ModuleInstance.
Variable execute : ModuleInstance → Py value.
Variable utcnow_stamp : Py string.
Variable py_repr : value → string.
Variable str_lower : string → string.
Variable str_strip : string → string.
Variable Timestamp : Type.
Variable utcnow : Py Timestamp.
Variable isoformat : Timestamp → string.
Variable total_seconds : Timestamp → Timestamp → Q.

Abbreviation _execute_impl :=
  (_execute_impl _ _ _ import_module getattr_class construct execute
                 utcnow_stamp py_repr str_lower str_strip Timestamp utcnow
                 isoformat total_seconds).
Abbreviation orchestration_value :=
  (orchestration_value Timestamp isoformat total_seconds).
Abbreviation _select_modules := (_select_modules str_lower).
Abbreviation _extract_objectives := (_extract_objectives str_lower str_strip).

(** X30.  Once objectives and targets are extracted, [_execute_impl]
    cannot fail on account of the modules: with a clock that answers, it
    returns the dict whose only key is [orchestration], holding the
    objectives, the selection, the execution order built from it and one
    result per scheduled module, and the same record is what the profile
    holds under [orchestration] afterwards. *)
Theorem orchestration_is_recorded (w w0 w1 w2 : World) (started_at : Timestamp)
    (objectives : list string) (targets : list (string * list value)) :
  (∀ w, ∃ w' t, utcnow w = (w', inr t)) →
  utcnow w = (w0, inr started_at) →
  _extract_objectives w0 = (w1, inr objectives) →
  _extract_targets w1 = (w2, inr targets) →
  ∃ w' execution_order module_results completed_at,
    _build_execution_order (_select_modules objectives targets)
    = Some execution_order ∧
    rec_module <$> module_results = execution_order ∧
    _execute_impl w
    = Some (w', inr (VDict [("orchestration",
               orchestration_value objectives
                 (_select_modules objectives targets) execution_order
                 module_results started_at completed_at)])) ∧
    assoc_get "orchestration" (w_profile w')
    = Some (orchestration_value objectives
              (_select_modules objectives targets) execution_order
              module_results started_at completed_at).
Proof.
  intros Hclock Hstart Hobj Htgt.
  destruct (ranked_table_never_warns dependencies static_rank
              (_select_modules objectives targets) dependencies_ranked)
    as (st & Hst & Hquiet).
  destruct (run_modules_returns _ _ _ import_module getattr_class construct
              execute utcnow_stamp py_repr (ordered st) w2)
    as (w3 & module_results & Hrun & Hmods).
  destruct (Hclock w3) as (w4 & completed_at & Hdone).
  exists {| w_profile :=
              assoc_set "orchestration"
                (orchestration_value objectives
                   (_select_modules objectives targets) (ordered st)
                   module_results started_at completed_at) (w_profile w4);
            w_log := w_log w4 |},
    (ordered st), module_results, completed_at.
  split_and!.
  - unfold _build_execution_order, build_execution_order_with. by rewrite Hst.
  - done.
  - unfold Pipeline._execute_impl.
    rewrite (bind_returns _ _ _ _ _ Hstart), (bind_returns _ _ _ _ _ Hobj),
      (bind_returns _ _ _ _ _ Htgt).
    unfold mret at 1. unfold py_ret at 1. cbv zeta. rewrite Hst.
    cbn [mbind option_bind]. f_equal. unfold run_selected. rewrite Hquiet.
    cbn [log_cycles py_fold]. cbv zeta.
    unfold mbind at 1. unfold py_bind at 1. unfold mret at 1. unfold py_ret at 1.
    rewrite (bind_returns _ _ _ _ _ Hrun), (bind_returns _ _ _ _ _ Hdone).
    reflexivity.
  - cbn [w_profile]. apply assoc_get_set_eq.
Qed.

End Pipeline.
End PipelineFacts.

Module PipelineExampleFacts.
Import Engine Orchestrator Selector Objectives Pipeline TargetSpec.
Import EngineExample SelectorExample ObjectivesExample PipelineExample.
Import PipelineFacts.

(** A profile that stores one domain, no documents: the default objective,
    the domain chain, four records. *)
Lemma orchestration_is_recorded_witness :
  ∃ w' execution_order module_results completed_at,
    _build_execution_order
      (_select_modules toy_lower ["general_osint_collection"]
         (targets_of (w_profile domain_world)))
    = Some execution_order ∧
    rec_module <$> module_results = execution_order ∧
    _execute_impl string string string toy_import toy_getattr toy_construct
      toy_execute toy_utcnow toy_repr toy_lower toy_strip nat toy_clock
      toy_isoformat toy_seconds domain_world
    = Some (w', inr (VDict [("orchestration",
               orchestration_value nat toy_isoformat toy_seconds
                 ["general_osint_collection"]
                 (_select_modules toy_lower ["general_osint_collection"]
                    (targets_of (w_profile domain_world)))
                 execution_order module_results 0 completed_at)])) ∧
    assoc_get "orchestration" (w_profile w')
    = Some (orchestration_value nat toy_isoformat toy_seconds
              ["general_osint_collection"]
              (_select_modules toy_lower ["general_osint_collection"]
                 (targets_of (w_profile domain_world)))
              execution_order module_results 0 completed_at).
Proof.
  apply (orchestration_is_recorded string string string toy_import toy_getattr
           toy_construct toy_execute toy_utcnow toy_repr toy_lower toy_strip
           nat toy_clock toy_isoformat toy_seconds
           domain_world domain_world domain_world domain_world 0
           ["general_osint_collection"] (targets_of (w_profile domain_world))).
  - intros w. exists w, 0. reflexivity.
  - reflexivity.
  - vm_compute. reflexivity.
  - vm_compute. reflexivity.
Defined.

End PipelineExampleFacts.

(** * Properties of the planner in double precision *)

Module Planner64Facts.
Import Binary64 Planner64 Planner64Spec.

Lemma insert_desc64_perm (x : suggestion) (l : list suggestion) :
  insert_desc x l ≡ₚ x :: l.
Proof.
  induction l as [|y l IH]; cbn [insert_desc]; [done|].
  destruct (ltb (score x) (score y)); [|done].
  rewrite IH. apply Permutation_swap.
Qed.

Lemma sort_desc64_perm (l : list suggestion) : sort_desc l ≡ₚ l.
Proof.
  induction l as [|x l IH]; cbn [sort_desc foldr]; [done|].
  rewrite insert_desc64_perm. fold (sort_desc l). by rewrite IH.
Qed.

Lemma read_only_analyze_section64 (gaps : list (string * gap_entry))
    (item : string * list string) :
  read_only (analyze_section gaps item).
Proof.
  unfold analyze_section.
  apply read_only_bind; [apply read_only_profile_get|]. intros payload.
  apply read_only_bind; [apply SuggestFacts.read_only_section_missing|].
  intros missing. apply read_only_mret.
Qed.

Lemma read_only_analyze_gaps64 (reqs : list (string * list string)) :
  read_only (analyze_gaps reqs).
Proof.
  unfold analyze_gaps. apply read_only_py_fold.
  apply read_only_analyze_section64.
Qed.

(** The gap summary has one entry per section name. *)
Lemma analyze_fold64_NoDup (reqs : list (string * list string))
    (acc gaps : list (string * gap_entry)) (w w' : World) :
  py_fold analyze_section reqs acc w = (w', inr gaps) →
  NoDup acc.*1 → NoDup gaps.*1.
Proof.
  revert acc w. induction reqs as [|item reqs IH]; intros acc w; cbn [py_fold].
  - by intros [= _ <-].
  - unfold mbind at 1. unfold py_bind at 1.
    destruct (analyze_section acc item w) as [w1 [e|acc1]] eqn:Hstep;
      [by intros [= _ ?]|].
    intros Hrest Hnd. apply (IH _ _ Hrest).
    revert Hstep. unfold analyze_section, mbind, py_bind, mret, py_ret.
    destruct (profile_get item.1 w) as [w2 [e|payload]]; [by intros [= _ ?]|].
    destruct (Planner.section_missing payload item.2 w2) as [w3 [e|missing]];
      [by intros [= _ ?]|].
    intros [= _ <-]. by apply assoc_set_NoDup.
Qed.

Section Suggest.
Variable str_lower : string → string.

Abbreviation suggest_modules := (fun reqs => suggest_modules reqs str_lower).
Abbreviation emitted := (emitted str_lower).

(** What a returning call of [suggest_modules] has computed. *)
Lemma suggest_modules64_returns (reqs : list (string * list string))
    (history : option (list string)) (w w' : World)
    (suggestions : list suggestion) :
  suggest_modules reqs history w = (w', inr suggestions) →
  ∃ gaps,
    w' = w ∧ analyze_gaps reqs w = (w, inr gaps) ∧ NoDup gaps.*1 ∧
    suggestions = sort_desc (candidate_suggestions str_lower
                               (Planner.executed_set str_lower history) gaps).
Proof.
  unfold Planner64.suggest_modules. cbv zeta. unfold mbind, py_bind.
  pose proof (read_only_analyze_gaps64 reqs w) as Hro.
  destruct (analyze_gaps reqs w) as [w1 [e|gaps]] eqn:Hgaps;
    [by intros [= _ ?]|].
  cbn [fst] in Hro. subst w1. intros [= <- <-]. exists gaps.
  split_and!; [done|done| |done].
  apply (analyze_fold64_NoDup reqs [] gaps w w Hgaps). constructor.
Qed.

Lemma suggest_candidates64_elem (executed : gset string) (details : gap_entry)
    (items : list (nat * string)) (acc : list suggestion) (s : suggestion) :
  s ∈ foldl (suggest_candidate str_lower executed details) acc items →
  s ∈ acc ∨ ∃ rank, (rank, module_name s) ∈ items ∧
                    (str_lower (module_name s) ∉ executed) ∧
                    score s = suggestion_score details rank.
Proof.
  revert acc. induction items as [|[rank name] items IH]; intros acc; cbn [foldl].
  - by left.
  - intros Hs. apply IH in Hs as [Hs|(r & Hr & Hrest)].
    + unfold suggest_candidate in Hs. cbn [fst snd] in Hs.
      destruct (decide (str_lower name ∈ executed)) as [Hex|Hex]; [by left|].
      apply elem_of_app in Hs as [Hs|Hs]; [by left|].
      apply list_elem_of_singleton in Hs. subst s. right. exists rank.
      split_and!; [left|done|done].
    + right. exists r. split; [by right|done].
Qed.

Lemma suggest_section64_elem (executed : gset string) (acc : list suggestion)
    (item : string * gap_entry) (s : suggestion) :
  s ∈ suggest_section str_lower executed acc item →
  s ∈ acc ∨
  ∃ rank, (PlannerSpec.candidates_of item.1) !! rank = Some (module_name s) ∧
          leb (missing_ratio item.2) (of_int 0) = false ∧
          (str_lower (module_name s) ∉ executed) ∧
          score s = suggestion_score item.2 rank.
Proof.
  unfold suggest_section. cbv zeta. fold (PlannerSpec.candidates_of item.1).
  destruct (PlannerSpec.candidates_of item.1) as [|m ms] eqn:Hc; [by left|].
  destruct (leb (missing_ratio item.2) (of_int 0)) eqn:Hle; [by left|].
  intros Hs.
  apply suggest_candidates64_elem in Hs as [Hs|(rank & Hr & Hex & Hsc)];
    [by left|].
  right. exists rank. apply SuggestFacts.enumerate_elem in Hr. by split_and!.
Qed.

Lemma candidate_suggestions64_fold_elem (executed : gset string)
    (gaps : list (string * gap_entry)) (acc : list suggestion) (s : suggestion) :
  s ∈ foldl (suggest_section str_lower executed) acc gaps →
  s ∈ acc ∨ ∃ section details rank, emitted executed gaps section details rank s.
Proof.
  revert acc. induction gaps as [|[section details] gaps IH]; intros acc;
    cbn [foldl]; [by left|].
  intros Hs. apply IH in Hs as [Hs|(sec & det & rank & Hin & Hrest)].
  - apply suggest_section64_elem in Hs as [Hs|(rank & H1 & H2 & H3 & H4)];
      [by left|].
    right. exists section, details, rank. split; [left|done].
  - right. exists sec, det, rank. split; [by right|done].
Qed.

(** C7, amended.  Every suggestion returned by [suggest_modules] stems from
    a section of the gap summary and a position in that section's candidate
    list, and its score is [round(., 2)] of the product
    [missing_ratio * 100 * priority_multiplier * field_pressure] as the
    interpreter computes it: in binary64, multiplied from left to right. *)
Theorem suggestion_score_is_round2_of_product
    (reqs : list (string * list string)) (history : option (list string))
    (w w' : World) (suggestions : list suggestion) (s : suggestion) :
  suggest_modules reqs history w = (w', inr suggestions) →
  s ∈ suggestions →
  ∃ gaps section details rank,
    analyze_gaps reqs w = (w, inr gaps) ∧
    assoc_get section gaps = Some details ∧
    (PlannerSpec.candidates_of section) !! rank = Some (module_name s) ∧
    score s
    = py_round2
        (mul (mul (mul (sub (of_int 1) (completeness details)) (of_int 100))
                  (py_max (literal 5 10)
                     (sub (of_int 1)
                          (mul (of_int (Z.of_nat rank)) (literal 1 10)))))
             (add (of_int 1)
                  (mul (of_int (Z.of_nat (length (missing_fields details))))
                       (literal 5 100)))).
Proof.
  intros Hrun Hs.
  apply suggest_modules64_returns in Hrun as (gaps & _ & Hgaps & Hnd & ->).
  rewrite sort_desc64_perm in Hs.
  apply candidate_suggestions64_fold_elem in Hs
    as [Hs|(section & details & rank & Hin & Hc & _ & _ & Hscore)];
    [inversion Hs|].
  exists gaps, section, details, rank.
  split_and!; [done| |done|done]. by apply assoc_elem_get.
Qed.

Lemma suggest_candidates64_grows (executed : gset string) (details : gap_entry)
    (items : list (nat * string)) (acc : list suggestion) (s : suggestion) :
  s ∈ acc → s ∈ foldl (suggest_candidate str_lower executed details) acc items.
Proof.
  revert acc. induction items as [|item items IH]; intros acc Hs; [done|].
  cbn [foldl]. apply IH. unfold suggest_candidate.
  destruct (decide (str_lower item.2 ∈ executed)); [done|].
  apply elem_of_app. by left.
Qed.

Lemma suggest_candidates64_emits (executed : gset string) (details : gap_entry)
    (items : list (nat * string)) (acc : list suggestion)
    (rank : nat) (name : string) :
  (rank, name) ∈ items → str_lower name ∉ executed →
  mk_suggestion name (suggestion_score details rank)
  ∈ foldl (suggest_candidate str_lower executed details) acc items.
Proof.
  revert acc. induction items as [|item items IH]; intros acc Hin Hex;
    [inversion Hin|].
  cbn [foldl]. apply elem_of_cons in Hin as [<-|Hin]; [|by apply IH].
  apply suggest_candidates64_grows. unfold suggest_candidate. cbn [fst snd].
  rewrite decide_False by done. apply elem_of_app. right. left.
Qed.

Lemma suggest_section64_grows (executed : gset string) (acc : list suggestion)
    (item : string * gap_entry) (s : suggestion) :
  s ∈ acc → s ∈ suggest_section str_lower executed acc item.
Proof.
  intros Hs. unfold suggest_section. cbv zeta.
  destruct (default [] (assoc_get item.1 Planner.section_modules)); [done|].
  destruct (leb (missing_ratio item.2) (of_int 0)); [done|].
  by apply suggest_candidates64_grows.
Qed.

Lemma suggest_sections64_grow (executed : gset string)
    (gaps : list (string * gap_entry)) (acc : list suggestion) (s : suggestion) :
  s ∈ acc → s ∈ foldl (suggest_section str_lower executed) acc gaps.
Proof.
  revert acc. induction gaps as [|item gaps IH]; intros acc Hs; [done|].
  cbn [foldl]. apply IH. by apply suggest_section64_grows.
Qed.

Lemma candidate_suggestions64_emits (executed : gset string)
    (gaps : list (string * gap_entry)) (acc : list suggestion)
    (section : string) (details : gap_entry) (rank : nat) (name : string) :
  (section, details) ∈ gaps →
  (PlannerSpec.candidates_of section) !! rank = Some name →
  leb (missing_ratio details) (of_int 0) = false → str_lower name ∉ executed →
  mk_suggestion name (suggestion_score details rank)
  ∈ foldl (suggest_section str_lower executed) acc gaps.
Proof.
  revert acc. induction gaps as [|item gaps IH]; intros acc Hin Hc Hm Hex;
    [inversion Hin|].
  cbn [foldl]. apply elem_of_cons in Hin as [<-|Hin]; [|by apply IH].
  apply suggest_sections64_grow. unfold suggest_section. cbv zeta. cbn [fst snd].
  fold (PlannerSpec.candidates_of section).
  destruct (PlannerSpec.candidates_of section) as [|m ms] eqn:Hcs;
    [by rewrite lookup_nil in Hc|].
  rewrite Hm. apply suggest_candidates64_emits; [|done].
  by apply SuggestFacts.enumerate_elem.
Qed.

(** X5.  No eligible module is left out: every candidate module of a
    section whose missing ratio [1.0 - completeness] is positive is in the
    result of [suggest_modules], with the score the interpreter computes
    for its section and rank, unless its lower-cased name is the
    lower-casing of a history entry. *)
Theorem eligible_candidate_is_suggested
    (reqs : list (string * list string)) (history : option (list string))
    (w w' : World) (suggestions : list suggestion)
    (gaps : list (string * gap_entry)) (section : string)
    (details : gap_entry) (rank : nat) (name : string) :
  suggest_modules reqs history w = (w', inr suggestions) →
  analyze_gaps reqs w = (w, inr gaps) →
  (section, details) ∈ gaps →
  (PlannerSpec.candidates_of section) !! rank = Some name →
  leb (sub (of_int 1) (completeness details)) (of_int 0) = false →
  (∀ h, h ∈ default [] history → str_lower name ≠ str_lower h) →
  mk_suggestion name (suggestion_score details rank) ∈ suggestions.
Proof.
  intros Hrun Hgaps Hin Hc Hpos Hhist.
  apply suggest_modules64_returns in Hrun as (gaps' & _ & Hg & _ & ->).
  rewrite Hg in Hgaps. injection Hgaps as <-.
  rewrite sort_desc64_perm. unfold candidate_suggestions.
  apply (candidate_suggestions64_emits _ _ _ section); [done|done|done|].
  unfold Planner.executed_set. rewrite elem_of_list_to_set, list_elem_of_fmap.
  intros (h & Heq & Hh). by apply (Hhist h).
Qed.

End Suggest.
End Planner64Facts.

Module Planner64ExampleFacts.
Import Binary64 Planner64 Planner64Spec Planner64Example Planner64Facts.

Lemma third_suggestions64_run :
  Planner64.suggest_modules PlannerExample.third_requirements Planner.lower_ascii None
    PlannerExample.third_world
  = (PlannerExample.third_world, inr [deep_dive64; alias_expansion64]).
Proof. vm_compute. reflexivity. Qed.

Lemma eight_suggestions_run :
  Planner64.suggest_modules eight_requirements Planner.lower_ascii None
    eight_world
  = (eight_world, inr [eight_deep_dive; eight_alias_expansion]).
Proof. vm_compute. reflexivity. Qed.

(** C7, as stated, fails: the suggestion for [Identity_DeepDive] carries
    73.33, while the product for its section and rank is the double
    73.33333333333333. *)
Lemma suggestion_score_differs_from_product :
  (∃ suggestions,
     Planner64.suggest_modules PlannerExample.third_requirements Planner.lower_ascii None
       PlannerExample.third_world
     = (PlannerExample.third_world, inr suggestions) ∧ deep_dive64 ∈ suggestions) ∧
  ∀ gaps section details rank,
    analyze_gaps PlannerExample.third_requirements PlannerExample.third_world = (PlannerExample.third_world, inr gaps) →
    assoc_get section gaps = Some details →
    (PlannerSpec.candidates_of section) !! rank
    = Some (module_name deep_dive64) →
    score deep_dive64
    ≠ mul (mul (mul (sub (of_int 1) (completeness details)) (of_int 100))
               (py_max (literal 5 10)
                  (sub (of_int 1)
                       (mul (of_int (Z.of_nat rank)) (literal 1 10)))))
          (add (of_int 1)
               (mul (of_int (Z.of_nat (length (missing_fields details))))
                    (literal 5 100))).
Proof.
  split.
  - exists [deep_dive64; alias_expansion64].
    split; [apply third_suggestions64_run|left].
  - intros gaps section details rank Hg Hsec Hrank.
    assert (Hrun : analyze_gaps PlannerExample.third_requirements PlannerExample.third_world
              = (PlannerExample.third_world,
                 inr [("identity",
                       mk_gap ["dob"; "aliases"]
                         (completeness_of ["dob"; "aliases"]
                            ["full_name"; "dob"; "aliases"]))]))
      by (vm_compute; reflexivity).
    rewrite Hrun in Hg. injection Hg as <-.
    cbn [assoc_get] in Hsec.
    destruct (decide (section = "identity")) as [->|Hne]; [|discriminate Hsec].
    injection Hsec as <-.
    change (PlannerSpec.candidates_of "identity")
      with ["Identity_DeepDive"; "Alias_Expansion"] in Hrank.
    destruct rank as [|[|rank]]; cbn in Hrank; try discriminate Hrank.
    intros Heq. vm_compute in Heq. discriminate Heq.
Qed.

(** Eight required fields, seven missing: the score is 118.13. *)
Lemma suggestion_score_is_round2_of_product_witness :
  ∃ gaps section details rank,
    analyze_gaps eight_requirements eight_world = (eight_world, inr gaps) ∧
    assoc_get section gaps = Some details ∧
    (PlannerSpec.candidates_of section) !! rank
    = Some (module_name eight_deep_dive) ∧
    literal 11813 100
    = py_round2
        (mul (mul (mul (sub (of_int 1) (completeness details)) (of_int 100))
                  (py_max (literal 5 10)
                     (sub (of_int 1)
                          (mul (of_int (Z.of_nat rank)) (literal 1 10)))))
             (add (of_int 1)
                  (mul (of_int (Z.of_nat (length (missing_fields details))))
                       (literal 5 100)))).
Proof.
  apply (suggestion_score_is_round2_of_product Planner.lower_ascii
           eight_requirements None eight_world eight_world
           [eight_deep_dive; eight_alias_expansion] eight_deep_dive).
  - exact eight_suggestions_run.
  - left.
Defined.

Lemma eligible_candidate_is_suggested_witness :
  mk_suggestion "Alias_Expansion" (literal 10631 100)
  ∈ [eight_deep_dive; eight_alias_expansion].
Proof.
  apply (eligible_candidate_is_suggested Planner.lower_ascii
           eight_requirements None eight_world eight_world
           [eight_deep_dive; eight_alias_expansion]
           [("identity",
             mk_gap ["dob"; "aliases"; "gender"; "nationality"; "birthplace";
                     "occupation"; "photo"]
                    (literal 125 1000))]
           "identity"
           (mk_gap ["dob"; "aliases"; "gender"; "nationality"; "birthplace";
                    "occupation"; "photo"]
                   (literal 125 1000))
           1 "Alias_Expansion").
  - exact eight_suggestions_run.
  - vm_compute. reflexivity.
  - left.
  - reflexivity.
  - vm_compute. reflexivity.
  - intros h Hh. inversion Hh.
Defined.

End Planner64ExampleFacts.
